(** * Halloween Haunt: Candy Quest -- entity simulation core

    A shallow embedding of the simulation core of the game
    ([entities.py], [special_features.py], the level structures and
    the level tick of [levels.py], the collision check of
    [game_manager.py], constants, camera, particles and high scores of
    [halloween_haunt.py]) and the properties its specification states
    about it, followed by further properties of the code.

    Modelling conventions.
    - Python [int] is [Z]; Python [float] is idealised as a real number
      ([R]): rounding, overflow and NaN are not modelled.  Decimal
      literals are the exact fractions they denote ([0.2] is [1/5]).
    - An operation that can raise ([ZeroDivisionError] on [/],
      [IndexError] on list subscripts) returns a [Result].
    - Methods that mutate [self] return the new object; methods that
      mutate an argument as well return both.
    - Sprites, fonts and drawing code are left out; they never feed back
      into the simulation state. *)

From Stdlib Require Import String DecimalString Reals Lra Psatz ZArith Lia Bool List Permutation.
From Stdlib Require Import Sorted.
Import ListNotations.

Set Implicit Arguments.

(** ** Python values and exceptions *)

Inductive PyError : Type :=
| ZeroDivisionError
| IndexError
| AttributeError.

Inductive Result (A : Type) : Type :=
| Ok (a : A)
| Raise (e : PyError).

Arguments Ok {A} a.
Arguments Raise {A} e.

Definition bind {A B : Type} (m : Result A) (k : A -> Result B) : Result B :=
  match m with
  | Ok a => k a
  | Raise e => Raise e
  end.

Declare Scope result_scope.
Delimit Scope result_scope with result.
Notation "x <- m ;; k" := (bind m (fun x => k))
  (at level 61, m at next level, right associativity) : result_scope.
Notation "' p <- m ;; k" := (bind m (fun p => k))
  (at level 61, p pattern, m at next level, right associativity) : result_scope.
Open Scope result_scope.

(** [l[i]]: a negative subscript counts from the end, anything out of
    range raises [IndexError]. *)
Definition py_index {A : Type} (l : list A) (i : Z) : Result nat :=
  let n := Z.of_nat (length l) in
  if (0 <=? i)%Z && (i <? n)%Z then Ok (Z.to_nat i)
  else if (- n <=? i)%Z && (i <? 0)%Z then Ok (Z.to_nat (n + i))
  else Raise IndexError.

Definition py_get {A : Type} (l : list A) (i : Z) : Result A :=
  k <- py_index l i ;;
  match nth_error l k with
  | Some a => Ok a
  | None => Raise IndexError
  end.

Fixpoint list_set {A : Type} (l : list A) (k : nat) (v : A) : list A :=
  match l, k with
  | [], _ => []
  | _ :: t, O => v :: t
  | h :: t, S k' => h :: list_set t k' v
  end.

(** [l[i] = v] *)
Definition py_set {A : Type} (l : list A) (i : Z) (v : A) : Result (list A) :=
  k <- py_index l i ;;
  Ok (list_set l k v).

(** [a / b] on floats *)
Definition py_div (a b : R) : Result R :=
  if Req_dec_T b 0 then Raise ZeroDivisionError else Ok (a / b)%R.

(** [int(r)]: truncation toward zero *)
Definition py_int (r : R) : Z :=
  if Rle_dec 0 r then Zfloor r else Zceil r.

(** [int(a // b)] for a positive [b]: the floor of the quotient *)
Definition py_floordiv (a b : R) : Z := Zfloor (a / b).

(** [math.atan2(y, x)] *)
Definition atan2 (y x : R) : R :=
  if Rlt_dec 0 x then atan (y / x)
  else if Rlt_dec x 0 then
    (if Rle_dec 0 y then atan (y / x) + PI else atan (y / x) - PI)%R
  else if Rlt_dec 0 y then (PI / 2)%R
  else if Rlt_dec y 0 then (- PI / 2)%R
  else 0%R.

(** ** Constants of [halloween_haunt.py] *)

Definition TILE_SIZE : R := 32.
Definition PLAYER_MAX_SPEED : R := 3.
Definition PLAYER_ACCELERATION : R := 1 / 5.
Definition PLAYER_DECELERATION : R := 3 / 20.
Definition GHOST_SPEED : R := 3 / 2.
Definition GHOST_CHASE_SPEED : R := 5 / 2.
Definition GHOST_DETECTION_RADIUS : R := 100.
Definition PLAYER_MAX_HEALTH : Z := 3.
Definition INVINCIBILITY_DURATION : Z := 120.
Definition YELLOW : Z * Z * Z := (255, 255, 0)%Z.
Definition WHITE : Z * Z * Z := (255, 255, 255)%Z.
Definition BLUE : Z * Z * Z := (0, 0, 255)%Z.

Inductive TileType : Type :=
| EMPTY | STREET | HOUSE | WALL | CHURCH | GRAVE | TREE
| DOOR | CHURCH_DOOR | CEMETERY_GATE | TRASH_CAN.

Inductive PowerUpType : Type :=
| CANDY_MAGNET | GHOST_REPEL | EXTRA_HEART | SPEED_BOOST | ZOMBIE_POWER
| INVISIBILITY | TIME_SLOW | DOUBLE_POINTS | SHIELD.

Definition PowerUpType_eq_dec (a b : PowerUpType) : {a = b} + {a <> b}.
Proof. decide equality. Defined.

Definition PowerUpType_eqb (a b : PowerUpType) : bool :=
  if PowerUpType_eq_dec a b then true else false.

(** [@dataclass PowerUp] *)
Record PowerUp : Type := mkPowerUp {
  type : PowerUpType;
  duration : Z;
  strength : R
}.

(** [PowerUp(type, duration)]: [strength] defaults to [1.0] *)
Definition PowerUp_new (t : PowerUpType) (d : Z) : PowerUp :=
  mkPowerUp t d 1.

(** [class Particle]: position, velocity, colour, lifetime *)
Record Particle : Type := mkParticle {
  particle_x : R;
  particle_y : R;
  particle_vx : R;
  particle_vy : R;
  particle_color : Z * Z * Z;
  particle_lifetime : Z
}.

(** The keys the simulation reads from [pygame.key.get_pressed()]. *)
Record Keys : Type := mkKeys {
  K_a : bool; K_LEFT : bool;
  K_d : bool; K_RIGHT : bool;
  K_w : bool; K_UP : bool;
  K_s : bool; K_DOWN : bool
}.

Definition no_keys : Keys :=
  mkKeys false false false false false false false false.

(** ** The [random] module

    The generator is an explicit state: one stream feeds
    [random.random()], the other the integer draws behind
    [random.shuffle] and [random.choice]. *)
Module Random.

Record t : Type := mk {
  floats : nat -> R;
  ints : nat -> nat
}.

(** [random.uniform(a, b)] is [a + (b - a) * random()] *)
Definition uniform (a b : R) (g : t) : R * t :=
  ((a + (b - a) * floats g 0)%R, mk (fun n => floats g (S n)) (ints g)).

(** a draw in [range(n)] *)
Definition randbelow (n : nat) (g : t) : nat * t :=
  (ints g 0 mod n, mk (floats g) (fun k => ints g (S k))).

Definition swap {A : Type} (l : list A) (i j : nat) : list A :=
  match nth_error l i, nth_error l j with
  | Some a, Some b => list_set (list_set l i b) j a
  | _, _ => l
  end.

(** The loop of [random.shuffle]:
    [for i in reversed(range(1, len(x))): j = randbelow(i + 1);
     x[i], x[j] = x[j], x[i]], with [i] running from [n] down to 1. *)
Fixpoint shuffle_from {A : Type} (n : nat) (l : list A) (g : t) : list A * t :=
  match n with
  | O => (l, g)
  | S n' =>
      let '(j, g1) := randbelow (S n) g in
      shuffle_from n' (swap l n j) g1
  end.

Definition shuffle {A : Type} (l : list A) (g : t) : list A * t :=
  shuffle_from (length l - 1) l g.

(** [random.choice(seq)] on a non-empty sequence *)
Definition choice {A : Type} (d : A) (l : list A) (g : t) : A * t :=
  let '(j, g1) := randbelow (length l) g in (nth j l d, g1).

End Random.

(** ** [class TileMap] *)
Module TileMap.

Record t : Type := mk {
  width : Z;
  height : Z;
  tiles : list (list TileType)
}.

(** [TileMap(width, height)]: a grid of [height] rows of [width]
    [EMPTY] tiles ([range] of a negative number is empty). *)
Definition init (w h : Z) : t :=
  mk w h (repeat (repeat EMPTY (Z.to_nat w)) (Z.to_nat h)).

Definition in_bounds (self : t) (x y : Z) : bool :=
  ((0 <=? x)%Z && (x <? width self)%Z) && ((0 <=? y)%Z && (y <? height self)%Z).

Definition set_tile (self : t) (x y : Z) (tile_type : TileType) : Result t :=
  if in_bounds self x y then
    row <- py_get (tiles self) y ;;
    row' <- py_set row x tile_type ;;
    tiles' <- py_set (tiles self) y row' ;;
    Ok (mk (width self) (height self) tiles')
  else Ok self.

Definition get_tile (self : t) (x y : Z) : Result TileType :=
  if in_bounds self x y then
    row <- py_get (tiles self) y ;;
    py_get row x
  else Ok WALL.

Definition solid_tiles (tile : TileType) : bool :=
  match tile with
  | WALL | HOUSE | CHURCH | GRAVE | TREE | TRASH_CAN => true
  | _ => false
  end.

Definition is_solid_tile (self : t) (x y : Z) : Result bool :=
  tile <- get_tile self x y ;;
  Ok (solid_tiles tile).

Definition is_door_tile (self : t) (x y : Z) : Result bool :=
  tile <- get_tile self x y ;;
  Ok (match tile with
      | DOOR | CHURCH_DOOR | CEMETERY_GATE => true
      | _ => false
      end).

(** The shape the constructor builds and [set_tile] keeps: [height]
    rows of [width] tiles each. *)
Definition wf (self : t) : Prop :=
  length (tiles self) = Z.to_nat (height self) /\
  Forall (fun row => length row = Z.to_nat (width self)) (tiles self).

End TileMap.


(** ** [class Player] *)
Module Player.

Record t : Type := mk {
  x : R;
  y : R;
  vx : R;
  vy : R;
  health : Z;
  candies_collected : Z;
  score : Z;
  invincible_timer : Z;
  radius : R;
  facing_direction : R;
  active_powerups : list PowerUp;
  invisibility_active : bool;
  time_slow_active : bool;
  double_points_active : bool;
  shield_active : bool;
  rect_centerx : Z;
  rect_centery : Z
}.

(** [Player(x, y)] *)
Definition init (x0 y0 : R) : t :=
  mk x0 y0 0 0 PLAYER_MAX_HEALTH 0 0 0 12 0 [] false false false false
     (py_int (x0 - 12) + 12) (py_int (y0 - 12) + 12).

(** The locals of the power-up loop in [update]. *)
Record Polled : Type := mkPolled {
  speed_multiplier : R;
  polled_invisibility : bool;
  polled_time_slow : bool;
  polled_double_points : bool;
  polled_shield : bool
}.

Definition poll_one (acc : Polled) (powerup : PowerUp) : Polled :=
  match type powerup with
  | SPEED_BOOST =>
      mkPolled (speed_multiplier acc * (3 / 2)) (polled_invisibility acc)
               (polled_time_slow acc) (polled_double_points acc) (polled_shield acc)
  | INVISIBILITY =>
      mkPolled (speed_multiplier acc) true
               (polled_time_slow acc) (polled_double_points acc) (polled_shield acc)
  | TIME_SLOW =>
      mkPolled (speed_multiplier acc) (polled_invisibility acc)
               true (polled_double_points acc) (polled_shield acc)
  | DOUBLE_POINTS =>
      mkPolled (speed_multiplier acc) (polled_invisibility acc)
               (polled_time_slow acc) true (polled_shield acc)
  | SHIELD =>
      mkPolled (speed_multiplier acc) (polled_invisibility acc)
               (polled_time_slow acc) (polled_double_points acc) true
  | _ => acc
  end.

(** [for powerup in self.active_powerups: ...] *)
Definition poll_powerups (l : list PowerUp) : Polled :=
  fold_left poll_one l (mkPolled 1 false false false false).

(** The loop over the four corners in [_check_wall_collision]. *)
Fixpoint any_corner_solid (tile_map : TileMap.t) (corners : list (R * R)) : Result bool :=
  match corners with
  | [] => Ok false
  | (corner_x, corner_y) :: rest =>
      let tile_x := py_floordiv corner_x TILE_SIZE in
      let tile_y := py_floordiv corner_y TILE_SIZE in
      solid <- TileMap.is_solid_tile tile_map tile_x tile_y ;;
      if solid then Ok true else any_corner_solid tile_map rest
  end.

Definition _check_wall_collision (self : t) (px py : R) (tile_map : TileMap.t) : Result bool :=
  let corners :=
    [ (px - radius self, py - radius self);
      (px + radius self, py - radius self);
      (px - radius self, py + radius self);
      (px + radius self, py + radius self) ]%R in
  any_corner_solid tile_map corners.

(** [_update_powerups]: drop the entries whose duration is spent, then
    count every remaining one down. *)
Definition _update_powerups (l : list PowerUp) : list PowerUp :=
  map (fun p => mkPowerUp (type p) (duration p - 1) (strength p))
      (filter (fun p => (0 <? duration p)%Z) l).

(** The speed limit of [update]. *)
Definition limit_speed (max_speed vx0 vy0 : R) : Result (R * R) :=
  let speed := sqrt (vx0 ^ 2 + vy0 ^ 2) in
  if Rlt_dec max_speed speed then
    qx <- py_div vx0 speed ;;
    qy <- py_div vy0 speed ;;
    Ok (qx * max_speed, qy * max_speed)%R
  else Ok (vx0, vy0).

Definition update (keys_pressed : Keys) (tile_map : TileMap.t) (self : t) : Result t :=
  let acceleration_x := 0%R in
  let acceleration_y := 0%R in
  let acceleration_x :=
    if K_a keys_pressed || K_LEFT keys_pressed
    then (- PLAYER_ACCELERATION)%R else acceleration_x in
  let acceleration_x :=
    if K_d keys_pressed || K_RIGHT keys_pressed
    then PLAYER_ACCELERATION else acceleration_x in
  let acceleration_y :=
    if K_w keys_pressed || K_UP keys_pressed
    then (- PLAYER_ACCELERATION)%R else acceleration_y in
  let acceleration_y :=
    if K_s keys_pressed || K_DOWN keys_pressed
    then PLAYER_ACCELERATION else acceleration_y in
  let vx1 := (vx self + acceleration_x)%R in
  let vy1 := (vy self + acceleration_y)%R in
  let vx2 :=
    if Req_dec_T acceleration_x 0 then (vx1 * (1 - PLAYER_DECELERATION))%R else vx1 in
  let vy2 :=
    if Req_dec_T acceleration_y 0 then (vy1 * (1 - PLAYER_DECELERATION))%R else vy1 in
  let polled := poll_powerups (active_powerups self) in
  let max_speed := (PLAYER_MAX_SPEED * speed_multiplier polled)%R in
  '(vx3, vy3) <- limit_speed max_speed vx2 vy2 ;;
  let new_x := (x self + vx3)%R in
  let new_y := (y self + vy3)%R in
  hit_x <- _check_wall_collision self new_x (y self) tile_map ;;
  let x' := if hit_x then x self else new_x in
  let vx4 := if hit_x then 0%R else vx3 in
  hit_y <- _check_wall_collision self x' new_y tile_map ;;
  let y' := if hit_y then y self else new_y in
  let vy4 := if hit_y then 0%R else vy3 in
  let facing :=
    if Rlt_dec (1 / 10) (Rabs vx4) then atan2 vy4 vx4
    else if Rlt_dec (1 / 10) (Rabs vy4) then atan2 vy4 vx4
    else facing_direction self in
  let timer :=
    if (0 <? invincible_timer self)%Z
    then (invincible_timer self - 1)%Z else invincible_timer self in
  Ok (mk x' y' vx4 vy4 (health self) (candies_collected self) (score self)
         timer (radius self) facing
         (_update_powerups (active_powerups self))
         (polled_invisibility polled) (polled_time_slow polled)
         (polled_double_points polled) (polled_shield polled)
         (py_int x') (py_int y')).

Definition take_damage (self : t) : t * bool :=
  if (invincible_timer self <=? 0)%Z && negb (shield_active self) then
    (mk (x self) (y self) (vx self) (vy self) (health self - 1)
        (candies_collected self) (score self) INVINCIBILITY_DURATION
        (radius self) (facing_direction self) (active_powerups self)
        (invisibility_active self) (time_slow_active self)
        (double_points_active self) (shield_active self)
        (rect_centerx self) (rect_centery self), true)
  else (self, false).

Definition collect_candy (points : Z) (self : t) : t :=
  let actual_points := (points * (if double_points_active self then 2 else 1))%Z in
  mk (x self) (y self) (vx self) (vy self) (health self)
     (candies_collected self + 1) (score self + actual_points)
     (invincible_timer self) (radius self) (facing_direction self)
     (active_powerups self) (invisibility_active self) (time_slow_active self)
     (double_points_active self) (shield_active self)
     (rect_centerx self) (rect_centery self).

Definition set_active_powerups (l : list PowerUp) (self : t) : t :=
  mk (x self) (y self) (vx self) (vy self) (health self)
     (candies_collected self) (score self)
     (invincible_timer self) (radius self) (facing_direction self)
     l (invisibility_active self) (time_slow_active self)
     (double_points_active self) (shield_active self)
     (rect_centerx self) (rect_centery self).

Definition add_powerup (powerup_type : PowerUpType) (d : Z) (self : t) : t :=
  let kept :=
    filter (fun p => negb (PowerUpType_eqb (type p) powerup_type))
           (active_powerups self) in
  set_active_powerups (kept ++ [PowerUp_new powerup_type d]) self.

Definition set_health (h : Z) (self : t) : t :=
  mk (x self) (y self) (vx self) (vy self) h
     (candies_collected self) (score self)
     (invincible_timer self) (radius self) (facing_direction self)
     (active_powerups self) (invisibility_active self) (time_slow_active self)
     (double_points_active self) (shield_active self)
     (rect_centerx self) (rect_centery self).

Definition heal (amount : Z) (self : t) : t :=
  set_health (Z.min 5 (health self + amount)) self.

(** [player.score += n], as the collectors do it from outside *)
Definition add_score (n : Z) (self : t) : t :=
  mk (x self) (y self) (vx self) (vy self) (health self)
     (candies_collected self) (score self + n)
     (invincible_timer self) (radius self) (facing_direction self)
     (active_powerups self) (invisibility_active self) (time_slow_active self)
     (double_points_active self) (shield_active self)
     (rect_centerx self) (rect_centery self).

End Player.


(** ** [class Ghost] *)

(** The values [self.state] takes: ["patrol"], ["chase"], ["return"]. *)
Inductive GhostState : Type := Patrol | Chase | Return.

Module Ghost.

Record t : Type := mk {
  x : R;
  y : R;
  start_x : R;
  start_y : R;
  vx : R;
  vy : R;
  state : GhostState;
  patrol_points : list (R * R);
  current_patrol_target : Z;
  chase_timer : Z;
  radius : R;
  alpha : Z;
  (** the attribute [update] attaches; [None] while it does not exist *)
  _player_ref : option Player.t;
  rect_centerx : Z;
  rect_centery : Z
}.

(** [Ghost(x, y, patrol_points)]: [patrol_points or [(x, y)]] replaces
    a missing or empty route by the single start point. *)
Definition init (x0 y0 : R) (points : option (list (R * R))) : t :=
  let route :=
    match points with
    | Some (p :: l) => p :: l
    | _ => [(x0, y0)]
    end in
  mk x0 y0 x0 y0 0 0 Patrol route 0 0 10 180 None
     (py_int (x0 - 10) + 10) (py_int (y0 - 10) + 10).

Definition set_velocity (vx' vy' : R) (self : t) : t :=
  mk (x self) (y self) (start_x self) (start_y self) vx' vy' (state self)
     (patrol_points self) (current_patrol_target self) (chase_timer self)
     (radius self) (alpha self) (_player_ref self)
     (rect_centerx self) (rect_centery self).

(** [ghost.radius = r], as the cemetery does for its boss *)
Definition set_radius (r : R) (self : t) : t :=
  mk (x self) (y self) (start_x self) (start_y self) (vx self) (vy self)
     (state self) (patrol_points self) (current_patrol_target self)
     (chase_timer self) r (alpha self) (_player_ref self)
     (rect_centerx self) (rect_centery self).

Definition set_current_patrol_target (i : Z) (self : t) : t :=
  mk (x self) (y self) (start_x self) (start_y self) (vx self) (vy self)
     (state self) (patrol_points self) i (chase_timer self)
     (radius self) (alpha self) (_player_ref self)
     (rect_centerx self) (rect_centery self).

Definition _chase_player (player : Player.t) (self : t) : Result t :=
  let dx := (Player.x player - x self)%R in
  let dy := (Player.y player - y self)%R in
  let distance := sqrt (dx ^ 2 + dy ^ 2) in
  if Rlt_dec 0 distance then
    let speed := GHOST_CHASE_SPEED in
    let speed :=
      if Player.time_slow_active player then (speed * (2 / 5))%R else speed in
    qx <- py_div dx distance ;;
    qy <- py_div dy distance ;;
    Ok (set_velocity (qx * speed) (qy * speed) self)
  else Ok self.

Definition _return_to_start (self : t) : Result t :=
  let dx := (start_x self - x self)%R in
  let dy := (start_y self - y self)%R in
  let distance := sqrt (dx ^ 2 + dy ^ 2) in
  if Rlt_dec 0 distance then
    let speed := GHOST_SPEED in
    match _player_ref self with
    | None => Raise AttributeError
    | Some player =>
        let speed :=
          if Player.time_slow_active player then (speed * (2 / 5))%R else speed in
        qx <- py_div dx distance ;;
        qy <- py_div dy distance ;;
        Ok (set_velocity (qx * speed) (qy * speed) self)
    end
  else Ok (set_velocity 0 0 self).

Definition _patrol (self : t) : Result t :=
  match patrol_points self with
  | [] => Ok (set_velocity 0 0 self)
  | _ :: _ =>
      '(target_x, target_y) <- py_get (patrol_points self) (current_patrol_target self) ;;
      let dx := (target_x - x self)%R in
      let dy := (target_y - y self)%R in
      let distance := sqrt (dx ^ 2 + dy ^ 2) in
      if Rlt_dec distance 10 then
        Ok (set_current_patrol_target
              ((current_patrol_target self + 1)
                 mod Z.of_nat (length (patrol_points self)))%Z self)
      else
        let speed := GHOST_SPEED in
        let speed :=
          match _player_ref self with
          | Some player =>
              if Player.time_slow_active player then (speed * (2 / 5))%R else speed
          | None => speed
          end in
        qx <- py_div dx distance ;;
        qy <- py_div dy distance ;;
        Ok (set_velocity (qx * speed) (qy * speed) self)
  end.

Definition _check_wall_collision (px py : R) (tile_map : TileMap.t) : Result bool :=
  let tile_x := py_floordiv px TILE_SIZE in
  let tile_y := py_floordiv py TILE_SIZE in
  TileMap.is_solid_tile tile_map tile_x tile_y.

(** The state management block of [update]: the new state, the new
    chase timer and the [started_chasing] flag. *)
Definition next_state (player : Player.t) (self : t) : GhostState * Z * bool :=
  let distance_to_player :=
    sqrt ((x self - Player.x player) ^ 2 + (y self - Player.y player) ^ 2) in
  match state self with
  | Patrol =>
      if Rle_dec distance_to_player GHOST_DETECTION_RADIUS then
        if negb (Player.invisibility_active player)
        then (Chase, 300%Z, true)
        else (Patrol, chase_timer self, false)
      else (Patrol, chase_timer self, false)
  | Chase =>
      let timer := (chase_timer self - 1)%Z in
      if (timer <=? 0)%Z then (Return, timer, false)
      else if Rlt_dec (GHOST_DETECTION_RADIUS * (3 / 2)) distance_to_player
           then (Return, timer, false)
           else (Chase, timer, false)
  | Return =>
      let distance_to_start :=
        sqrt ((x self - start_x self) ^ 2 + (y self - start_y self) ^ 2) in
      if Rlt_dec distance_to_start 20
      then (Patrol, chase_timer self, false)
      else (Return, chase_timer self, false)
  end.

(** The start of [update]: the player reference is stored, then the
    state and the chase timer are brought up to date. *)
Definition enter_state (player : Player.t) (self : t) : t :=
  let '(state', timer', _) := next_state player self in
  mk (x self) (y self) (start_x self) (start_y self) (vx self) (vy self)
     state' (patrol_points self) (current_patrol_target self) timer'
     (radius self) (alpha self) (Some player)
     (rect_centerx self) (rect_centery self).

(** "Movement based on state" *)
Definition move (player : Player.t) (self : t) : Result t :=
  match state self with
  | Chase => _chase_player player self
  | Return => _return_to_start self
  | Patrol => _patrol self
  end.

(** "Apply movement": each axis moves unless the tile it would enter is
    solid, then the collision rectangle follows. *)
Definition apply_movement (tile_map : TileMap.t) (self : t) : Result t :=
  let new_x := (x self + vx self)%R in
  let new_y := (y self + vy self)%R in
  hit_x <- _check_wall_collision new_x (y self) tile_map ;;
  let x' := if hit_x then x self else new_x in
  hit_y <- _check_wall_collision x' new_y tile_map ;;
  let y' := if hit_y then y self else new_y in
  Ok (mk x' y' (start_x self) (start_y self) (vx self) (vy self)
         (state self) (patrol_points self) (current_patrol_target self)
         (chase_timer self) (radius self) (alpha self) (_player_ref self)
         (py_int x') (py_int y')).

Definition update (player : Player.t) (tile_map : TileMap.t) (self : t)
  : Result (t * bool) :=
  let started_chasing := snd (next_state player self) in
  self1 <- move player (enter_state player self) ;;
  self2 <- apply_movement tile_map self1 ;;
  Ok (self2, started_chasing).

End Ghost.


(** ** [class Candy] *)
Module Candy.

Record t : Type := mk {
  x : R;
  y : R;
  (** ["normal"], ["cursed"] or ["bonus"] *)
  type : string;
  points : Z;
  collected : bool;
  radius : R;
  glow_timer : Z
}.

(** [Candy(x, y, candy_type, points)] *)
Definition init (x0 y0 : R) (candy_type : string) (pts : Z) : t :=
  mk x0 y0 candy_type pts false 6 0.

(** The pickup loop: [n] particles appended one after the other, each
    drawing an angle and then a speed. *)
Fixpoint pickup_particles (n : nat) (px py : R) (acc : list Particle) (g : Random.t)
  : list Particle * Random.t :=
  match n with
  | O => (acc, g)
  | S n' =>
      let '(angle, g1) := Random.uniform 0 (2 * PI) g in
      let '(speed, g2) := Random.uniform 1 3 g1 in
      let pvx := (cos angle * speed)%R in
      let pvy := (sin angle * speed)%R in
      pickup_particles n' px py (acc ++ [mkParticle px py pvx pvy YELLOW 30]) g2
  end.

(** [collect(player)]: the candy, the player it mutates, the particles
    it returns and the generator after the draws. *)
Definition collect (player : Player.t) (g : Random.t) (self : t)
  : t * Player.t * list Particle * Random.t :=
  let particles := [] in
  if negb (collected self) then
    let self' := mk (x self) (y self) (type self) (points self) true
                    (radius self) (glow_timer self) in
    let player1 := Player.collect_candy (points self) player in
    let player2 :=
      if String.eqb (type self) "cursed" then
        Player.add_powerup SPEED_BOOST 300 player1
      else if String.eqb (type self) "bonus" then
        Player.heal 1 (Player.add_score (points self) player1)
      else player1 in
    let '(particles', g') := pickup_particles 8 (x self) (y self) particles g in
    (self', player2, particles', g')
  else (self, player, particles, g).

End Candy.

(** ** [class ChurchPuzzle] *)
Module ChurchPuzzle.

Record t : Type := mk {
  x : R;
  y : R;
  active : bool;
  completed : bool;
  symbols : list string;
  current_order : list string;
  target_order : list string;
  selected_symbol : Z
}.

(** [ChurchPuzzle(x, y)]: the current order starts as a shuffled copy of
    the symbols. *)
Definition init (x0 y0 : R) (g : Random.t) : t * Random.t :=
  let symbols0 := ["cross"; "candle"; "bible"; "angel"]%string in
  let '(order, g') := Random.shuffle symbols0 g in
  (mk x0 y0 false false symbols0 order
      ["angel"; "bible"; "candle"; "cross"]%string 0, g').

Definition interact (player : Player.t) (self : t) : t * (bool * string * list Particle) :=
  let distance :=
    sqrt ((Player.x player - x self) ^ 2 + (Player.y player - y self) ^ 2) in
  if Rlt_dec 50 distance then
    (self, (false, "Get closer to the altar!"%string, []))
  else if completed self then
    (self, (false, "Puzzle already solved!"%string, []))
  else if negb (active self) then
    (mk (x self) (y self) true (completed self) (symbols self)
        (current_order self) (target_order self) (selected_symbol self),
     (true, "Use WASD to rearrange symbols, SPACE to confirm."%string, []))
  else (self, (false, ""%string, [])).

(** [l[i], l[j] = l[j], l[i]]: both reads, then the two writes in
    order. *)
Definition swap_items (l : list string) (i j : Z) : Result (list string) :=
  a <- py_get l j ;;
  b <- py_get l i ;;
  l1 <- py_set l i a ;;
  py_set l1 j b.

(** The key handling of [handle_input]: the order and the selection
    after the left or right move of this call. *)
Definition move_selected (keys_pressed : Keys) (self : t) : Result (list string * Z) :=
  let sel := selected_symbol self in
  if K_a keys_pressed || K_LEFT keys_pressed then
    if (0 <? sel)%Z then
      order <- swap_items (current_order self) sel (sel - 1) ;;
      Ok (order, (sel - 1)%Z)
    else Ok (current_order self, sel)
  else if K_d keys_pressed || K_RIGHT keys_pressed then
    if (sel <? Z.of_nat (length (current_order self)) - 1)%Z then
      order <- swap_items (current_order self) sel (sel + 1) ;;
      Ok (order, (sel + 1)%Z)
    else Ok (current_order self, sel)
  else Ok (current_order self, sel).

(** The celebration loop: an angle, a speed and a colour per particle. *)
Fixpoint celebration_particles (n : nat) (px py : R) (acc : list Particle) (g : Random.t)
  : list Particle * Random.t :=
  match n with
  | O => (acc, g)
  | S n' =>
      let '(angle, g1) := Random.uniform 0 (2 * PI) g in
      let '(speed, g2) := Random.uniform 2 5 g1 in
      let pvx := (cos angle * speed)%R in
      let pvy := (sin angle * speed)%R in
      let '(color, g3) := Random.choice YELLOW [YELLOW; WHITE; BLUE] g2 in
      celebration_particles n' px py (acc ++ [mkParticle px py pvx pvy color 90]) g3
  end.

Definition order_eqb (a b : list string) : bool :=
  if list_eq_dec string_dec a b then true else false.

(** [handle_input(keys_pressed, space_pressed)]: the puzzle, the
    returned pair [(completed, particles)] and the generator. *)
Definition handle_input (keys_pressed : Keys) (space_pressed : bool)
  (g : Random.t) (self : t) : Result (t * (bool * list Particle) * Random.t) :=
  if negb (active self) || completed self then Ok (self, (false, []), g)
  else
    let particles := [] in
    '(order, sel) <- move_selected keys_pressed self ;;
    if space_pressed then
      if order_eqb order (target_order self) then
        let '(particles', g') := celebration_particles 20 (x self) (y self) particles g in
        Ok (mk (x self) (y self) false true (symbols self) order
               (target_order self) sel, (true, particles'), g')
      else
        let '(order', g') := Random.shuffle order g in
        Ok (mk (x self) (y self) (active self) (completed self) (symbols self)
               order' (target_order self) sel, (false, particles), g')
    else
      Ok (mk (x self) (y self) (active self) (completed self) (symbols self)
             order (target_order self) sel, (false, particles), g).

End ChurchPuzzle.


(** ** Runs of the public operations *)

(** A power-up of the given kind is in the list. *)
Definition has_powerup (kind : PowerUpType) (l : list PowerUp) : bool :=
  existsb (fun p => PowerUpType_eqb (type p) kind) l.

(** [sqrt(vx ** 2 + vy ** 2)] *)
Definition magnitude (vx vy : R) : R := sqrt (vx ^ 2 + vy ^ 2).

(** The calls a client can make on a player. *)
Inductive PlayerOp : Type :=
| OpUpdate (keys_pressed : Keys)
| OpTakeDamage
| OpHeal (amount : Z)
| OpCollectCandy (points : Z)
| OpAddPowerup (powerup_type : PowerUpType) (d : Z).

Definition run_op (tile_map : TileMap.t) (op : PlayerOp) (p : Player.t) : Result Player.t :=
  match op with
  | OpUpdate keys_pressed => Player.update keys_pressed tile_map p
  | OpTakeDamage => Ok (fst (Player.take_damage p))
  | OpHeal amount => Ok (Player.heal amount p)
  | OpCollectCandy points => Ok (Player.collect_candy points p)
  | OpAddPowerup powerup_type d => Ok (Player.add_powerup powerup_type d p)
  end.

Fixpoint run_ops (tile_map : TileMap.t) (ops : list PlayerOp) (p : Player.t) : Result Player.t :=
  match ops with
  | [] => Ok p
  | op :: rest => p' <- run_op tile_map op p ;; run_ops tile_map rest p'
  end.

(** The discipline of the game loop: it stops hitting a player whose
    health is spent, and it never heals by a negative amount. *)
Fixpoint disciplined (tile_map : TileMap.t) (ops : list PlayerOp) (p : Player.t) : Prop :=
  match ops with
  | [] => True
  | op :: rest =>
      match op with
      | OpTakeDamage => (0 < Player.health p)%Z
      | OpHeal amount => (0 <= amount)%Z
      | _ => True
      end /\
      match run_op tile_map op p with
      | Ok p' => disciplined tile_map rest p'
      | Raise _ => True
      end
  end.

(** One hit followed by 120 idle ticks, four times over. *)
Definition hit_and_wait : list PlayerOp :=
  OpTakeDamage :: repeat (OpUpdate no_keys) 120.

Definition four_hits : list PlayerOp :=
  hit_and_wait ++ hit_and_wait ++ hit_and_wait ++ hit_and_wait.

(** A sequence of [add_powerup] calls. *)
Definition add_powerups (calls : list (PowerUpType * Z)) (p : Player.t) : Player.t :=
  fold_left (fun q c => Player.add_powerup (fst c) (snd c) q) calls p.

(** The ghost notices the player: within the detection radius and the
    player's invisibility flag is down. *)
Definition detects (player : Player.t) (g : Ghost.t) : Prop :=
  (sqrt ((Ghost.x g - Player.x player) ^ 2 + (Ghost.y g - Player.y player) ^ 2)
   <= GHOST_DETECTION_RADIUS)%R /\
  Player.invisibility_active player = false.

(** The waypoint index points into the route. *)
Definition route_ok (g : Ghost.t) : Prop :=
  (0 <= Ghost.current_patrol_target g
   < Z.of_nat (length (Ghost.patrol_points g)))%Z.

(** The ghost states a game can reach: built by the constructor, then
    updated tick after tick against some player and a well-shaped map,
    or written to from outside the way the game does it: the
    ghost-freeze effect stops a ghost, the cemetery gives its boss a
    radius of its own. *)
Inductive GhostReachable : Ghost.t -> Prop :=
| reach_init (x0 y0 : R) (points : option (list (R * R))) :
    GhostReachable (Ghost.init x0 y0 points)
| reach_update (g g' : Ghost.t) (player : Player.t) (tile_map : TileMap.t) (b : bool) :
    GhostReachable g -> TileMap.wf tile_map ->
    Ghost.update player tile_map g = Ok (g', b) ->
    GhostReachable g'
| reach_freeze (g : Ghost.t) :
    GhostReachable g -> GhostReachable (Ghost.set_velocity 0 0 g)
| reach_set_radius (g : Ghost.t) (r : R) :
    GhostReachable g -> GhostReachable (Ghost.set_radius r g).

(** The factor [update] applies to a ghost's speed for the player it is
    given. *)
Definition time_slow_factor (player : Player.t) : R :=
  if Player.time_slow_active player then 2 / 5 else 1.

(** The calls a client can make on a church puzzle. *)
Inductive PuzzleOp : Type :=
| OpInteract (player : Player.t)
| OpHandleInput (keys_pressed : Keys) (space_pressed : bool).

Definition run_puzzle_op (op : PuzzleOp) (st : ChurchPuzzle.t * Random.t)
  : Result (ChurchPuzzle.t * Random.t) :=
  let '(puzzle, g) := st in
  match op with
  | OpInteract player => Ok (fst (ChurchPuzzle.interact player puzzle), g)
  | OpHandleInput keys_pressed space_pressed =>
      '(puzzle', _, g') <- ChurchPuzzle.handle_input keys_pressed space_pressed g puzzle ;;
      Ok (puzzle', g')
  end.

Fixpoint run_puzzle_ops (ops : list PuzzleOp) (st : ChurchPuzzle.t * Random.t)
  : Result (ChurchPuzzle.t * Random.t) :=
  match ops with
  | [] => Ok st
  | op :: rest => st' <- run_puzzle_op op st ;; run_puzzle_ops rest st'
  end.

(** The selection cursor points at one of the symbols. *)
Definition cursor_ok (puzzle : ChurchPuzzle.t) : Prop :=
  (0 <= ChurchPuzzle.selected_symbol puzzle
   < Z.of_nat (length (ChurchPuzzle.current_order puzzle)))%Z.


(** A player one tick after picking up a TimeSlow power-up, and a ghost
    on its way to a waypoint twenty pixels to its right, far from that
    player. *)
Definition slowed_player : Player.t :=
  Player.mk 800 100 0 0 3 0 0 0 12 0 [mkPowerUp TIME_SLOW 479 1]
            false true false false 800 100.

Definition patrol_ghost : Ghost.t :=
  Ghost.init 100 100 (Some [(120%R, 100%R)]).

(** The A key alone. *)
Definition left_key : Keys :=
  mkKeys true false false false false false false false.

(** A generator whose every draw is 0. *)
Definition zero_draws : Random.t :=
  Random.mk (fun _ => 0%R) (fun _ => 0%nat).

(** Three active puzzles with the cursor on the second symbol: one
    whose order is the target, one whose first two symbols are
    exchanged, one in the order of the symbol list. *)
Definition aligned_puzzle : ChurchPuzzle.t :=
  ChurchPuzzle.mk 0 0 true false ["cross"; "candle"; "bible"; "angel"]%string
                  ["angel"; "bible"; "candle"; "cross"]%string
                  ["angel"; "bible"; "candle"; "cross"]%string 1.

Definition one_off_puzzle : ChurchPuzzle.t :=
  ChurchPuzzle.mk 0 0 true false ["cross"; "candle"; "bible"; "angel"]%string
                  ["bible"; "angel"; "candle"; "cross"]%string
                  ["angel"; "bible"; "candle"; "cross"]%string 1.

Definition unsorted_puzzle : ChurchPuzzle.t :=
  ChurchPuzzle.mk 0 0 true false ["cross"; "candle"; "bible"; "angel"]%string
                  ["cross"; "candle"; "bible"; "angel"]%string
                  ["angel"; "bible"; "candle"; "cross"]%string 1.

(** The D key alone. *)
Definition right_key : Keys :=
  mkKeys false false true false false false false false.

(** A player running to the right at the boosted top speed on the tick
    its SpeedBoost entry has counted down to 0: the entry is still in
    the list, the next [update] removes it. *)
Definition boost_running_out : Player.t :=
  Player.mk 100 100 (9 / 2) 0 3 0 0 0 12 0 [mkPowerUp SPEED_BOOST 0 1]
            false false false false 100 100.

(** A player running to the right at the plain top speed. *)
Definition runner : Player.t :=
  Player.mk 100 100 3 0 3 0 0 0 12 0 [] false false false false 100 100.

(** The boss of the cemetery as [_place_cemetery_entities] builds it: in
    the middle of the map, on the first point of its route, its radius
    set to 12 after construction. *)
Definition cemetery_boss : Ghost.t :=
  Ghost.set_radius 12
    (Ghost.init 480 320
       (Some [(480, 320); (580, 320); (480, 420); (380, 320)]%R)).

(** A ghost a hundred pixels from the only point of its route. *)
Definition distant_ghost : Ghost.t :=
  Ghost.init 200 200 (Some [(300%R, 200%R)]).


(** * More of the simulation *)

Definition RED : Z * Z * Z := (255, 0, 0)%Z.
Definition GREEN : Z * Z * Z := (0, 255, 0)%Z.
Definition ORANGE : Z * Z * Z := (255, 165, 0)%Z.
Definition BROWN : Z * Z * Z := (139, 69, 19)%Z.
Definition MAP_WIDTH : Z := 30.
Definition MAP_HEIGHT : Z := 20.

(** [Particle.update]: one step of drift with a little friction. *)
Definition Particle_update (p : Particle) : Particle :=
  mkParticle (particle_x p + particle_vx p) (particle_y p + particle_vy p)
             (particle_vx p * (49 / 50)) (particle_vy p * (49 / 50))
             (particle_color p) (particle_lifetime p - 1).


(** ** [class CemeteryDigging] *)
Module CemeteryDigging.

Record t : Type := mk {
  x : R;
  y : R;
  active : bool;
  completed : bool;
  dig_progress : Z;
  required_digs : Z;
  dig_timer : Z;
  dig_cooldown : Z;
  dirt_particles : list Particle
}.

(** [CemeteryDigging(x, y)] *)
Definition init (x0 y0 : R) : t :=
  mk x0 y0 false false 0 5 0 30 [].

Definition interact (player : Player.t) (self : t) : t * (bool * string * list Particle) :=
  let distance :=
    sqrt ((Player.x player - x self) ^ 2 + (Player.y player - y self) ^ 2) in
  if Rlt_dec 30 distance then
    (self, (false, "Find a good spot to dig!"%string, []))
  else if completed self then
    (self, (false, "Already dug up treasure here!"%string, []))
  else if negb (active self) then
    (mk (x self) (y self) true (completed self) (dig_progress self)
        (required_digs self) (dig_timer self) (dig_cooldown self)
        (dirt_particles self),
     (true,
      ("Dig here! Press SPACE rapidly ("
         ++ NilZero.string_of_int (Z.to_int (required_digs self))
         ++ " times)")%string, []))
  else (self, (false, ""%string, [])).

(** The spray of dirt of one dig. *)
Fixpoint dirt_spray (n : nat) (px py : R) (acc : list Particle) (g : Random.t)
  : list Particle * Random.t :=
  match n with
  | O => (acc, g)
  | S n' =>
      let '(angle, g1) := Random.uniform (- PI / 4) (PI / 4) g in
      let '(speed, g2) := Random.uniform 3 6 g1 in
      let pvx := (cos angle * speed)%R in
      let pvy := (sin angle * speed - 2)%R in
      dirt_spray n' px py (acc ++ [mkParticle px (py - 10) pvx pvy BROWN 45]) g2
  end.

(** The sparkle of the treasure on the last dig. *)
Fixpoint treasure_particles (n : nat) (px py : R) (acc : list Particle) (g : Random.t)
  : list Particle * Random.t :=
  match n with
  | O => (acc, g)
  | S n' =>
      let '(angle, g1) := Random.uniform 0 (2 * PI) g in
      let '(speed, g2) := Random.uniform 2 4 g1 in
      let pvx := (cos angle * speed)%R in
      let pvy := (sin angle * speed)%R in
      let '(color, g3) := Random.choice YELLOW [YELLOW; ORANGE; GREEN] g2 in
      treasure_particles n' px py (acc ++ [mkParticle px py pvx pvy color 60]) g3
  end.

(** [dig()]: the site, the pair [(completed, particles)] and the
    generator. *)
Definition dig (g : Random.t) (self : t) : t * (bool * list Particle) * Random.t :=
  if negb (active self) || completed self || (0 <? dig_timer self)%Z then
    (self, (false, []), g)
  else
    let progress := (dig_progress self + 1)%Z in
    let timer := dig_cooldown self in
    let '(particles, g1) := dirt_spray 5 (x self) (y self) [] g in
    if (required_digs self <=? progress)%Z then
      let '(particles', g2) := treasure_particles 15 (x self) (y self) particles g1 in
      (mk (x self) (y self) false true progress (required_digs self) timer
          (dig_cooldown self) (dirt_particles self),
       (true, particles'), g2)
    else
      (mk (x self) (y self) (active self) (completed self) progress
          (required_digs self) timer (dig_cooldown self) (dirt_particles self),
       (false, particles), g1).

Definition update (self : t) : t :=
  let timer :=
    if (0 <? dig_timer self)%Z then (dig_timer self - 1)%Z else dig_timer self in
  mk (x self) (y self) (active self) (completed self) (dig_progress self)
     (required_digs self) timer (dig_cooldown self)
     (map Particle_update
          (filter (fun p => (0 <? particle_lifetime p)%Z) (dirt_particles self))).

End CemeteryDigging.

(** ** [class JackOLanternTrap] *)
Module JackOLanternTrap.

Record t : Type := mk {
  x : R;
  y : R;
  triggered : bool;
  explosion_timer : Z;
  explosion_duration : Z;
  trigger_radius : R;
  damage_radius : R;
  glow_timer : Z;
  explosion_particles : list Particle
}.

(** [JackOLanternTrap(x, y)] *)
Definition init (x0 y0 : R) : t :=
  mk x0 y0 false 0 30 40 60 0 [].

Fixpoint blast_particles (n : nat) (px py : R) (acc : list Particle) (g : Random.t)
  : list Particle * Random.t :=
  match n with
  | O => (acc, g)
  | S n' =>
      let '(angle, g1) := Random.uniform 0 (2 * PI) g in
      let '(speed, g2) := Random.uniform 4 8 g1 in
      let pvx := (cos angle * speed)%R in
      let pvy := (sin angle * speed)%R in
      let '(color, g3) := Random.choice RED [RED; ORANGE; YELLOW] g2 in
      blast_particles n' px py (acc ++ [mkParticle px py pvx pvy color 40]) g3
  end.

(** [update(player)]: the trap, the player it may have hurt, the pair
    [(exploded, particles)] and the generator. *)
Definition update (player : Player.t) (g : Random.t) (self : t)
  : t * Player.t * (bool * list Particle) * Random.t :=
  let glow := (glow_timer self + 1)%Z in
  let distance :=
    sqrt ((Player.x player - x self) ^ 2 + (Player.y player - y self) ^ 2) in
  if triggered self then
    let timer := (explosion_timer self + 1)%Z in
    let self' :=
      mk (x self) (y self) (triggered self) timer (explosion_duration self)
         (trigger_radius self) (damage_radius self) glow
         (explosion_particles self) in
    if (explosion_duration self <=? timer)%Z then
      let player' :=
        if Rle_dec distance (damage_radius self)
        then fst (Player.take_damage player) else player in
      let '(particles, g') := blast_particles 25 (x self) (y self) [] g in
      (self', player', (true, particles), g')
    else (self', player, (false, []), g)
  else
    let self' :=
      mk (x self) (y self)
         (if Rle_dec distance (trigger_radius self) then true else triggered self)
         (explosion_timer self) (explosion_duration self)
         (trigger_radius self) (damage_radius self) glow
         (explosion_particles self) in
    (self', player, (false, []), g).

End JackOLanternTrap.

(** ** [class SpecialCandy] *)
Module SpecialCandy.

Record t : Type := mk {
  x : R;
  y : R;
  type : string;
  points : Z;
  lifetime : Z;
  max_lifetime : Z;
  collected : bool;
  glow_timer : Z;
  radius : R
}.

(** [SpecialCandy(x, y, candy_type, points, lifetime)] *)
Definition init (x0 y0 : R) (candy_type : string) (pts life : Z) : t :=
  mk x0 y0 candy_type pts life life false 0 8.

Definition update (self : t) : t :=
  mk (x self) (y self) (type self) (points self) (lifetime self - 1)
     (max_lifetime self) (collected self) (glow_timer self + 1) (radius self).

Definition is_expired (self : t) : bool := (lifetime self <=? 0)%Z.

Fixpoint sparkle_particles (n : nat) (px py : R) (acc : list Particle) (g : Random.t)
  : list Particle * Random.t :=
  match n with
  | O => (acc, g)
  | S n' =>
      let '(angle, g1) := Random.uniform 0 (2 * PI) g in
      let '(speed, g2) := Random.uniform 2 4 g1 in
      let pvx := (cos angle * speed)%R in
      let pvy := (sin angle * speed)%R in
      let '(color, g3) := Random.choice YELLOW [YELLOW; WHITE; BLUE] g2 in
      sparkle_particles n' px py (acc ++ [mkParticle px py pvx pvy color 45]) g3
  end.

Definition collect (player : Player.t) (g : Random.t) (self : t)
  : t * Player.t * list Particle * Random.t :=
  if negb (collected self) && (0 <? lifetime self)%Z then
    let self' :=
      mk (x self) (y self) (type self) (points self) (lifetime self)
         (max_lifetime self) true (glow_timer self) (radius self) in
    let player' := Player.collect_candy (points self) player in
    let '(particles, g') := sparkle_particles 12 (x self) (y self) [] g in
    (self', player', particles, g')
  else (self, player, [], g).

End SpecialCandy.


(** ** Strings as the rewards use them *)

(** [c.lower()] on an ASCII character *)
Definition lower_ascii (c : Ascii.ascii) : Ascii.ascii :=
  let n := Ascii.nat_of_ascii c in
  if (65 <=? n)%nat && (n <=? 90)%nat then Ascii.ascii_of_nat (n + 32) else c.

(** [s.lower()] on an ASCII string *)
Fixpoint lower (s : string) : string :=
  match s with
  | EmptyString => EmptyString
  | String c rest => String (lower_ascii c) (lower rest)
  end.

(** [needle in hay] *)
Fixpoint contains (needle hay : string) : bool :=
  prefix needle hay ||
  match hay with
  | EmptyString => false
  | String _ rest => contains needle rest
  end.

(** ** [class EasterEgg] *)
Module EasterEgg.

Record t : Type := mk {
  x : R;
  y : R;
  type : string;
  reward : string;
  activated : bool;
  interaction_radius : R;
  visible : bool;
  glow_timer : Z
}.

(** [EasterEgg(x, y, egg_type, reward)]: a secret egg starts hidden. *)
Definition init (x0 y0 : R) (egg_type reward0 : string) : t :=
  mk x0 y0 egg_type reward0 false 20 (negb (String.eqb egg_type "secret")) 0.

Definition update (self : t) : t :=
  mk (x self) (y self) (type self) (reward self) (activated self)
     (interaction_radius self) (visible self) (glow_timer self + 1).

(** The [if]/[elif] chain over the reward text. *)
Definition apply_reward (reward0 : string) (player : Player.t) : Player.t :=
  let r := lower reward0 in
  if contains "health" r then Player.heal 1 player
  else if contains "magnet" r then Player.add_powerup CANDY_MAGNET 600 player
  else if contains "repel" r then Player.add_powerup GHOST_REPEL 900 player
  else if contains "speed" r then Player.add_powerup SPEED_BOOST 420 player
  else if contains "invisibility" r then Player.add_powerup INVISIBILITY 720 player
  else if contains "time slow" r then Player.add_powerup TIME_SLOW 480 player
  else if contains "double points" r then Player.add_powerup DOUBLE_POINTS 600 player
  else if contains "shield" r then Player.add_powerup SHIELD 900 player
  else if contains "points" r then Player.add_score 25 player
  else player.

Fixpoint celebration_particles (n : nat) (px py : R) (acc : list Particle) (g : Random.t)
  : list Particle * Random.t :=
  match n with
  | O => (acc, g)
  | S n' =>
      let '(angle, g1) := Random.uniform 0 (2 * PI) g in
      let '(speed, g2) := Random.uniform 2 5 g1 in
      let pvx := (cos angle * speed)%R in
      let pvy := (sin angle * speed)%R in
      let '(color, g3) := Random.choice YELLOW [YELLOW; ORANGE; RED; GREEN] g2 in
      celebration_particles n' px py (acc ++ [mkParticle px py pvx pvy color 60]) g3
  end.

(** [interact(player)]: the egg, the player it rewards, the triple
    [(success, message, particles)] and the generator. *)
Definition interact (player : Player.t) (g : Random.t) (self : t)
  : t * Player.t * (bool * string * list Particle) * Random.t :=
  if activated self then
    (self, player, (false, "Already found!"%string, []), g)
  else
    let distance :=
      sqrt ((x self - Player.x player) ^ 2 + (y self - Player.y player) ^ 2) in
    if Rlt_dec (interaction_radius self) distance then
      (self, player, (false, "Get closer!"%string, []), g)
    else
      let self' :=
        mk (x self) (y self) (type self) (reward self) true
           (interaction_radius self) true (glow_timer self) in
      let message := ("Found Easter egg: " ++ reward self ++ "!")%string in
      let player' := apply_reward (reward self) player in
      let '(particles, g') := celebration_particles 15 (x self) (y self) [] g in
      (self', player', (true, message, particles), g').

End EasterEgg.

(** ** Structures of [class Level] *)


Module Level.




(** The entities of a level that its [update] works on. *)
Record t : Type := mk {
  tile_map : TileMap.t;
  candies : list Candy.t;
  ghosts : list Ghost.t;
  easter_eggs : list EasterEgg.t
}.

(** [Candy.update]: the glow animation moves on. *)
Definition candy_update (c : Candy.t) : Candy.t :=
  Candy.mk (Candy.x c) (Candy.y c) (Candy.type c) (Candy.points c)
           (Candy.collected c) (Candy.radius c) (Candy.glow_timer c + 1).

(** The ghost loop of [update]: the ghosts after their updates and the
    chase events, the ghosts that started chasing. *)
Fixpoint update_ghosts (player : Player.t) (tm : TileMap.t) (l : list Ghost.t)
  : Result (list Ghost.t * list Ghost.t) :=
  match l with
  | [] => Ok ([], [])
  | ghost :: rest =>
      '(ghost', started_chasing) <- Ghost.update player tm ghost ;;
      '(rest', chase_events) <- update_ghosts player tm rest ;;
      Ok (ghost' :: rest',
          if started_chasing then ghost' :: chase_events else chase_events)
  end.

(** [update(player)]: the level after the tick and the chase events. *)
Definition update (player : Player.t) (self : t) : Result (t * list Ghost.t) :=
  '(ghosts', chase_events) <- update_ghosts player (tile_map self) (ghosts self) ;;
  Ok (mk (tile_map self) (map candy_update (candies self)) ghosts'
         (map EasterEgg.update (easter_eggs self)),
      chase_events).

End Level.

(** ** Collisions and traps in the game loop *)

Inductive GameState : Type :=
| MAIN_MENU | TUTORIAL | PLAYING | PAUSED | GAME_OVER
| LEVEL_COMPLETE | VICTORY | SETTINGS | CEMETERY.

(** [player.rect.colliderect(ghost.rect)]: the player's rectangle is 24
    wide and high, a ghost's 20, both placed by their centres. *)
Definition colliderect (player : Player.t) (ghost : Ghost.t) : bool :=
  let pl := (Player.rect_centerx player - 12)%Z in
  let pt := (Player.rect_centery player - 12)%Z in
  let gl := (Ghost.rect_centerx ghost - 10)%Z in
  let gt := (Ghost.rect_centery ghost - 10)%Z in
  (pl <? gl + 20)%Z && (gl <? pl + 24)%Z && (pt <? gt + 20)%Z && (gt <? pt + 24)%Z.

(** [GameManager._check_collisions]: the player and the game state after
    the loop over the level's ghosts (sound and screen shake left out). *)
Fixpoint _check_collisions (ghosts : list Ghost.t) (player : Player.t)
  (current_state : GameState) : Player.t * GameState :=
  match ghosts with
  | [] => (player, current_state)
  | ghost :: rest =>
      if colliderect player ghost then
        let has_repel := has_powerup GHOST_REPEL (Player.active_powerups player) in
        if negb has_repel then
          let '(player', hit) := Player.take_damage player in
          if hit then
            if (Player.health player' <=? 0)%Z
            then _check_collisions rest player' GAME_OVER
            else _check_collisions rest player' current_state
          else _check_collisions rest player' current_state
        else _check_collisions rest player current_state
      else _check_collisions rest player current_state
  end.

(** The trap loop of [SpecialFeaturesManager.update]: every trap is
    updated in turn against the same player object; a trap that
    exploded is removed from the list. *)
Fixpoint update_traps (traps : list JackOLanternTrap.t) (player : Player.t)
  (particles : list Particle) (g : Random.t)
  : list JackOLanternTrap.t * Player.t * list Particle * Random.t :=
  match traps with
  | [] => ([], player, particles, g)
  | trap :: rest =>
      let '(trap', player', (exploded, explosion_particles), g') :=
        JackOLanternTrap.update player g trap in
      let '(rest', player'', particles', g'') :=
        update_traps rest player' (particles ++ explosion_particles) g' in
      (if exploded then rest' else trap' :: rest', player'', particles', g'')
  end.

(** A trap updated tick after tick against the players of those ticks:
    the player of each tick is handed in, the trap and what it did to
    that player come out. *)
Fixpoint trap_ticks (players : list Player.t) (g : Random.t) (trap : JackOLanternTrap.t)
  : JackOLanternTrap.t * list (Player.t * bool) * Random.t :=
  match players with
  | [] => (trap, [], g)
  | player :: rest =>
      let '(trap', player', (exploded, _), g') := JackOLanternTrap.update player g trap in
      let '(trap'', log, g'') := trap_ticks rest g' trap' in
      (trap'', (player', exploded) :: log, g'')
  end.

(** An egg tried by one player after the other: what each call made of
    its player and whether it succeeded. *)
Fixpoint egg_calls (players : list Player.t) (g : Random.t) (egg : EasterEgg.t)
  : EasterEgg.t * list (Player.t * bool) * Random.t :=
  match players with
  | [] => (egg, [], g)
  | player :: rest =>
      let '(egg', player', (success, _, _), g') := EasterEgg.interact player g egg in
      let '(egg'', log, g'') := egg_calls rest g' egg' in
      (egg'', (player', success) :: log, g'')
  end.

(** ** Camera, particles and high scores *)

Definition SCREEN_WIDTH : Z := 800.
Definition SCREEN_HEIGHT : Z := 600.

(** [class Camera] of [halloween_haunt.py] *)
Module Camera.

Record t : Type := mk {
  x : R;
  y : R;
  target_x : R;
  target_y : R;
  smoothing : R
}.

(** [Camera()] *)
Definition init : t := mk 0 0 0 0 (1 / 10).

(** [update(target_x, target_y)]: the target is centred on the screen,
    kept within the map, and approached by the smoothing factor. *)
Definition update (target_x0 target_y0 : R) (self : t) : t :=
  let tx := (target_x0 - IZR (SCREEN_WIDTH / 2))%R in
  let ty := (target_y0 - IZR (SCREEN_HEIGHT / 2))%R in
  let max_x := (IZR MAP_WIDTH * TILE_SIZE - IZR SCREEN_WIDTH)%R in
  let max_y := (IZR MAP_HEIGHT * TILE_SIZE - IZR SCREEN_HEIGHT)%R in
  let tx' := Rmax 0 (Rmin max_x tx) in
  let ty' := Rmax 0 (Rmin max_y ty) in
  mk (x self + (tx' - x self) * smoothing self)%R
     (y self + (ty' - y self) * smoothing self)%R
     tx' ty' (smoothing self).

End Camera.

(** The camera shows nothing beyond the map. *)
Definition camera_on_map (c : Camera.t) : Prop :=
  (0 <= Camera.x c <= 160 /\ 0 <= Camera.y c <= 40 /\ Camera.smoothing c = 1 / 10)%R.

(** [GameManager._update_particles]: the particles whose lifetime has
    run out are dropped, the others updated. *)
Definition _update_particles (particles : list Particle) : list Particle :=
  map Particle_update
      (filter (fun p => (0 <? particle_lifetime p)%Z) particles).

(** A particle [n] updates later, in closed form. *)
Definition particle_after (n : nat) (p : Particle) : Particle :=
  mkParticle (particle_x p + 50 * particle_vx p * (1 - (49 / 50) ^ n))%R
             (particle_y p + 50 * particle_vy p * (1 - (49 / 50) ^ n))%R
             (particle_vx p * (49 / 50) ^ n)%R
             (particle_vy p * (49 / 50) ^ n)%R
             (particle_color p) (particle_lifetime p - Z.of_nat n).

(** [class SaveManager] of [halloween_haunt.py], the high-score table. *)
Module SaveManager.

(** An entry [{"name": ..., "score": ...}] of the high-score file. *)
Definition Entry : Type := (string * Z)%type.

(** [scores.sort(key=lambda x: x["score"], reverse=True)].  Python's
    sort is stable, also in reverse: entries of equal score keep their
    order.  Insertion from the right, each entry going in front of the
    first one that does not beat it, is that sort. *)
Fixpoint insert_desc (e : Entry) (l : list Entry) : list Entry :=
  match l with
  | [] => [e]
  | a :: rest =>
      if (snd a <=? snd e)%Z then e :: a :: rest else a :: insert_desc e rest
  end.

Definition sort_desc (l : list Entry) : list Entry :=
  fold_right insert_desc [] l.

(** [save_high_score(name, score)], from the list [load_high_scores]
    returned to the list handed to [json.dump]. *)
Definition save_high_score (name : string) (score : Z) (file : list Entry)
  : list Entry :=
  let scores := file ++ [(name, score)] in
  let scores := sort_desc scores in
  firstn 5 scores.

End SaveManager.

(** The test of [GameManager._game_over]:
    [len(high_scores) < 5 or score > high_scores[-1]["score"]]. *)
Definition is_high_score (score : Z) (high_scores : list SaveManager.Entry)
  : Result bool :=
  if (Z.of_nat (length high_scores) <? 5)%Z then Ok true
  else last <- py_get high_scores (-1) ;; Ok (snd last <? score)%Z.

(** Entries from the best score down. *)
Definition by_score_down (a b : SaveManager.Entry) : Prop := (snd b <= snd a)%Z.

(** The calls a client can make on a digging site. *)
Inductive DigOp : Type :=
| DigInteract (player : Player.t)
| DigDig
| DigUpdate.

Definition run_dig_op (op : DigOp) (st : CemeteryDigging.t * Random.t)
  : CemeteryDigging.t * Random.t :=
  let '(site, g) := st in
  match op with
  | DigInteract player => (fst (CemeteryDigging.interact player site), g)
  | DigDig =>
      let '(site', _, g') := CemeteryDigging.dig g site in (site', g')
  | DigUpdate => (CemeteryDigging.update site, g)
  end.

Definition run_dig_ops (ops : list DigOp) (st : CemeteryDigging.t * Random.t)
  : CemeteryDigging.t * Random.t :=
  fold_left (fun s op => run_dig_op op s) ops st.

(** The ticks of a run. *)
Definition is_dig_update (op : DigOp) : bool :=
  match op with
  | DigUpdate => true
  | _ => false
  end.

(** The calls a client can make on a special candy, the player and the
    generator threaded through. *)
Inductive SpecialCandyOp : Type :=
| ScUpdate
| ScCollect.

Definition run_special_candy_op (op : SpecialCandyOp)
  (st : SpecialCandy.t * Player.t * Random.t) : SpecialCandy.t * Player.t * Random.t :=
  let '(candy, player, g) := st in
  match op with
  | ScUpdate => (SpecialCandy.update candy, player, g)
  | ScCollect =>
      let '(candy', player', _, g') := SpecialCandy.collect player g candy in
      (candy', player', g')
  end.

Definition run_special_candy_ops (ops : list SpecialCandyOp)
  (st : SpecialCandy.t * Player.t * Random.t) : SpecialCandy.t * Player.t * Random.t :=
  fold_left (fun s op => run_special_candy_op op s) ops st.

(** A run of ghost updates, one player per tick, on one map. *)
Fixpoint ghost_ticks (players : list Player.t) (tile_map : TileMap.t) (g : Ghost.t)
  : Result (Ghost.t * list GhostState) :=
  match players with
  | [] => Ok (g, [])
  | player :: rest =>
      '(g', _) <- Ghost.update player tile_map g ;;
      '(g'', states) <- ghost_ticks rest tile_map g' ;;
      Ok (g'', Ghost.state g' :: states)
  end.

(** A power-up entry after [n] more ticks. *)
Definition aged (n : Z) (q : PowerUp) : PowerUp :=
  mkPowerUp (type q) (duration q - n) (strength q).

(** * Properties *)

(** ** Subscripts *)
Section Subscripts.

Context {A : Type}.

Lemma py_index_in_range (l : list A) (i : Z) :
  (0 <= i < Z.of_nat (length l))%Z -> py_index l i = Ok (Z.to_nat i).
Proof.
  intros [H0 H1]. unfold py_index.
  apply Z.leb_le in H0. apply Z.ltb_lt in H1.
  now rewrite H0, H1.
Qed.

Lemma py_get_in_range (l : list A) (i : Z) :
  (0 <= i < Z.of_nat (length l))%Z ->
  exists a, py_get l i = Ok a /\ nth_error l (Z.to_nat i) = Some a.
Proof.
  intros H. unfold py_get. rewrite (py_index_in_range l H). simpl.
  destruct (nth_error l (Z.to_nat i)) as [a|] eqn:E.
  - now exists a.
  - apply nth_error_None in E. lia.
Qed.

Lemma py_set_in_range (l : list A) (i : Z) (v : A) :
  (0 <= i < Z.of_nat (length l))%Z ->
  py_set l i v = Ok (list_set l (Z.to_nat i) v).
Proof.
  intros H. unfold py_set. now rewrite (py_index_in_range l H).
Qed.

Lemma list_set_length (l : list A) (k : nat) (v : A) :
  length (list_set l k v) = length l.
Proof.
  revert k. induction l as [|h t IH]; intros [|k]; simpl; auto.
Qed.

Lemma list_set_Forall (P : A -> Prop) (l : list A) (k : nat) (v : A) :
  Forall P l -> P v -> Forall P (list_set l k v).
Proof.
  intros Hl Hv. revert k.
  induction Hl as [|h t Hh Ht IH]; intros [|k]; simpl; auto.
Qed.

End Subscripts.

(** ** The tile map *)
Section TileMapFacts.

Import TileMap.

Lemma in_bounds_true (tm : t) (x y : Z) :
  in_bounds tm x y = true <->
  ((0 <= x < width tm) /\ (0 <= y < height tm))%Z.
Proof.
  unfold in_bounds.
  rewrite !andb_true_iff, !Z.leb_le, !Z.ltb_lt. tauto.
Qed.

Lemma in_bounds_false (tm : t) (x y : Z) :
  ~ ((0 <= x < width tm) /\ (0 <= y < height tm))%Z ->
  in_bounds tm x y = false.
Proof.
  intros H. destruct (in_bounds tm x y) eqn:E; auto.
  apply in_bounds_true in E. contradiction.
Qed.

Lemma init_wf (w h : Z) : wf (init w h).
Proof.
  split; simpl.
  - apply repeat_length.
  - apply Forall_forall. intros row Hin.
    apply repeat_spec in Hin. subst row. apply repeat_length.
Qed.

(** Inside the grid the row and the cell exist. *)
Lemma wf_row (tm : t) (x y : Z) :
  wf tm -> in_bounds tm x y = true ->
  exists row, py_get (tiles tm) y = Ok row /\
              (0 <= x < Z.of_nat (length row))%Z /\
              (0 <= y < Z.of_nat (length (tiles tm)))%Z.
Proof.
  intros [Hh Hw] Hb. apply in_bounds_true in Hb. destruct Hb as [Hx Hy].
  assert (Hy' : (0 <= y < Z.of_nat (length (tiles tm)))%Z) by lia.
  destruct (py_get_in_range (tiles tm) Hy') as [row [Hget Hnth]].
  exists row. split; [exact Hget|]. split; [|exact Hy'].
  apply nth_error_In in Hnth.
  rewrite Forall_forall in Hw. rewrite (Hw row Hnth). lia.
Qed.

Lemma get_tile_total (tm : t) (x y : Z) :
  wf tm -> exists tile, get_tile tm x y = Ok tile.
Proof.
  intros Hwf. unfold get_tile.
  destruct (in_bounds tm x y) eqn:Hb.
  - destruct (wf_row x y Hwf Hb) as [row [Hget [Hx _]]].
    rewrite Hget. simpl.
    destruct (py_get_in_range row Hx) as [tile [Ht _]]. now exists tile.
  - now exists WALL.
Qed.

Lemma is_solid_tile_total (tm : t) (x y : Z) :
  wf tm -> exists b, is_solid_tile tm x y = Ok b.
Proof.
  intros Hwf. unfold is_solid_tile.
  destruct (get_tile_total x y Hwf) as [tile Ht]. rewrite Ht. simpl.
  now eexists.
Qed.

Lemma set_tile_total (tm : t) (x y : Z) (kind : TileType) :
  wf tm -> exists tm', set_tile tm x y kind = Ok tm' /\ wf tm'.
Proof.
  intros Hwf. unfold set_tile.
  destruct (in_bounds tm x y) eqn:Hb.
  - destruct (wf_row x y Hwf Hb) as [row [Hget [Hx Hy]]].
    rewrite Hget. simpl.
    rewrite (py_set_in_range row kind Hx). simpl.
    rewrite (py_set_in_range (tiles tm) _ Hy). simpl.
    eexists. split; [reflexivity|].
    destruct Hwf as [Hh Hw]. split; simpl.
    + now rewrite list_set_length.
    + apply list_set_Forall; [exact Hw|].
      rewrite list_set_length.
      unfold py_get in Hget. rewrite (py_index_in_range (tiles tm) Hy) in Hget.
      simpl in Hget.
      destruct (nth_error (tiles tm) (Z.to_nat y)) as [r|] eqn:E; [|discriminate].
      injection Hget as ->. apply nth_error_In in E.
      rewrite Forall_forall in Hw. now apply Hw.
  - now exists tm.
Qed.

(** C2.  In a tile map of the shape its constructor builds, [get_tile],
    [is_solid_tile] and [set_tile] return normally on every pair of
    integers; at coordinates outside [0,width) x [0,height) the lookup
    answers [WALL], the solidity test answers true, and [set_tile]
    returns the map unchanged. *)
Theorem tile_map_out_of_bounds (tm : t) (x y : Z) (kind : TileType) :
  wf tm ->
  (exists tile, get_tile tm x y = Ok tile) /\
  (exists b, is_solid_tile tm x y = Ok b) /\
  (exists tm', set_tile tm x y kind = Ok tm' /\ wf tm') /\
  (~ ((0 <= x < width tm) /\ (0 <= y < height tm))%Z ->
   get_tile tm x y = Ok WALL /\
   is_solid_tile tm x y = Ok true /\
   set_tile tm x y kind = Ok tm).
Proof.
  intros Hwf.
  split; [now apply get_tile_total|].
  split; [now apply is_solid_tile_total|].
  split; [now apply set_tile_total|].
  intros Hout. apply in_bounds_false in Hout.
  unfold is_solid_tile, get_tile, set_tile. rewrite Hout. simpl. auto.
Qed.

Lemma tile_map_out_of_bounds_witness :
  wf (init 30 20) /\
  get_tile (init 30 20) (-1) 5 = Ok WALL /\
  is_solid_tile (init 30 20) 30 (-7) = Ok true /\
  set_tile (init 30 20) 4 20 HOUSE = Ok (init 30 20).
Proof.
  split; [apply init_wf|].
  split; [|split].
  - apply (tile_map_out_of_bounds (-1) 5 EMPTY (init_wf 30 20)). simpl. lia.
  - apply (tile_map_out_of_bounds 30 (-7) EMPTY (init_wf 30 20)). simpl. lia.
  - apply (tile_map_out_of_bounds 4 20 HOUSE (init_wf 30 20)). simpl. lia.
Defined.

(** Inside the grid a written tile is read back. *)
Example set_then_get :
  (m <- set_tile (init 30 20) 3 4 HOUSE ;; get_tile m 3 4) = Ok HOUSE /\
  (m <- set_tile (init 30 20) 3 4 HOUSE ;; is_solid_tile m 3 4) = Ok true /\
  is_solid_tile (init 30 20) 3 4 = Ok false.
Proof. repeat split; reflexivity. Qed.

End TileMapFacts.

(** ** Real arithmetic behind the velocity computations *)
Section Velocity.

Local Open Scope R_scope.

Lemma sum_squares_nonneg (a b : R) : 0 <= a ^ 2 + b ^ 2.
Proof. nra. Qed.

Lemma magnitude_nonneg (a b : R) : 0 <= magnitude a b.
Proof. apply sqrt_pos. Qed.

Lemma magnitude_sqr (a b : R) : magnitude a b * magnitude a b = a ^ 2 + b ^ 2.
Proof. apply sqrt_def, sum_squares_nonneg. Qed.

(** Scaling a vector to length [s]: [(a / d) * s, (b / d) * s] with
    [d] the length of [(a, b)]. *)
Lemma magnitude_rescaled (a b s : R) :
  0 < magnitude a b -> 0 <= s ->
  magnitude (a / magnitude a b * s) (b / magnitude a b * s) = s.
Proof.
  intros Hd Hs. unfold magnitude at 1.
  replace ((a / magnitude a b * s) ^ 2 + (b / magnitude a b * s) ^ 2)
    with ((a ^ 2 + b ^ 2) / (magnitude a b * magnitude a b) * s ^ 2)
    by (field; lra).
  rewrite magnitude_sqr.
  replace ((a ^ 2 + b ^ 2) / (a ^ 2 + b ^ 2) * s ^ 2) with (s ^ 2).
  - now apply sqrt_pow2.
  - field. rewrite <- magnitude_sqr. nra.
Qed.

Lemma magnitude_drop_x (a b : R) : magnitude 0 b <= magnitude a b.
Proof. apply sqrt_le_1_alt. nra. Qed.

Lemma magnitude_drop_y (a b : R) : magnitude a 0 <= magnitude a b.
Proof. apply sqrt_le_1_alt. nra. Qed.

Lemma sqrt_lower_bound (c s : R) : 0 <= c -> c * c <= s -> c <= sqrt s.
Proof.
  intros Hc Hs. rewrite <- (sqrt_square c Hc). now apply sqrt_le_1_alt.
Qed.

Lemma py_div_ok (a b : R) : b <> 0 -> py_div a b = Ok (a / b).
Proof.
  intros Hb. unfold py_div. destruct (Req_dec_T b 0); [contradiction|reflexivity].
Qed.

Lemma limit_speed_ok (m a b : R) :
  0 <= m ->
  exists a' b', Player.limit_speed m a b = Ok (a', b') /\ magnitude a' b' <= m.
Proof.
  intros Hm. unfold Player.limit_speed. fold (magnitude a b).
  destruct (Rlt_dec m (magnitude a b)) as [Hlt|Hge].
  - assert (Hpos : 0 < magnitude a b) by lra.
    rewrite !py_div_ok by lra. simpl.
    do 2 eexists. split; [reflexivity|].
    rewrite magnitude_rescaled by assumption. lra.
  - exists a, b. split; [reflexivity|lra].
Qed.

End Velocity.

(** ** The player *)
Section PlayerFacts.

Import Player.

Lemma has_powerup_In (kind : PowerUpType) (l : list PowerUp) :
  has_powerup kind l = true <-> In kind (map type l).
Proof.
  unfold has_powerup. rewrite existsb_exists, in_map_iff. unfold PowerUpType_eqb.
  split.
  - intros [p [Hin Heq]]. exists p.
    destruct (PowerUpType_eq_dec (type p) kind); [auto|discriminate].
  - intros [p [Heq Hin]]. exists p. split; [assumption|].
    destruct (PowerUpType_eq_dec (type p) kind); [reflexivity|contradiction].
Qed.

Lemma has_powerup_cons (kind : PowerUpType) (p : PowerUp) (l : list PowerUp) :
  has_powerup kind (p :: l) = PowerUpType_eqb (type p) kind || has_powerup kind l.
Proof. reflexivity. Qed.

(** What the polling loop leaves in its flags. *)
Lemma poll_fold_shield (l : list PowerUp) (acc : Polled) :
  polled_shield (fold_left poll_one l acc) =
  polled_shield acc || has_powerup SHIELD l.
Proof.
  revert acc. induction l as [|p l IH]; intros acc.
  - simpl. now rewrite orb_false_r.
  - rewrite has_powerup_cons. cbn [fold_left]. rewrite IH. unfold poll_one.
    destruct (type p); simpl; try reflexivity.
    now rewrite orb_true_r.
Qed.

Lemma poll_fold_invisibility (l : list PowerUp) (acc : Polled) :
  polled_invisibility (fold_left poll_one l acc) =
  polled_invisibility acc || has_powerup INVISIBILITY l.
Proof.
  revert acc. induction l as [|p l IH]; intros acc.
  - simpl. now rewrite orb_false_r.
  - rewrite has_powerup_cons. cbn [fold_left]. rewrite IH. unfold poll_one.
    destruct (type p); simpl; try reflexivity.
    now rewrite orb_true_r.
Qed.

Lemma poll_fold_speed_pos (l : list PowerUp) (acc : Polled) :
  (0 < speed_multiplier acc)%R ->
  (0 < speed_multiplier (fold_left poll_one l acc))%R.
Proof.
  revert acc. induction l as [|p l IH]; intros acc Hacc; simpl; [assumption|].
  apply IH. unfold poll_one. destruct (type p); simpl; lra.
Qed.

(** With at most one entry per kind the multiplier is applied at most
    once. *)
Lemma poll_fold_speed (l : list PowerUp) (acc : Polled) :
  NoDup (map type l) ->
  speed_multiplier (fold_left poll_one l acc) =
  (speed_multiplier acc * (if has_powerup SPEED_BOOST l then 3 / 2 else 1))%R.
Proof.
  revert acc. induction l as [|p l IH]; intros acc Hnd.
  - simpl. lra.
  - simpl in Hnd. inversion Hnd as [|k ks Hnotin Hnd']. subst.
    rewrite has_powerup_cons. cbn [fold_left]. rewrite (IH _ Hnd').
    unfold poll_one, PowerUpType_eqb.
    destruct (PowerUpType_eq_dec (type p) SPEED_BOOST) as [E|E].
    + rewrite E in *. simpl.
      destruct (has_powerup SPEED_BOOST l) eqn:Hh.
      * apply has_powerup_In in Hh. contradiction.
      * lra.
    + simpl. destruct (type p); simpl; try reflexivity. contradiction.
Qed.

Lemma any_corner_solid_total (tm : TileMap.t) (corners : list (R * R)) :
  TileMap.wf tm -> exists b, any_corner_solid tm corners = Ok b.
Proof.
  intros Hwf. induction corners as [|[cx cy] rest IH]; simpl.
  - now exists false.
  - destruct (is_solid_tile_total (py_floordiv cx TILE_SIZE)
                (py_floordiv cy TILE_SIZE) Hwf) as [b Hb].
    rewrite Hb. simpl. destruct b; [now exists true|exact IH].
Qed.

Lemma _update_powerups_NoDup (l : list PowerUp) :
  NoDup (map type l) -> NoDup (map type (_update_powerups l)).
Proof.
  unfold _update_powerups. rewrite map_map. simpl.
  induction l as [|p l IH]; simpl; intros Hnd; [constructor|].
  inversion Hnd as [|k ks Hnotin Hnd']. subst.
  destruct (0 <? duration p)%Z; simpl; [|now apply IH].
  constructor; [|now apply IH].
  intros Hin. apply Hnotin.
  apply in_map_iff in Hin. destruct Hin as [q [Hq Hin]].
  apply filter_In in Hin. apply in_map_iff. exists q. tauto.
Qed.

(** One tick of the player on a well-shaped map: the call returns, it
    touches neither health nor the counters, counts the invincibility
    timer down, refreshes the flags from the power-up list it was
    entered with, and leaves a velocity within the polled limit. *)
Lemma update_ok (keys_pressed : Keys) (tm : TileMap.t) (p : t) :
  TileMap.wf tm ->
  exists p',
    update keys_pressed tm p = Ok p' /\
    health p' = health p /\
    candies_collected p' = candies_collected p /\
    score p' = score p /\
    invincible_timer p' =
      (if (0 <? invincible_timer p)%Z
       then invincible_timer p - 1 else invincible_timer p)%Z /\
    active_powerups p' = _update_powerups (active_powerups p) /\
    shield_active p' = has_powerup SHIELD (active_powerups p) /\
    invisibility_active p' = has_powerup INVISIBILITY (active_powerups p) /\
    (magnitude (vx p') (vy p')
     <= PLAYER_MAX_SPEED * speed_multiplier (poll_powerups (active_powerups p)))%R.
Proof.
  intros Hwf. unfold update. cbv zeta.
  assert (Hpos : (0 < speed_multiplier (poll_powerups (active_powerups p)))%R).
  { apply poll_fold_speed_pos. simpl. lra. }
  match goal with
  | |- context [limit_speed ?m ?a ?b] =>
      destruct (@limit_speed_ok m a b) as (a' & b' & Hl & Hm);
      [unfold PLAYER_MAX_SPEED; nra | rewrite Hl]
  end.
  cbn [bind].
  unfold _check_wall_collision.
  match goal with
  | |- context [any_corner_solid tm ?c] =>
      destruct (any_corner_solid_total c Hwf) as [hx Hx]; rewrite Hx
  end.
  cbn [bind].
  match goal with
  | |- context [any_corner_solid tm ?c] =>
      destruct (any_corner_solid_total c Hwf) as [hy Hy]; rewrite Hy
  end.
  cbn [bind].
  eexists. split; [reflexivity|]. cbn [health candies_collected score
    invincible_timer active_powerups shield_active invisibility_active vx vy].
  repeat split.
  - unfold poll_powerups. now rewrite poll_fold_shield.
  - unfold poll_powerups. now rewrite poll_fold_invisibility.
  - eapply Rle_trans; [|exact Hm].
    destruct hx, hy.
    + eapply Rle_trans; [apply magnitude_drop_x | apply magnitude_drop_y].
    + apply magnitude_drop_x.
    + apply magnitude_drop_y.
    + apply Rle_refl.
Qed.

End PlayerFacts.

(** ** Damage, power-ups and health *)
Section PlayerClaims.

Import Player.

(** An entry that is in the list after [_update_powerups] was in it
    before. *)
Lemma has_powerup_after_update (kind : PowerUpType) (l : list PowerUp) :
  has_powerup kind (_update_powerups l) = true -> has_powerup kind l = true.
Proof.
  unfold _update_powerups. induction l as [|q l IH]; [discriminate|].
  cbn [filter]. rewrite has_powerup_cons.
  destruct (0 <? duration q)%Z.
  - cbn [map]. rewrite has_powerup_cons. cbn [type].
    destruct (PowerUpType_eqb (type q) kind); [reflexivity|]. exact IH.
  - intros H. rewrite (IH H). apply orb_true_r.
Qed.

(** C1, as the code has it.  [take_damage] tests the player's
    [shield_active] flag, not the power-up list: while the
    invincibility timer is positive or that flag is up the call returns
    the player as it was, with [False]; in every other state it returns
    [True], health is one lower and the timer is
    [INVINCIBILITY_DURATION].  The flag is what the last [update] left:
    up exactly when a Shield entry was in the list that call began
    with.  So right after an [update] a hit is refused exactly when the
    timer is still positive or a Shield was listed when the update
    began, and a Shield still listed after the update always
    protects. *)
Theorem take_damage_spec :
  (forall p : t,
     (((0 < invincible_timer p)%Z \/ shield_active p = true) ->
      take_damage p = (p, false)) /\
     (~ ((0 < invincible_timer p)%Z \/ shield_active p = true) ->
      snd (take_damage p) = true /\
      health (fst (take_damage p)) = (health p - 1)%Z /\
      invincible_timer (fst (take_damage p)) = INVINCIBILITY_DURATION)) /\
  (forall (keys_pressed : Keys) (tm : TileMap.t) (p : t),
     TileMap.wf tm ->
     exists p',
       update keys_pressed tm p = Ok p' /\
       shield_active p' = has_powerup SHIELD (active_powerups p) /\
       (take_damage p' = (p', false) <->
        (0 < invincible_timer p')%Z \/
        has_powerup SHIELD (active_powerups p) = true) /\
       (has_powerup SHIELD (active_powerups p') = true ->
        take_damage p' = (p', false))).
Proof.
  assert (Hflag : forall p : t,
             (((0 < invincible_timer p)%Z \/ shield_active p = true) ->
              take_damage p = (p, false)) /\
             (~ ((0 < invincible_timer p)%Z \/ shield_active p = true) ->
              snd (take_damage p) = true /\
              health (fst (take_damage p)) = (health p - 1)%Z /\
              invincible_timer (fst (take_damage p)) = INVINCIBILITY_DURATION)).
  { intros p. unfold take_damage. split.
    - intros [Ht|Hs].
      + apply Z.leb_gt in Ht. now rewrite Ht.
      + rewrite Hs. simpl. now rewrite andb_false_r.
    - intros Hnot.
      assert (Ht : (invincible_timer p <=? 0)%Z = true).
      { apply Z.leb_le. destruct (Z_lt_le_dec 0 (invincible_timer p)); [|assumption].
        exfalso. apply Hnot. now left. }
      assert (Hs : shield_active p = false).
      { destruct (shield_active p); [|reflexivity]. exfalso. apply Hnot. now right. }
      rewrite Ht, Hs. simpl. auto. }
  split; [exact Hflag|].
  intros keys_pressed tm p Hwf.
  destruct (update_ok keys_pressed p Hwf)
    as (p' & Hu & _ & _ & _ & _ & Hl & Hs & _).
  exists p'. split; [exact Hu|]. split; [exact Hs|].
  destruct (Hflag p') as [Hkeep Hhit]. rewrite Hs in Hkeep, Hhit.
  split; [split|].
  - intros Hsame.
    destruct (Z_lt_le_dec 0 (invincible_timer p')) as [Ht|Ht]; [now left|].
    destruct (has_powerup SHIELD (active_powerups p)) eqn:E; [now right|].
    exfalso.
    assert (Hnot : ~ ((0 < invincible_timer p')%Z \/ false = true))
      by (intros [H|H]; [lia|discriminate]).
    destruct (Hhit Hnot) as [Htrue _]. rewrite Hsame in Htrue. discriminate.
  - exact Hkeep.
  - intros Hstill. apply Hkeep. right.
    rewrite Hl in Hstill. now apply has_powerup_after_update.
Qed.

Lemma take_damage_spec_witness :
  (take_damage (fst (take_damage (init 0 0))) = (fst (take_damage (init 0 0)), false) /\
   snd (take_damage (init 0 0)) = true /\
   health (fst (take_damage (init 0 0))) = 2%Z) /\
  (exists p',
     update no_keys (TileMap.init 30 20) (add_powerup SHIELD 900 (init 100 100)) = Ok p' /\
     shield_active p' = true /\ take_damage p' = (p', false)).
Proof.
  destruct take_damage_spec as [Hflag Hupdate].
  split.
  - split.
    + apply (Hflag (fst (take_damage (init 0 0)))). left. reflexivity.
    + assert (H : ~ ((0 < invincible_timer (init 0 0))%Z \/
                     shield_active (init 0 0) = true)).
      { simpl. intros [H|H]; [lia|discriminate]. }
      apply (Hflag (init 0 0)) in H.
      destruct H as [Hr [Hh _]]. split; [exact Hr|exact Hh].
  - destruct (Hupdate no_keys (TileMap.init 30 20)
                (add_powerup SHIELD 900 (init 100 100)) (init_wf 30 20))
      as (p' & Hu & Hs & Hiff & _).
    exists p'. split; [exact Hu|]. split; [exact Hs|].
    apply Hiff. right. reflexivity.
Defined.

(** The shield flag is the answer of the last [update]: a Shield entry
    was in the power-up list that call was entered with. *)
Lemma update_refreshes_shield (keys_pressed : Keys) (tm : TileMap.t) (p : t) :
  TileMap.wf tm ->
  exists p', update keys_pressed tm p = Ok p' /\
             shield_active p' = has_powerup SHIELD (active_powerups p).
Proof.
  intros Hwf. destruct (update_ok keys_pressed p Hwf) as [p' H].
  exists p'. tauto.
Qed.

(** C1, refuted as stated, both ways.  A fresh player who has just
    picked up a 900-tick Shield has a Shield entry in the active list
    and no invincibility, and is hit all the same: the flag has not
    been refreshed yet.  And a player whose one-tick Shield ran out in
    the last of two updates has no Shield entry left and no
    invincibility, and is not hit: the flag is still up. *)
Lemma shield_list_is_not_the_flag :
  (has_powerup SHIELD (active_powerups (add_powerup SHIELD 900 (init 100 100))) = true /\
   invincible_timer (add_powerup SHIELD 900 (init 100 100)) = 0%Z /\
   snd (take_damage (add_powerup SHIELD 900 (init 100 100))) = true /\
   health (fst (take_damage (add_powerup SHIELD 900 (init 100 100)))) = 2%Z) /\
  (exists p',
     run_ops (TileMap.init 30 20)
             [OpAddPowerup SHIELD 1; OpUpdate no_keys; OpUpdate no_keys]
             (init 100 100) = Ok p' /\
     has_powerup SHIELD (active_powerups p') = false /\
     invincible_timer p' = 0%Z /\
     take_damage p' = (p', false) /\ health p' = 3%Z).
Proof.
  split; [repeat split; reflexivity|].
  pose proof (init_wf 30 20) as Hwf.
  destruct (update_ok no_keys (add_powerup SHIELD 1 (init 100 100)) Hwf)
    as (p1 & Hu1 & Hh1 & _ & _ & Ht1 & Hl1 & _).
  destruct (update_ok no_keys p1 Hwf)
    as (p2 & Hu2 & Hh2 & _ & _ & Ht2 & Hl2 & Hs2 & _).
  exists p2. cbn [run_ops run_op bind]. rewrite Hu1. cbn [bind]. rewrite Hu2.
  cbn [bind].
  assert (El1 : active_powerups p1 = [mkPowerUp SHIELD 0 1]) by (rewrite Hl1; reflexivity).
  assert (Et1 : invincible_timer p1 = 0%Z) by (rewrite Ht1; reflexivity).
  assert (El2 : active_powerups p2 = []) by (rewrite Hl2, El1; reflexivity).
  assert (Et2 : invincible_timer p2 = 0%Z) by (rewrite Ht2, Et1; reflexivity).
  assert (Es2 : shield_active p2 = true) by (rewrite Hs2, El1; reflexivity).
  split; [reflexivity|]. split; [rewrite El2; reflexivity|].
  split; [exact Et2|]. split.
  - unfold take_damage. rewrite Es2, Et2. reflexivity.
  - rewrite Hh2, Hh1. reflexivity.
Qed.

Lemma filter_kind_removed (kind : PowerUpType) (l : list PowerUp) :
  filter (fun q => PowerUpType_eqb (type q) kind)
         (filter (fun q => negb (PowerUpType_eqb (type q) kind)) l) = [].
Proof.
  induction l as [|q l IH]; simpl; [reflexivity|].
  destruct (PowerUpType_eqb (type q) kind) eqn:E; simpl; [exact IH|].
  now rewrite E.
Qed.

Lemma filter_twice {A : Type} (f : A -> bool) (l : list A) :
  filter f (filter f l) = filter f l.
Proof.
  induction l as [|a l IH]; simpl; [reflexivity|].
  destruct (f a) eqn:E; simpl; [rewrite E|]; now rewrite IH.
Qed.

Lemma PowerUpType_eqb_refl (kind : PowerUpType) : PowerUpType_eqb kind kind = true.
Proof.
  unfold PowerUpType_eqb. destruct (PowerUpType_eq_dec kind kind); congruence.
Qed.

Lemma add_powerup_NoDup (kind : PowerUpType) (d : Z) (p : t) :
  NoDup (map type (active_powerups p)) ->
  NoDup (map type (active_powerups (add_powerup kind d p))).
Proof.
  unfold add_powerup. simpl.
  induction (active_powerups p) as [|q l IH]; simpl; intros Hnd.
  - constructor; [intros []|constructor].
  - inversion Hnd as [|k ks Hnotin Hnd']. subst.
    unfold PowerUpType_eqb at 1.
    destruct (PowerUpType_eq_dec (type q) kind) as [E|E]; simpl; [now apply IH|].
    constructor; [|now apply IH].
    rewrite map_app, in_app_iff. simpl. intros [Hin|[Heq|[]]].
    + apply Hnotin. apply in_map_iff in Hin. destruct Hin as [r [Hr Hin]].
      apply filter_In in Hin. apply in_map_iff. exists r. tauto.
    + congruence.
Qed.

(** C7.  [add_powerup] leaves exactly one entry of the kind it was
    called with, the new one with the new duration, and keeps the
    entries of every other kind; so from a fresh player no sequence of
    [add_powerup] calls yields two entries of one kind. *)
Theorem add_powerup_no_stacking :
  (forall (kind : PowerUpType) (d : Z) (p : t),
     filter (fun q => PowerUpType_eqb (type q) kind)
            (active_powerups (add_powerup kind d p)) = [PowerUp_new kind d] /\
     filter (fun q => negb (PowerUpType_eqb (type q) kind))
            (active_powerups (add_powerup kind d p)) =
     filter (fun q => negb (PowerUpType_eqb (type q) kind)) (active_powerups p)) /\
  (forall (x0 y0 : R) (calls : list (PowerUpType * Z)),
     NoDup (map type (active_powerups (add_powerups calls (init x0 y0))))).
Proof.
  split.
  - intros kind d p. unfold add_powerup. simpl.
    rewrite !filter_app, filter_kind_removed, filter_twice. simpl.
    rewrite PowerUpType_eqb_refl. simpl.
    split; [reflexivity|apply app_nil_r].
  - intros x0 y0 calls. unfold add_powerups.
    assert (H : NoDup (map type (active_powerups (init x0 y0)))) by constructor.
    revert H. generalize (init x0 y0).
    induction calls as [|[kind d] calls IH]; intros p Hp; simpl; [assumption|].
    apply IH. now apply add_powerup_NoDup.
Qed.

(** A second SpeedBoost replaces the first; other kinds stay. *)
Example speed_boost_replaced :
  active_powerups
    (add_powerups [(SPEED_BOOST, 300); (SHIELD, 900); (SPEED_BOOST, 420)]%Z (init 0 0))
  = [PowerUp_new SHIELD 900; PowerUp_new SPEED_BOOST 420].
Proof. reflexivity. Qed.

End PlayerClaims.

(** ** Speed limit and health over runs *)
Section PlayerRuns.

Import Player.

Lemma run_op_unique_kinds (tm : TileMap.t) (op : PlayerOp) (p p' : t) :
  TileMap.wf tm -> run_op tm op p = Ok p' ->
  NoDup (map type (active_powerups p)) ->
  NoDup (map type (active_powerups p')).
Proof.
  intros Hwf Hrun Hnd. destruct op; simpl in Hrun.
  - destruct (update_ok keys_pressed p Hwf) as (q & Hu & _ & _ & _ & _ & Hl & _).
    rewrite Hu in Hrun. injection Hrun as <-. rewrite Hl.
    now apply _update_powerups_NoDup.
  - injection Hrun as <-. unfold take_damage.
    destruct ((invincible_timer p <=? 0)%Z && negb (shield_active p)); exact Hnd.
  - injection Hrun as <-. exact Hnd.
  - injection Hrun as <-. exact Hnd.
  - injection Hrun as <-. now apply add_powerup_NoDup.
Qed.

(** Whatever a client calls on a fresh player, the power-up list keeps
    at most one entry per kind. *)
Lemma run_ops_unique_kinds (tm : TileMap.t) (ops : list PlayerOp) (p p' : t) :
  TileMap.wf tm -> run_ops tm ops p = Ok p' ->
  NoDup (map type (active_powerups p)) ->
  NoDup (map type (active_powerups p')).
Proof.
  intros Hwf. revert p. induction ops as [|op ops IH]; intros p Hrun Hnd; simpl in Hrun.
  - now injection Hrun as <-.
  - destruct (run_op tm op p) as [p1|e] eqn:E1; [|discriminate].
    simpl in Hrun. apply (IH p1 Hrun). exact (run_op_unique_kinds op p Hwf E1 Hnd).
Qed.

(** C3, as the code has it.  One [update] of a player whose power-up
    list holds at most one entry per kind returns, and the velocity it
    leaves has Euclidean magnitude at most [PLAYER_MAX_SPEED] times 1.5
    when a SpeedBoost entry is in the list the call begins with (the
    list it polls), times 1.0 otherwise.  A SpeedBoost entry that is in
    the list after the call was in it before, so the bound with 1.5
    holds whenever one is still listed; the list after the call may
    have lost the entry the bound rests on.  Every player a client gets
    from a fresh one by [update], [take_damage], [heal],
    [collect_candy] and [add_powerup] calls has at most one entry per
    kind. *)
Theorem update_speed_limit :
  (forall (keys_pressed : Keys) (tm : TileMap.t) (p : t),
     TileMap.wf tm ->
     NoDup (map type (active_powerups p)) ->
     exists p',
       update keys_pressed tm p = Ok p' /\
       (magnitude (vx p') (vy p')
        <= PLAYER_MAX_SPEED *
           (if has_powerup SPEED_BOOST (active_powerups p) then 3 / 2 else 1))%R /\
       (has_powerup SPEED_BOOST (active_powerups p') = true ->
        has_powerup SPEED_BOOST (active_powerups p) = true)) /\
  (forall (tm : TileMap.t) (ops : list PlayerOp) (x0 y0 : R) (p : t),
     TileMap.wf tm -> run_ops tm ops (init x0 y0) = Ok p ->
     NoDup (map type (active_powerups p))).
Proof.
  split.
  - intros keys_pressed tm p Hwf Hnd.
    destruct (update_ok keys_pressed p Hwf)
      as (p' & Hu & _ & _ & _ & _ & Hl & _ & _ & Hm).
    exists p'. split; [exact Hu|]. split.
    + unfold poll_powerups in Hm. rewrite (@poll_fold_speed _ _ Hnd) in Hm.
      simpl in Hm. now rewrite Rmult_1_l in Hm.
    + rewrite Hl. apply has_powerup_after_update.
  - intros tm ops x0 y0 p Hwf Hrun.
    apply (run_ops_unique_kinds ops (init x0 y0) Hwf Hrun). constructor.
Qed.

Lemma update_speed_limit_witness :
  (exists p',
     update right_key (TileMap.init 30 20) runner = Ok p' /\
     (magnitude (vx p') (vy p') <= PLAYER_MAX_SPEED * 1)%R) /\
  (exists p',
     update right_key (TileMap.init 30 20) boost_running_out = Ok p' /\
     (magnitude (vx p') (vy p') <= PLAYER_MAX_SPEED * (3 / 2))%R).
Proof.
  destruct update_speed_limit as [H _].
  split.
  - destruct (H right_key (TileMap.init 30 20) runner (init_wf 30 20))
      as (p' & Hu & Hm & _).
    + simpl. constructor.
    + exists p'. split; [exact Hu|exact Hm].
  - destruct (H right_key (TileMap.init 30 20) boost_running_out (init_wf 30 20))
      as (p' & Hu & Hm & _).
    + simpl. constructor; [intros []|constructor].
    + exists p'. split; [exact Hu|exact Hm].
Defined.

(** C3, refuted as stated: on the tick its SpeedBoost runs out, a
    player running to the right with D held leaves [update] at speed
    4.5 -- the limit was taken from the list the call began with -- and
    with no SpeedBoost left in the active list, where the claim allows
    3. *)
Lemma boost_expiry_speed :
  exists p',
    update right_key (TileMap.init 30 20) boost_running_out = Ok p' /\
    has_powerup SPEED_BOOST (active_powerups p') = false /\
    (magnitude (vx p') (vy p') = 9 / 2)%R /\
    (PLAYER_MAX_SPEED * 1 < magnitude (vx p') (vy p'))%R.
Proof.
  assert (Hroot : sqrt ((9 / 2 + 1 / 5) ^ 2 + ((0 + 0) * (1 - 3 / 20)) ^ 2) = (47 / 10)%R).
  { apply sqrt_lem_1; lra. }
  assert (Hvx : ((9 / 2 + 1 / 5) / (47 / 10) * (3 * (1 * (3 / 2))) = 9 / 2)%R)
    by (field; lra).
  assert (Hvy : ((0 + 0) * (1 - 3 / 20) / (47 / 10) * (3 * (1 * (3 / 2))) = 0)%R)
    by (field; lra).
  assert (F92 : Zfloor ((100 + 9 / 2 - 12) / 32) = 2%Z) by (apply Zfloor_eq; lra).
  assert (F116 : Zfloor ((100 + 9 / 2 + 12) / 32) = 3%Z) by (apply Zfloor_eq; lra).
  assert (F88 : Zfloor ((100 - 12) / 32) = 2%Z) by (apply Zfloor_eq; lra).
  assert (F112 : Zfloor ((100 + 12) / 32) = 3%Z) by (apply Zfloor_eq; lra).
  assert (F88' : Zfloor ((100 + 0 - 12) / 32) = 2%Z) by (apply Zfloor_eq; lra).
  assert (F112' : Zfloor ((100 + 0 + 12) / 32) = 3%Z) by (apply Zfloor_eq; lra).
  unfold update, boost_running_out, right_key. cbv zeta.
  cbn [K_a K_LEFT K_d K_RIGHT K_w K_UP K_s K_DOWN orb
       x y vx vy radius active_powerups invincible_timer].
  unfold PLAYER_ACCELERATION, PLAYER_DECELERATION, PLAYER_MAX_SPEED.
  destruct (Req_dec_T (1 / 5) 0) as [Habs|_]; [lra|].
  destruct (Req_dec_T 0 0) as [_|Habs]; [|lra].
  cbn [poll_powerups fold_left poll_one type speed_multiplier].
  unfold limit_speed. rewrite Hroot.
  destruct (Rlt_dec (3 * (1 * (3 / 2))) (47 / 10)) as [_|Habs]; [|lra].
  rewrite !py_div_ok by lra. cbn [bind]. rewrite Hvx, Hvy.
  unfold _check_wall_collision. cbn [radius any_corner_solid].
  unfold py_floordiv, TILE_SIZE.
  rewrite F92, F116, F88, F112.
  change (TileMap.is_solid_tile (TileMap.init 30 20) 2 2) with (@Ok bool false).
  change (TileMap.is_solid_tile (TileMap.init 30 20) 3 2) with (@Ok bool false).
  change (TileMap.is_solid_tile (TileMap.init 30 20) 2 3) with (@Ok bool false).
  change (TileMap.is_solid_tile (TileMap.init 30 20) 3 3) with (@Ok bool false).
  cbn [bind]. rewrite F92, F116, F88', F112'.
  change (TileMap.is_solid_tile (TileMap.init 30 20) 2 2) with (@Ok bool false).
  change (TileMap.is_solid_tile (TileMap.init 30 20) 3 2) with (@Ok bool false).
  change (TileMap.is_solid_tile (TileMap.init 30 20) 2 3) with (@Ok bool false).
  change (TileMap.is_solid_tile (TileMap.init 30 20) 3 3) with (@Ok bool false).
  cbn [bind].
  eexists. split; [reflexivity|]. cbn [active_powerups vx vy].
  split; [reflexivity|].
  assert (Hm : magnitude (9 / 2) 0 = (9 / 2)%R).
  { unfold magnitude. apply sqrt_lem_1; lra. }
  rewrite Hm. split; lra.
Qed.

Lemma run_ops_app (tm : TileMap.t) (a b : list PlayerOp) (p : t) :
  run_ops tm (a ++ b) p = (p' <- run_ops tm a p ;; run_ops tm b p').
Proof.
  revert p. induction a as [|op a IH]; intros p; simpl; [reflexivity|].
  destruct (run_op tm op p) as [p1|e]; simpl; [apply IH|reflexivity].
Qed.

(** Every operation returns on a well-shaped map. *)
Lemma run_op_total (tm : TileMap.t) (op : PlayerOp) (p : t) :
  TileMap.wf tm -> exists p', run_op tm op p = Ok p'.
Proof.
  intros Hwf. destruct op; simpl; try (eexists; reflexivity).
  destruct (update_ok keys_pressed p Hwf) as [p' [Hu _]]. now exists p'.
Qed.

Lemma run_op_health_upper (tm : TileMap.t) (op : PlayerOp) (p p' : t) :
  TileMap.wf tm -> run_op tm op p = Ok p' ->
  (health p <= 5)%Z -> (health p' <= 5)%Z.
Proof.
  intros Hwf Hrun Hle. destruct op; simpl in Hrun.
  - destruct (update_ok keys_pressed p Hwf) as (q & Hu & Hh & _).
    rewrite Hu in Hrun. injection Hrun as <-. lia.
  - injection Hrun as <-. unfold take_damage.
    destruct ((invincible_timer p <=? 0)%Z && negb (shield_active p)); simpl; lia.
  - injection Hrun as <-. simpl. lia.
  - injection Hrun as <-. simpl. lia.
  - injection Hrun as <-. simpl. lia.
Qed.

Lemma run_op_health_lower (tm : TileMap.t) (op : PlayerOp) (p p' : t) :
  TileMap.wf tm -> run_op tm op p = Ok p' ->
  match op with
  | OpTakeDamage => (0 < health p)%Z
  | OpHeal amount => (0 <= amount)%Z
  | _ => True
  end ->
  (0 <= health p)%Z -> (0 <= health p')%Z.
Proof.
  intros Hwf Hrun Hd Hge. destruct op; simpl in Hrun.
  - destruct (update_ok keys_pressed p Hwf) as (q & Hu & Hh & _).
    rewrite Hu in Hrun. injection Hrun as <-. lia.
  - injection Hrun as <-. unfold take_damage.
    destruct ((invincible_timer p <=? 0)%Z && negb (shield_active p)); simpl; lia.
  - injection Hrun as <-. simpl. lia.
  - injection Hrun as <-. simpl. lia.
  - injection Hrun as <-. simpl. lia.
Qed.

Lemma run_ops_health (tm : TileMap.t) (ops : list PlayerOp) (p : t) :
  TileMap.wf tm -> (health p <= 5)%Z ->
  exists p',
    run_ops tm ops p = Ok p' /\
    (health p' <= 5)%Z /\
    ((0 <= health p)%Z -> disciplined tm ops p -> (0 <= health p')%Z).
Proof.
  intros Hwf. revert p. induction ops as [|op ops IH]; intros p Hle.
  - exists p. simpl. auto.
  - destruct (run_op_total op p Hwf) as [p1 H1].
    destruct (IH p1 (run_op_health_upper op p Hwf H1 Hle)) as (p' & Hrun & Hup & Hlow).
    exists p'. simpl. rewrite H1. simpl.
    split; [exact Hrun|]. split; [exact Hup|].
    intros Hge [Hd Hrest].
    apply Hlow; [|exact Hrest].
    exact (run_op_health_lower op p Hwf H1 Hd Hge).
Qed.

(** C6, as the code has it.  From a fresh player (health 3), on a
    well-shaped map, every sequence of [update], [take_damage], [heal],
    [collect_candy] and [add_powerup] calls returns and leaves health at
    most 5, the value [heal] clamps at; health is also at least 0 as
    long as [take_damage] is only called on a player with health above
    0 and [heal] only with a non-negative amount.  [take_damage] itself
    has no floor. *)
Theorem health_bounds (tm : TileMap.t) (ops : list PlayerOp) (x0 y0 : R) :
  TileMap.wf tm ->
  exists p',
    run_ops tm ops (init x0 y0) = Ok p' /\
    (health p' <= 5)%Z /\
    (disciplined tm ops (init x0 y0) -> (0 <= health p')%Z).
Proof.
  intros Hwf.
  destruct (@run_ops_health tm ops (init x0 y0) Hwf) as (p' & Hrun & Hup & Hlow).
  - simpl. unfold PLAYER_MAX_HEALTH. lia.
  - exists p'. split; [exact Hrun|]. split; [exact Hup|].
    apply Hlow. simpl. unfold PLAYER_MAX_HEALTH. lia.
Qed.

Lemma health_bounds_witness :
  exists p',
    run_ops (TileMap.init 30 20)
            [OpTakeDamage; OpHeal 1; OpCollectCandy 10; OpTakeDamage] (init 100 100)
    = Ok p' /\
    (0 <= health p' <= 5)%Z.
Proof.
  destruct (@health_bounds (TileMap.init 30 20)
              [OpTakeDamage; OpHeal 1; OpCollectCandy 10; OpTakeDamage] 100 100
              (init_wf 30 20)) as (p' & Hrun & Hup & Hlow).
  exists p'. split; [exact Hrun|]. split; [|exact Hup].
  apply Hlow. lazy. repeat split; discriminate.
Defined.

(** Idle ticks of a player without power-ups only run the invincibility
    timer down. *)
Lemma idle_ticks (tm : TileMap.t) (keys_pressed : Keys) (n : nat) (p : t) :
  TileMap.wf tm ->
  active_powerups p = [] -> shield_active p = false ->
  (0 <= invincible_timer p)%Z ->
  exists p',
    run_ops tm (repeat (OpUpdate keys_pressed) n) p = Ok p' /\
    health p' = health p /\
    active_powerups p' = [] /\ shield_active p' = false /\
    invincible_timer p' = Z.max 0 (invincible_timer p - Z.of_nat n).
Proof.
  intros Hwf. revert p. induction n as [|n IH]; intros p Hl Hs Ht.
  - exists p. simpl. repeat split; auto. lia.
  - destruct (update_ok keys_pressed p Hwf)
      as (p1 & Hu & Hh & _ & _ & Htimer & Hl1 & Hs1 & _).
    rewrite Hl in Hl1, Hs1. simpl in Hl1, Hs1.
    destruct (IH p1 Hl1 Hs1) as (p' & Hrun & Hh' & Hl' & Hs' & Ht').
    { rewrite Htimer. destruct (0 <? invincible_timer p)%Z eqn:E; [|lia].
      apply Z.ltb_lt in E. lia. }
    exists p'. cbn [repeat run_ops run_op]. rewrite Hu. cbn [bind].
    split; [exact Hrun|]. split; [congruence|]. split; [exact Hl'|].
    split; [exact Hs'|].
    rewrite Ht', Htimer.
    destruct (0 <? invincible_timer p)%Z eqn:E.
    + apply Z.ltb_lt in E. lia.
    + apply Z.ltb_ge in E. lia.
Qed.

(** One hit on an unprotected player, then 120 idle ticks: health is
    one lower and the player can be hit again. *)
Lemma hit_round (tm : TileMap.t) (p : t) :
  TileMap.wf tm ->
  active_powerups p = [] -> shield_active p = false -> invincible_timer p = 0%Z ->
  exists p',
    run_ops tm hit_and_wait p = Ok p' /\
    health p' = (health p - 1)%Z /\
    active_powerups p' = [] /\ shield_active p' = false /\
    invincible_timer p' = 0%Z.
Proof.
  intros Hwf Hl Hs Ht. unfold hit_and_wait. cbn [run_ops run_op bind].
  unfold take_damage. rewrite Ht, Hs. cbn [Z.leb Z.compare negb andb fst].
  match goal with
  | |- context [run_ops tm _ ?q] =>
      assert (Hidle := @idle_ticks tm no_keys 120 q Hwf Hl eq_refl)
  end.
  destruct Hidle as (p' & Hrun & Hh & Hl' & Hs' & Ht').
  - simpl. unfold INVINCIBILITY_DURATION. lia.
  - exists p'. split; [exact Hrun|]. simpl in Hh, Ht'.
    split; [exact Hh|]. split; [exact Hl'|]. split; [exact Hs'|].
    rewrite Ht'. reflexivity.
Qed.

(** Three hits, each after the window of the one before, spend the
    three hearts of a fresh player. *)
Example three_hits_spend_health :
  exists p',
    run_ops (TileMap.init 30 20) (hit_and_wait ++ hit_and_wait ++ hit_and_wait)
            (init 100 100) = Ok p' /\
    health p' = 0%Z.
Proof.
  pose proof (init_wf 30 20) as Hwf.
  destruct (@hit_round (TileMap.init 30 20) (init 100 100) Hwf)
    as (p1 & R1 & H1 & L1 & S1 & T1); try reflexivity.
  destruct (@hit_round _ p1 Hwf L1 S1 T1) as (p2 & R2 & H2 & L2 & S2 & T2).
  destruct (@hit_round _ p2 Hwf L2 S2 T2) as (p3 & R3 & H3 & L3 & S3 & T3).
  exists p3. rewrite run_ops_app, R1. cbn [bind].
  rewrite run_ops_app, R2. cbn [bind].
  split; [exact R3|].
  rewrite H3, H2, H1. reflexivity.
Qed.

(** C6, refuted as stated: four hits, each after the invincibility
    window of the one before has run out, take a fresh player to
    health -1. *)
Lemma health_below_zero :
  exists p',
    run_ops (TileMap.init 30 20) four_hits (init 100 100) = Ok p' /\
    health p' = (-1)%Z.
Proof.
  pose proof (init_wf 30 20) as Hwf. unfold four_hits.
  destruct (@hit_round (TileMap.init 30 20) (init 100 100) Hwf)
    as (p1 & R1 & H1 & L1 & S1 & T1); try reflexivity.
  destruct (@hit_round _ p1 Hwf L1 S1 T1) as (p2 & R2 & H2 & L2 & S2 & T2).
  destruct (@hit_round _ p2 Hwf L2 S2 T2) as (p3 & R3 & H3 & L3 & S3 & T3).
  destruct (@hit_round _ p3 Hwf L3 S3 T3) as (p4 & R4 & H4 & L4 & S4 & T4).
  exists p4. rewrite run_ops_app, R1. cbn [bind].
  rewrite run_ops_app, R2. cbn [bind].
  rewrite run_ops_app, R3. cbn [bind].
  split; [exact R4|].
  rewrite H4, H3, H2, H1. reflexivity.
Qed.

End PlayerRuns.

(** ** The ghost: every step returns *)
Section GhostTotality.

Import Ghost.

Local Open Scope R_scope.

Lemma bind_no_zero_division {A B : Type} (m : Result A) (k : A -> Result B) :
  m <> Raise ZeroDivisionError ->
  (forall a, m = Ok a -> k a <> Raise ZeroDivisionError) ->
  bind m k <> Raise ZeroDivisionError.
Proof.
  intros Hm Hk. destruct m as [a|e]; simpl; [now apply Hk|].
  intros H. apply Hm. congruence.
Qed.

Lemma py_get_no_zero_division {A : Type} (l : list A) (i : Z) :
  py_get l i <> Raise ZeroDivisionError.
Proof.
  unfold py_get, py_index.
  destruct ((0 <=? i)%Z && (i <? Z.of_nat (length l))%Z); simpl.
  - destruct (nth_error l (Z.to_nat i)); discriminate.
  - destruct ((- Z.of_nat (length l) <=? i)%Z && (i <? 0)%Z); simpl.
    + destruct (nth_error l _); discriminate.
    + discriminate.
Qed.

Lemma is_solid_tile_no_zero_division (tm : TileMap.t) (tx ty : Z) :
  TileMap.is_solid_tile tm tx ty <> Raise ZeroDivisionError.
Proof.
  unfold TileMap.is_solid_tile, TileMap.get_tile.
  apply bind_no_zero_division; [|discriminate].
  destruct (TileMap.in_bounds tm tx ty); [|discriminate].
  apply bind_no_zero_division; intros; apply py_get_no_zero_division.
Qed.

(** In the three movement routines every quotient has a divisor the
    guard in front of it makes positive. *)
Lemma _chase_player_ok (player : Player.t) (g : t) :
  exists vx' vy', _chase_player player g = Ok (set_velocity vx' vy' g).
Proof.
  unfold _chase_player. cbv zeta.
  match goal with |- context [Rlt_dec 0 ?d] => destruct (Rlt_dec 0 d) as [Hd|Hd] end.
  - rewrite !py_div_ok by lra. simpl. do 2 eexists. reflexivity.
  - exists (vx g), (vy g). now destruct g.
Qed.

Lemma _return_to_start_ok (player : Player.t) (g : t) :
  _player_ref g = Some player ->
  exists vx' vy', _return_to_start g = Ok (set_velocity vx' vy' g).
Proof.
  intros Href. unfold _return_to_start. cbv zeta.
  match goal with |- context [Rlt_dec 0 ?d] => destruct (Rlt_dec 0 d) as [Hd|Hd] end.
  - rewrite Href. rewrite !py_div_ok by lra. simpl. do 2 eexists. reflexivity.
  - do 2 eexists. reflexivity.
Qed.

(** [_patrol] on a ghost whose index points into its route and whose
    player reference is set: close to the waypoint it moves the index
    on, otherwise it aims the velocity at the waypoint. *)
Lemma _patrol_ok (player : Player.t) (g : t) :
  route_ok g -> _player_ref g = Some player ->
  exists tx ty,
    py_get (patrol_points g) (current_patrol_target g) = Ok (tx, ty) /\
    _patrol g =
    Ok (if Rlt_dec (magnitude (tx - x g) (ty - y g)) 10 then
          set_current_patrol_target
            ((current_patrol_target g + 1)
               mod Z.of_nat (length (patrol_points g)))%Z g
        else
          set_velocity
            ((tx - x g) / magnitude (tx - x g) (ty - y g)
             * (GHOST_SPEED * time_slow_factor player))
            ((ty - y g) / magnitude (tx - x g) (ty - y g)
             * (GHOST_SPEED * time_slow_factor player)) g).
Proof.
  intros Hroute Href. unfold route_ok in Hroute.
  destruct (py_get_in_range (patrol_points g) Hroute) as [[tx ty] [Hget _]].
  exists tx, ty. split; [exact Hget|].
  unfold _patrol. rewrite Hget.
  destruct (patrol_points g) as [|pt rest] eqn:El; [simpl in Hroute; lia|].
  cbn [bind]. cbv zeta. fold (magnitude (tx - x g) (ty - y g)).
  destruct (Rlt_dec (magnitude (tx - x g) (ty - y g)) 10) as [Hd|Hd]; [reflexivity|].
  rewrite Href. rewrite !py_div_ok by lra. cbn [bind].
  unfold time_slow_factor.
  destruct (Player.time_slow_active player); [reflexivity|].
  now rewrite Rmult_1_r.
Qed.

Lemma _patrol_no_zero_division (g : t) :
  _patrol g <> Raise ZeroDivisionError.
Proof.
  unfold _patrol. destruct (patrol_points g) as [|pt rest]; [discriminate|].
  apply bind_no_zero_division; [apply py_get_no_zero_division|].
  intros [tx ty] _. cbv zeta.
  match goal with |- context [Rlt_dec ?d 10] => destruct (Rlt_dec d 10) as [Hd|Hd] end;
    [discriminate|].
  rewrite !py_div_ok by lra. discriminate.
Qed.

Lemma move_no_zero_division (player : Player.t) (g : t) :
  move player g <> Raise ZeroDivisionError.
Proof.
  unfold move. destruct (state g).
  - apply _patrol_no_zero_division.
  - destruct (_chase_player_ok player g) as (a & b & H). rewrite H. discriminate.
  - destruct (_player_ref g) as [q|] eqn:Href.
    + destruct (_return_to_start_ok g Href) as (a & b & H). rewrite H. discriminate.
    + unfold _return_to_start. cbv zeta. rewrite Href.
      match goal with |- context [Rlt_dec 0 ?d] => destruct (Rlt_dec 0 d) end;
        discriminate.
Qed.

Lemma apply_movement_no_zero_division (tm : TileMap.t) (g : t) :
  apply_movement tm g <> Raise ZeroDivisionError.
Proof.
  unfold apply_movement, _check_wall_collision. cbv zeta.
  apply bind_no_zero_division; [apply is_solid_tile_no_zero_division|].
  intros hx _.
  apply bind_no_zero_division; [apply is_solid_tile_no_zero_division|].
  discriminate.
Qed.

(** On a well-shaped map the collision block returns; it moves the
    position only. *)
Lemma apply_movement_ok (tm : TileMap.t) (g : t) :
  TileMap.wf tm ->
  exists g',
    apply_movement tm g = Ok g' /\
    vx g' = vx g /\ vy g' = vy g /\ state g' = state g /\
    patrol_points g' = patrol_points g /\
    current_patrol_target g' = current_patrol_target g /\
    chase_timer g' = chase_timer g /\
    (x g' = x g + vx g \/ x g' = x g) /\
    (y g' = y g + vy g \/ y g' = y g).
Proof.
  intros Hwf. unfold apply_movement, _check_wall_collision. cbv zeta.
  match goal with
  | |- context [TileMap.is_solid_tile tm ?a ?b] =>
      destruct (is_solid_tile_total a b Hwf) as [hx Hx]; rewrite Hx
  end.
  cbn [bind].
  match goal with
  | |- context [TileMap.is_solid_tile tm ?a ?b] =>
      destruct (is_solid_tile_total a b Hwf) as [hy Hy]; rewrite Hy
  end.
  cbn [bind]. eexists. split; [reflexivity|]. simpl.
  repeat (split; [reflexivity|]).
  split; [destruct hx|destruct hy]; auto.
Qed.

(** Each axis asks the map about the tile it would enter, and moves
    when that tile is not solid. *)
Lemma apply_movement_axes (tm : TileMap.t) (g : t) :
  TileMap.wf tm ->
  exists g' hx hy,
    apply_movement tm g = Ok g' /\
    _check_wall_collision (x g + vx g) (y g) tm = Ok hx /\
    x g' = (if hx then x g else x g + vx g) /\
    _check_wall_collision (x g') (y g + vy g) tm = Ok hy /\
    y g' = (if hy then y g else y g + vy g).
Proof.
  intros Hwf. unfold apply_movement. cbv zeta.
  destruct (is_solid_tile_total (py_floordiv (x g + vx g) TILE_SIZE)
              (py_floordiv (y g) TILE_SIZE) Hwf) as [hx Hhx].
  assert (Hcx : _check_wall_collision (x g + vx g) (y g) tm = Ok hx) by exact Hhx.
  rewrite Hcx. cbn [bind].
  destruct (is_solid_tile_total
              (py_floordiv (if hx then x g else x g + vx g) TILE_SIZE)
              (py_floordiv (y g + vy g) TILE_SIZE) Hwf) as [hy Hhy].
  assert (Hcy : _check_wall_collision (if hx then x g else x g + vx g)
                                      (y g + vy g) tm = Ok hy) by exact Hhy.
  rewrite Hcy. cbn [bind].
  eexists. exists hx, hy. split; [reflexivity|]. cbn [x y].
  auto.
Qed.

Lemma enter_state_fields (player : Player.t) (g : t) :
  state (enter_state player g) = fst (fst (next_state player g)) /\
  chase_timer (enter_state player g) = snd (fst (next_state player g)) /\
  _player_ref (enter_state player g) = Some player /\
  patrol_points (enter_state player g) = patrol_points g /\
  current_patrol_target (enter_state player g) = current_patrol_target g /\
  x (enter_state player g) = x g /\ y (enter_state player g) = y g /\
  vx (enter_state player g) = vx g /\ vy (enter_state player g) = vy g.
Proof.
  unfold enter_state. destruct (next_state player g) as [[s tm] b]. simpl. tauto.
Qed.

(** The movement block returns on a ghost whose index points into its
    route, and keeps the state, the route and that property. *)
Lemma move_ok (player : Player.t) (g : t) :
  route_ok g -> _player_ref g = Some player ->
  exists g',
    move player g = Ok g' /\ state g' = state g /\
    patrol_points g' = patrol_points g /\ route_ok g'.
Proof.
  intros Hroute Href. unfold move. destruct (state g) eqn:Es.
  - destruct (_patrol_ok Hroute Href) as (tx & ty & _ & Hp). rewrite Hp.
    eexists. split; [reflexivity|].
    destruct (Rlt_dec (magnitude (tx - x g) (ty - y g)) 10); simpl;
      (split; [exact Es|]); (split; [reflexivity|]); unfold route_ok; simpl.
    + apply Z.mod_pos_bound. unfold route_ok in Hroute. lia.
    + exact Hroute.
  - destruct (_chase_player_ok player g) as (a & b & H). rewrite H.
    eexists. split; [reflexivity|]. simpl. auto.
  - destruct (_return_to_start_ok g Href) as (a & b & H). rewrite H.
    eexists. split; [reflexivity|]. simpl. auto.
Qed.

Lemma route_ok_enter_state (player : Player.t) (g : t) :
  route_ok g -> route_ok (enter_state player g).
Proof.
  intros H. unfold route_ok.
  destruct (enter_state_fields player g) as (_ & _ & _ & Hp & Hc & _).
  now rewrite Hp, Hc.
Qed.

(** One tick of a ghost whose index points into its route, on a
    well-shaped map. *)
Lemma ghost_update_ok (player : Player.t) (tm : TileMap.t) (g : t) :
  TileMap.wf tm -> route_ok g ->
  exists g',
    update player tm g = Ok (g', snd (next_state player g)) /\
    state g' = fst (fst (next_state player g)) /\
    route_ok g'.
Proof.
  intros Hwf Hroute. unfold update.
  destruct (enter_state_fields player g) as (Hs & _ & Href & _).
  destruct (move_ok (route_ok_enter_state player Hroute) Href)
    as (g1 & Hm & Hs1 & Hp1 & Hr1).
  rewrite Hm. cbn [bind].
  destruct (apply_movement_ok g1 Hwf) as (g2 & Ha & _ & _ & Hs2 & Hp2 & Hc2 & _).
  rewrite Ha. cbn [bind]. exists g2. split; [reflexivity|].
  split; [congruence|].
  unfold route_ok in *. now rewrite Hp2, Hc2.
Qed.

Lemma reachable_route_ok (g : t) : GhostReachable g -> route_ok g.
Proof.
  induction 1 as [x0 y0 points | g g' player tm b Hreach IH Hwf Hup
                 | g Hreach IH | g r Hreach IH].
  - unfold route_ok, init. destruct points as [[|pt l]|]; simpl; lia.
  - destruct (ghost_update_ok player Hwf IH) as (g2 & Hu & _ & Hr).
    rewrite Hu in Hup. now injection Hup as <- _.
  - exact IH.
  - exact IH.
Qed.

(** C10.  [Ghost.update] never raises [ZeroDivisionError], whatever the
    ghost, the player and the map: each division in the chase, return
    and patrol branches has a divisor its guard makes strictly
    positive.  On every ghost whose waypoint index lies inside its
    route, for every player and every well-shaped map, the call returns
    a new ghost state with the index still inside.  Every reachable
    ghost is such a ghost -- built by the constructor, updated, frozen
    or given another radius from outside, as the boss is -- and its
    update is reachable again. *)
Theorem ghost_update_total :
  (forall (player : Player.t) (tm : TileMap.t) (g : t),
     update player tm g <> Raise ZeroDivisionError) /\
  (forall (player : Player.t) (tm : TileMap.t) (g : t),
     route_ok g -> TileMap.wf tm ->
     exists g' started,
       update player tm g = Ok (g', started) /\ route_ok g') /\
  (forall (g : t),
     GhostReachable g ->
     route_ok g /\
     forall (player : Player.t) (tm : TileMap.t),
       TileMap.wf tm ->
       exists g' started,
         update player tm g = Ok (g', started) /\ GhostReachable g').
Proof.
  split; [|split].
  - intros player tm g. unfold update. cbv zeta.
    apply bind_no_zero_division; [apply move_no_zero_division|].
    intros g1 _.
    apply bind_no_zero_division; [apply apply_movement_no_zero_division|].
    discriminate.
  - intros player tm g Hroute Hwf.
    destruct (ghost_update_ok player Hwf Hroute) as (g' & Hu & _ & Hroute').
    exists g', (snd (next_state player g)). split; [exact Hu|exact Hroute'].
  - intros g Hreach. split; [now apply reachable_route_ok|].
    intros player tm Hwf.
    destruct (ghost_update_ok player Hwf (reachable_route_ok Hreach)) as (g' & Hu & _).
    exists g', (snd (next_state player g)). split; [exact Hu|].
    exact (reach_update player Hreach Hwf Hu).
Qed.

Lemma ghost_update_total_witness :
  (exists g' started,
     update (Player.init 100 100) (TileMap.init 30 20) distant_ghost
     = Ok (g', started) /\ route_ok g') /\
  (exists g1 started1 g2 started2,
     update (Player.init 100 100) (TileMap.init 30 20) cemetery_boss
     = Ok (g1, started1) /\
     update (Player.init 100 100) (TileMap.init 30 20) g1 = Ok (g2, started2) /\
     GhostReachable g2).
Proof.
  destruct ghost_update_total as (_ & Hroute & Hreach).
  split.
  - apply (Hroute (Player.init 100 100) (TileMap.init 30 20) distant_ghost).
    + unfold route_ok, distant_ghost. simpl. lia.
    + apply init_wf.
  - assert (Hboss : GhostReachable cemetery_boss)
      by (apply reach_set_radius, reach_init).
    destruct (proj2 (Hreach cemetery_boss Hboss) (Player.init 100 100)
                    (TileMap.init 30 20) (init_wf 30 20))
      as (g1 & started1 & Hu1 & Hreach1).
    destruct (proj2 (Hreach g1 Hreach1) (Player.init 100 100)
                    (TileMap.init 30 20) (init_wf 30 20))
      as (g2 & started2 & Hu2 & Hreach2).
    exists g1, started1, g2, started2. auto.
Defined.

End GhostTotality.

(** ** The ghost: detection and patrol *)
Section GhostBehaviour.

Import Ghost.

Local Open Scope R_scope.

Lemma detects_dec (player : Player.t) (g : t) :
  {detects player g} + {~ detects player g}.
Proof.
  unfold detects.
  match goal with |- context [?d <= GHOST_DETECTION_RADIUS] =>
    destruct (Rle_dec d GHOST_DETECTION_RADIUS) as [Hd|Hd] end.
  - destruct (Player.invisibility_active player).
    + right. intros [_ H]. discriminate.
    + left. auto.
  - right. tauto.
Qed.

(** The state block on a patrolling ghost. *)
Lemma next_state_patrol (player : Player.t) (g : t) :
  state g = Patrol ->
  (detects player g -> next_state player g = (Chase, 300%Z, true)) /\
  (~ detects player g -> next_state player g = (Patrol, chase_timer g, false)).
Proof.
  intros Hs. unfold next_state, detects. rewrite Hs. cbv zeta.
  match goal with |- context [Rle_dec ?d ?r] => destruct (Rle_dec d r) as [Hd|Hd] end.
  - destruct (Player.invisibility_active player); simpl; split.
    + intros [_ H]. discriminate.
    + reflexivity.
    + reflexivity.
    + intros H. exfalso. apply H. auto.
  - split; [intros [H _]; contradiction|reflexivity].
Qed.

(** The flag is raised by the patrol branch alone. *)
Lemma next_state_quiet (player : Player.t) (g : t) :
  state g <> Patrol -> snd (next_state player g) = false.
Proof.
  intros Hs. unfold next_state. cbv zeta. destruct (state g).
  - contradiction.
  - destruct (chase_timer g - 1 <=? 0)%Z; [reflexivity|].
    match goal with |- context [Rlt_dec ?a ?b] => destruct (Rlt_dec a b) end; reflexivity.
  - match goal with |- context [Rlt_dec ?a ?b] => destruct (Rlt_dec a b) end; reflexivity.
Qed.

Lemma next_state_never_enters_chase (player : Player.t) (g : t) :
  state g <> Patrol -> state g <> Chase ->
  fst (fst (next_state player g)) <> Chase.
Proof.
  intros Hp Hc. unfold next_state. cbv zeta. destruct (state g); try contradiction.
  match goal with |- context [Rlt_dec ?a ?b] => destruct (Rlt_dec a b) end; discriminate.
Qed.

(** C4.  One [update] of a ghost (index within its route, well-shaped
    map) returns; if the ghost was in Patrol, it is in Chase afterwards
    exactly when the player is within [GHOST_DETECTION_RADIUS] and the
    player's invisibility is not active, and it is still in Patrol
    otherwise; the returned started-chasing flag is true exactly when
    the ghost was in Patrol and made that transition, so it is false on
    every tick that begins in Chase or Return, and a ghost in Return
    never enters Chase. *)
Theorem ghost_chase_transition (player : Player.t) (tm : TileMap.t) (g : t) :
  TileMap.wf tm -> route_ok g ->
  exists g' started,
    update player tm g = Ok (g', started) /\
    (state g = Patrol ->
     (state g' = Chase <-> detects player g) /\
     (state g' = Patrol <-> ~ detects player g)) /\
    (started = true <-> state g = Patrol /\ detects player g) /\
    (state g = Return -> state g' <> Chase).
Proof.
  intros Hwf Hroute.
  destruct (ghost_update_ok player Hwf Hroute) as (g' & Hu & Hs & _).
  exists g', (snd (next_state player g)). split; [exact Hu|].
  rewrite Hs. split; [|split].
  - intros Hp. destruct (@next_state_patrol player g Hp) as [Hyes Hno].
    destruct (detects_dec player g) as [Hd|Hd].
    + rewrite (Hyes Hd). simpl. split; split; try tauto; discriminate.
    + rewrite (Hno Hd). simpl. split; split; try tauto; discriminate.
  - split.
    + intros Hst.
      assert (Hp : state g = Patrol).
      { destruct (state g) eqn:E; [reflexivity| |];
          rewrite next_state_quiet in Hst by congruence; discriminate. }
      split; [exact Hp|].
      destruct (detects_dec player g) as [Hd|Hd]; [exact Hd|].
      destruct (@next_state_patrol player g Hp) as [_ Hno].
      rewrite (Hno Hd) in Hst. discriminate.
    + intros [Hp Hd]. destruct (@next_state_patrol player g Hp) as [Hyes _].
      now rewrite (Hyes Hd).
  - intros Hr. apply next_state_never_enters_chase; congruence.
Qed.

Lemma ghost_chase_transition_witness :
  exists g' started,
    update (Player.init 100 100) (TileMap.init 30 20) (init 200 200 None)
    = Ok (g', started) /\
    state g' = Patrol /\ started = false.
Proof.
  assert (Hroute : route_ok (init 200 200 None)) by (unfold route_ok; simpl; lia).
  assert (Hfar : ~ detects (Player.init 100 100) (init 200 200 None)).
  { intros [Hd _]. simpl in Hd. unfold GHOST_DETECTION_RADIUS in Hd.
    match type of Hd with
    | sqrt ?s <= _ => assert (H : 140 <= sqrt s) by (apply sqrt_lower_bound; lra)
    end.
    lra. }
  destruct (@ghost_chase_transition (Player.init 100 100) (TileMap.init 30 20)
              (init 200 200 None) (init_wf 30 20) Hroute)
    as (g' & started & Hu & Hpatrol & Hstarted & _).
  exists g', started. split; [exact Hu|]. split.
  - apply (Hpatrol eq_refl). exact Hfar.
  - destruct started; [|reflexivity].
    exfalso. apply Hfar. apply Hstarted. reflexivity.
Defined.

(** One tick of a ghost that stays in Patrol: close to its waypoint it
    moves the index on and keeps its velocity, otherwise it aims at the
    waypoint with the base speed scaled by the time-slow factor; then
    each axis moves by the velocity unless [_check_wall_collision]
    finds the tile it would enter solid. *)
Lemma patrol_tick (player : Player.t) (tm : TileMap.t) (g : t) :
  TileMap.wf tm -> route_ok g -> state g = Patrol -> ~ detects player g ->
  exists tx ty g' started hx hy,
    py_get (patrol_points g) (current_patrol_target g) = Ok (tx, ty) /\
    update player tm g = Ok (g', started) /\
    state g' = Patrol /\
    _check_wall_collision (x g + vx g') (y g) tm = Ok hx /\
    x g' = (if hx then x g else x g + vx g') /\
    _check_wall_collision (x g') (y g + vy g') tm = Ok hy /\
    y g' = (if hy then y g else y g + vy g') /\
    (10 <= magnitude (tx - x g) (ty - y g) ->
     vx g' = (tx - x g) / magnitude (tx - x g) (ty - y g)
             * (GHOST_SPEED * time_slow_factor player) /\
     vy g' = (ty - y g) / magnitude (tx - x g) (ty - y g)
             * (GHOST_SPEED * time_slow_factor player) /\
     current_patrol_target g' = current_patrol_target g) /\
    (magnitude (tx - x g) (ty - y g) < 10 ->
     current_patrol_target g' =
       ((current_patrol_target g + 1) mod Z.of_nat (length (patrol_points g)))%Z /\
     vx g' = vx g /\ vy g' = vy g).
Proof.
  intros Hwf Hroute Hp Hnd.
  destruct (@next_state_patrol player g Hp) as [_ Hno]. specialize (Hno Hnd).
  destruct (enter_state_fields player g)
    as (Hs & _ & Href & Hpts & Hcur & Hx & Hy & Hvx & Hvy).
  rewrite Hno in Hs. simpl in Hs.
  destruct (_patrol_ok (route_ok_enter_state player Hroute) Href)
    as (tx & ty & Hget & Hpat).
  rewrite Hpts, Hcur in Hget. rewrite Hpts, Hcur, Hx, Hy in Hpat.
  assert (Hmove : move player (enter_state player g) = _patrol (enter_state player g)).
  { unfold move. now rewrite Hs. }
  unfold update. rewrite Hmove, Hpat. cbn [bind].
  match goal with
  | |- context [apply_movement tm ?q] =>
      destruct (apply_movement_ok q Hwf)
        as (g' & Ha & Hvx' & Hvy' & Hs' & _ & Hc' & _ & _ & _);
      destruct (apply_movement_axes q Hwf)
        as (g'' & hx & hy & Ha' & Hcx & Hxx & Hcy & Hyy)
  end.
  rewrite Ha in Ha'. injection Ha' as <-.
  exists tx, ty, g', (snd (next_state player g)), hx, hy.
  split; [exact Hget|]. rewrite Ha. cbn [bind]. split; [reflexivity|].
  rewrite <- Hvx' in Hcx, Hxx. rewrite <- Hvy' in Hcy, Hyy.
  destruct (Rlt_dec (magnitude (tx - x g) (ty - y g)) 10) as [Hd|Hd];
    cbn [x y set_current_patrol_target set_velocity] in Hcx, Hxx, Hcy, Hyy;
    simpl in Hvx', Hvy', Hs', Hc';
    rewrite Hx in Hcx, Hxx; rewrite Hy in Hcx, Hcy, Hyy.
  - split; [congruence|].
    split; [exact Hcx|]. split; [exact Hxx|]. split; [exact Hcy|]. split; [exact Hyy|].
    split; [intros; lra|].
    intros _. rewrite Hc', Hvx', Hvy'. auto.
  - split; [congruence|].
    split; [exact Hcx|]. split; [exact Hxx|]. split; [exact Hcy|]. split; [exact Hyy|].
    split; [|intros; lra].
    intros _. rewrite Hc', Hvx', Hvy'. auto.
Qed.

Lemma time_slow_factor_nonneg (player : Player.t) : 0 <= time_slow_factor player.
Proof. unfold time_slow_factor. destruct (Player.time_slow_active player); lra. Qed.

(** C5, as the code has it.  A ghost in Patrol that does not switch to
    Chase on this tick and whose current waypoint is at distance 10 or
    more leaves [update] with its velocity pointing at the waypoint and
    of magnitude [GHOST_SPEED] times 0.4 when the player's time-slow
    flag is up, times 1 otherwise; at distance below 10 it keeps its
    velocity and moves the waypoint index on by one modulo the route
    length.  Either way the x coordinate advances by the velocity
    unless the tile it would enter is solid, and then it stays; the y
    coordinate likewise, from the x reached. *)
Theorem patrol_step (player : Player.t) (tm : TileMap.t) (g : t) :
  TileMap.wf tm -> route_ok g -> state g = Patrol -> ~ detects player g ->
  exists tx ty g' started solid_x solid_y,
    py_get (patrol_points g) (current_patrol_target g) = Ok (tx, ty) /\
    update player tm g = Ok (g', started) /\
    state g' = Patrol /\
    TileMap.is_solid_tile tm (py_floordiv (x g + vx g') TILE_SIZE)
                             (py_floordiv (y g) TILE_SIZE) = Ok solid_x /\
    x g' = (if solid_x then x g else x g + vx g') /\
    TileMap.is_solid_tile tm (py_floordiv (x g') TILE_SIZE)
                             (py_floordiv (y g + vy g') TILE_SIZE) = Ok solid_y /\
    y g' = (if solid_y then y g else y g + vy g') /\
    (10 <= magnitude (tx - x g) (ty - y g) ->
     vx g' = (tx - x g) * (GHOST_SPEED * time_slow_factor player
                           / magnitude (tx - x g) (ty - y g)) /\
     vy g' = (ty - y g) * (GHOST_SPEED * time_slow_factor player
                           / magnitude (tx - x g) (ty - y g)) /\
     0 <= GHOST_SPEED * time_slow_factor player / magnitude (tx - x g) (ty - y g) /\
     magnitude (vx g') (vy g') = GHOST_SPEED * time_slow_factor player /\
     current_patrol_target g' = current_patrol_target g) /\
    (magnitude (tx - x g) (ty - y g) < 10 ->
     current_patrol_target g' =
       ((current_patrol_target g + 1) mod Z.of_nat (length (patrol_points g)))%Z /\
     vx g' = vx g /\ vy g' = vy g).
Proof.
  intros Hwf Hroute Hp Hnd.
  destruct (@patrol_tick player tm g Hwf Hroute Hp Hnd)
    as (tx & ty & g' & started & hx & hy & Hget & Hu & Hs
        & Hcx & Hxx & Hcy & Hyy & Hfar & Hnear).
  exists tx, ty, g', started, hx, hy.
  split; [exact Hget|]. split; [exact Hu|]. split; [exact Hs|].
  split; [exact Hcx|]. split; [exact Hxx|].
  split; [exact Hcy|]. split; [exact Hyy|].
  split; [|exact Hnear].
  intros Hd. destruct (Hfar Hd) as (Hvx & Hvy & Hc).
  pose proof (time_slow_factor_nonneg player) as Hf.
  assert (Hspeed : 0 <= GHOST_SPEED * time_slow_factor player)
    by (unfold GHOST_SPEED; nra).
  split; [rewrite Hvx; field; lra|].
  split; [rewrite Hvy; field; lra|].
  split.
  - apply Rmult_le_pos; [exact Hspeed|].
    apply Rlt_le, Rinv_0_lt_compat. lra.
  - split; [|exact Hc].
    rewrite Hvx, Hvy. apply magnitude_rescaled; [lra|exact Hspeed].
Qed.

Lemma patrol_ghost_setting :
  TileMap.wf (TileMap.init 30 20) /\ route_ok patrol_ghost /\
  state patrol_ghost = Patrol /\ ~ detects slowed_player patrol_ghost /\
  py_get (patrol_points patrol_ghost) (current_patrol_target patrol_ghost)
  = Ok (120, 100) /\
  10 <= magnitude (120 - x patrol_ghost) (100 - y patrol_ghost).
Proof.
  split; [apply init_wf|].
  split; [unfold route_ok; simpl; lia|].
  split; [reflexivity|].
  split; [|split; [reflexivity|]].
  - intros [Hd _]. simpl in Hd. unfold GHOST_DETECTION_RADIUS in Hd.
    match type of Hd with
    | sqrt ?s <= _ => assert (H : 700 <= sqrt s) by (apply sqrt_lower_bound; lra)
    end.
    lra.
  - simpl. unfold magnitude. apply sqrt_lower_bound; lra.
Qed.

Lemma component_le_magnitude (a b : R) :
  - magnitude a b <= a <= magnitude a b.
Proof.
  pose proof (magnitude_sqr a b) as Hm.
  pose proof (magnitude_nonneg a b) as Hp.
  split; nra.
Qed.

Lemma patrol_step_witness :
  exists g' started,
    update slowed_player (TileMap.init 30 20) patrol_ghost = Ok (g', started) /\
    state g' = Patrol /\
    magnitude (vx g') (vy g') = GHOST_SPEED * time_slow_factor slowed_player /\
    x g' = x patrol_ghost + vx g'.
Proof.
  destruct patrol_ghost_setting as (Hwf & Hroute & Hp & Hnd & Hget & Hd).
  destruct (@patrol_step slowed_player _ patrol_ghost Hwf Hroute Hp Hnd)
    as (tx & ty & g' & started & solid_x & solid_y & Hget' & Hu & Hs
        & Hcx & Hxx & _ & _ & Hfar & _).
  rewrite Hget in Hget'. injection Hget' as <- <-.
  exists g', started. split; [exact Hu|]. split; [exact Hs|].
  destruct (Hfar Hd) as (_ & _ & _ & Hm & _).
  split; [exact Hm|].
  assert (Hsmall : - (3 / 5) <= vx g' <= 3 / 5).
  { pose proof (component_le_magnitude (vx g') (vy g')) as Hc.
    rewrite Hm in Hc. unfold GHOST_SPEED, time_slow_factor in Hc.
    cbn [slowed_player Player.time_slow_active] in Hc. lra. }
  assert (Hcol : py_floordiv (x patrol_ghost + vx g') TILE_SIZE = 3%Z).
  { unfold py_floordiv, TILE_SIZE, patrol_ghost. cbn [init x].
    apply Zfloor_eq. lra. }
  assert (Hrow : py_floordiv (y patrol_ghost) TILE_SIZE = 3%Z).
  { unfold py_floordiv, TILE_SIZE, patrol_ghost. cbn [init y].
    apply Zfloor_eq. lra. }
  rewrite Hcol, Hrow in Hcx.
  assert (Hfree : solid_x = false).
  { assert (H : TileMap.is_solid_tile (TileMap.init 30 20) 3 3 = Ok false)
      by reflexivity.
    rewrite H in Hcx. now injection Hcx as <-. }
  rewrite Hfree in Hxx. exact Hxx.
Defined.

(** C5, refuted as stated: a patrolling ghost twenty pixels from its
    waypoint, ticked against a far-away player whose time-slow flag is
    up, leaves [update] at speed 0.6, not [GHOST_SPEED]. *)
Lemma slowed_patrol_speed :
  state patrol_ghost = Patrol /\
  py_get (patrol_points patrol_ghost) (current_patrol_target patrol_ghost)
  = Ok (120, 100) /\
  10 <= magnitude (120 - x patrol_ghost) (100 - y patrol_ghost) /\
  exists g' started,
    update slowed_player (TileMap.init 30 20) patrol_ghost = Ok (g', started) /\
    state g' = Patrol /\
    magnitude (vx g') (vy g') = 3 / 5 /\
    magnitude (vx g') (vy g') <> GHOST_SPEED.
Proof.
  destruct patrol_ghost_setting as (Hwf & Hroute & Hp & Hnd & Hget & Hd).
  split; [exact Hp|]. split; [exact Hget|]. split; [exact Hd|].
  destruct (@patrol_tick slowed_player _ patrol_ghost Hwf Hroute Hp Hnd)
    as (tx & ty & g' & started & hx & hy & Hget' & Hu & Hs
        & _ & _ & _ & _ & Hfar & _).
  rewrite Hget in Hget'. injection Hget' as <- <-.
  destruct (Hfar Hd) as (Hvx & Hvy & _).
  exists g', started. split; [exact Hu|]. split; [exact Hs|].
  assert (Hm : magnitude (vx g') (vy g') = 3 / 5).
  { rewrite Hvx, Hvy. rewrite magnitude_rescaled.
    - unfold GHOST_SPEED, time_slow_factor. simpl. lra.
    - lra.
    - unfold GHOST_SPEED, time_slow_factor. simpl. lra. }
  split; [exact Hm|]. rewrite Hm. unfold GHOST_SPEED. lra.
Qed.

End GhostBehaviour.

(** ** Candy *)
Section CandyFacts.

Import Candy.

Lemma collect_sets_flag (player : Player.t) (g : Random.t) (c : t) :
  collected (fst (fst (fst (collect player g c)))) = true.
Proof.
  unfold collect. destruct (collected c) eqn:E; simpl; [exact E|].
  destruct (pickup_particles 8 (x c) (y c) [] g). reflexivity.
Qed.

(** C8.  [collect] on a candy whose [collected] flag is set returns the
    candy and the player exactly as they were (candy counter, score,
    health and power-ups included), no particles, and draws nothing
    from the generator; every [collect] leaves the flag set, so this is
    what any second call does. *)
Theorem collect_idempotent :
  (forall (player : Player.t) (g : Random.t) (c : t),
     collected c = true -> collect player g c = (c, player, [], g)) /\
  (forall (player1 player2 : Player.t) (g1 g2 : Random.t) (c : t),
     let c1 := fst (fst (fst (collect player1 g1 c))) in
     collect player2 g2 c1 = (c1, player2, [], g2)).
Proof.
  assert (H : forall player g c,
             collected c = true -> collect player g c = (c, player, [], g)).
  { intros player g c Hc. unfold collect. now rewrite Hc. }
  split; [exact H|].
  intros player1 player2 g1 g2 c c1. apply H. apply collect_sets_flag.
Qed.

Lemma collect_idempotent_witness :
  collect (Player.init 0 0) (Random.mk (fun _ => 0%R) (fun _ => 0%nat))
          (mk 10 10 "bonus" 25 true 6 0)
  = (mk 10 10 "bonus" 25 true 6 0, Player.init 0 0, [],
     Random.mk (fun _ => 0%R) (fun _ => 0%nat)).
Proof.
  destruct collect_idempotent as [H _]. apply H. reflexivity.
Defined.

End CandyFacts.

(** ** The church puzzle *)
Section PuzzleFacts.

Import ChurchPuzzle.

Lemma nth_error_list_set_same {A : Type} (l : list A) (k : nat) (v : A) :
  (k < length l)%nat -> nth_error (list_set l k v) k = Some v.
Proof.
  revert k. induction l as [|h t IH]; intros [|k] Hk; simpl in *; try lia.
  - reflexivity.
  - apply IH. lia.
Qed.

Lemma nth_error_list_set_other {A : Type} (l : list A) (k j : nat) (v : A) :
  j <> k -> nth_error (list_set l k v) j = nth_error l j.
Proof.
  revert k j. induction l as [|h t IH]; intros [|k] [|j] Hne; simpl; auto.
  - contradiction.
Qed.

Lemma list_set_perm {A : Type} (l : list A) (k : nat) (b h : A) :
  nth_error l k = Some b -> Permutation (b :: list_set l k h) (h :: l).
Proof.
  revert k. induction l as [|c l IH]; intros [|k] Hk; simpl in *; try discriminate.
  - injection Hk as ->. apply perm_swap.
  - apply perm_trans with (c :: b :: list_set l k h); [apply perm_swap|].
    apply perm_trans with (c :: h :: l); [|apply perm_swap].
    apply perm_skip. now apply IH.
Qed.

Lemma list_set_same {A : Type} (l : list A) (k : nat) (a : A) :
  nth_error l k = Some a -> list_set l k a = l.
Proof.
  revert k. induction l as [|c l IH]; intros [|k] Hk; simpl in *; try discriminate.
  - now injection Hk as ->.
  - f_equal. now apply IH.
Qed.

Lemma swap_perm {A : Type} (l : list A) (i j : nat) :
  Permutation (Random.swap l i j) l.
Proof.
  unfold Random.swap. revert i j.
  induction l as [|h t IH]; intros i j.
  - destruct i, j; reflexivity.
  - destruct i as [|i], j as [|j]; simpl.
    + reflexivity.
    + destruct (nth_error t j) as [b|] eqn:Ej; [|reflexivity].
      simpl. now apply list_set_perm.
    + destruct (nth_error t i) as [a|] eqn:Ei; [|reflexivity].
      simpl. now apply list_set_perm.
    + specialize (IH i j).
      destruct (nth_error t i) as [a|], (nth_error t j) as [b|];
        try reflexivity.
      simpl. now apply perm_skip.
Qed.

Lemma swap_length {A : Type} (l : list A) (i j : nat) :
  length (Random.swap l i j) = length l.
Proof. apply Permutation_length, swap_perm. Qed.

Lemma shuffle_from_perm {A : Type} (n : nat) (l : list A) (g : Random.t) :
  Permutation (fst (Random.shuffle_from n l g)) l.
Proof.
  revert l g. induction n as [|n IH]; intros l g; simpl; [reflexivity|].
  eapply perm_trans; [apply IH|apply swap_perm].
Qed.

(** [random.shuffle] rearranges, it neither drops nor adds. *)
Lemma shuffle_perm {A : Type} (l : list A) (g : Random.t) :
  Permutation (fst (Random.shuffle l g)) l.
Proof. apply shuffle_from_perm. Qed.

(** The tuple swap inside the cursor range. *)
Lemma swap_items_ok (l : list string) (i j : Z) :
  (0 <= i < Z.of_nat (length l))%Z -> (0 <= j < Z.of_nat (length l))%Z ->
  swap_items l i j = Ok (Random.swap l (Z.to_nat i) (Z.to_nat j)).
Proof.
  intros Hi Hj. unfold swap_items, Random.swap.
  destruct (py_get_in_range l Hj) as [a [Ha Hna]].
  destruct (py_get_in_range l Hi) as [b [Hb Hnb]].
  rewrite Ha, Hb, Hna, Hnb. cbn [bind].
  rewrite (py_set_in_range l a Hi). cbn [bind].
  apply py_set_in_range. now rewrite list_set_length.
Qed.

(** The key handling returns, rearranges the order at most, and keeps
    the cursor on a symbol; without a left or right key it changes
    nothing. *)
Lemma move_selected_ok (keys_pressed : Keys) (puzzle : t) :
  cursor_ok puzzle ->
  exists order sel,
    move_selected keys_pressed puzzle = Ok (order, sel) /\
    Permutation order (current_order puzzle) /\
    (0 <= sel < Z.of_nat (length order))%Z /\
    (K_a keys_pressed || K_LEFT keys_pressed
     || (K_d keys_pressed || K_RIGHT keys_pressed) = false ->
     order = current_order puzzle /\ sel = selected_symbol puzzle).
Proof.
  intros Hc. unfold cursor_ok in Hc. unfold move_selected. cbv zeta.
  destruct (K_a keys_pressed || K_LEFT keys_pressed) eqn:Eleft.
  - destruct (0 <? selected_symbol puzzle)%Z eqn:E0.
    + apply Z.ltb_lt in E0. rewrite swap_items_ok by lia. cbn [bind].
      do 2 eexists. split; [reflexivity|].
      split; [apply swap_perm|]. rewrite swap_length.
      split; [lia|discriminate].
    + do 2 eexists. split; [reflexivity|]. split; [reflexivity|].
      split; [exact Hc|discriminate].
  - destruct (K_d keys_pressed || K_RIGHT keys_pressed) eqn:Eright.
    + destruct (selected_symbol puzzle <? Z.of_nat (length (current_order puzzle)) - 1)%Z
        eqn:E1.
      * apply Z.ltb_lt in E1. rewrite swap_items_ok by lia. cbn [bind].
        do 2 eexists. split; [reflexivity|].
        split; [apply swap_perm|]. rewrite swap_length.
        split; [lia|discriminate].
      * do 2 eexists. split; [reflexivity|]. split; [reflexivity|].
        split; [exact Hc|discriminate].
    + do 2 eexists. split; [reflexivity|]. split; [reflexivity|].
      split; [exact Hc|auto].
Qed.

Lemma order_eqb_true (a b : list string) : order_eqb a b = true <-> a = b.
Proof.
  unfold order_eqb. destruct (list_eq_dec string_dec a b); split; auto; discriminate.
Qed.

(** A completed puzzle ignores every further call. *)
Lemma completed_stays (ops : list PuzzleOp) (puzzle : t) (g : Random.t) :
  completed puzzle = true ->
  exists st',
    run_puzzle_ops ops (puzzle, g) = Ok st' /\ completed (fst st') = true.
Proof.
  revert puzzle g. induction ops as [|op ops IH]; intros puzzle g Hc.
  - exists (puzzle, g). auto.
  - cbn [run_puzzle_ops run_puzzle_op]. destruct op as [player|keys_pressed space_pressed].
    + cbn [bind]. apply IH. unfold interact. cbv zeta.
      match goal with |- context [Rlt_dec ?a ?b] => destruct (Rlt_dec a b) end;
        [exact Hc|]. rewrite Hc. exact Hc.
    + unfold handle_input. rewrite Hc, orb_true_r. cbn [bind]. now apply IH.
Qed.

Lemma list_set_app_l {A : Type} (pre post : list A) (k : nat) (v : A) :
  (k < length pre)%nat -> list_set (pre ++ post) k v = list_set pre k v ++ post.
Proof.
  revert k. induction pre as [|h t IH]; intros [|k] Hk; simpl in *; try lia.
  - reflexivity.
  - f_equal. apply IH. lia.
Qed.

Lemma swap_app_l {A : Type} (pre post : list A) (i j : nat) :
  (i < length pre)%nat -> (j < length pre)%nat ->
  Random.swap (pre ++ post) i j = Random.swap pre i j ++ post.
Proof.
  intros Hi Hj. unfold Random.swap.
  rewrite !nth_error_app1 by assumption.
  destruct (nth_error pre i) as [a|] eqn:Ei; [|apply nth_error_None in Ei; lia].
  destruct (nth_error pre j) as [b|] eqn:Ej; [|apply nth_error_None in Ej; lia].
  rewrite list_set_app_l by assumption.
  rewrite list_set_app_l by (rewrite list_set_length; assumption).
  reflexivity.
Qed.

(** Swapping the last place with place [j] brings the element of place
    [j] to the end. *)
Lemma swap_last {A : Type} (pre : list A) (n j : nat) (z : A) :
  length pre = S n -> nth_error pre j = Some z ->
  exists pre1, Random.swap pre n j = pre1 ++ [z] /\ length pre1 = n.
Proof.
  intros Hlen Hj.
  assert (Hjn : (j < S n)%nat) by (rewrite <- Hlen; apply nth_error_Some; congruence).
  assert (Hz : nth_error (Random.swap pre n j) n = Some z).
  { unfold Random.swap.
    destruct (nth_error pre n) as [a|] eqn:En; [|apply nth_error_None in En; lia].
    rewrite Hj. destruct (Nat.eq_dec j n) as [->|Hne].
    - rewrite En in Hj. injection Hj as ->.
      apply nth_error_list_set_same. rewrite list_set_length. lia.
    - rewrite nth_error_list_set_other by auto.
      apply nth_error_list_set_same. lia. }
  pose proof (swap_length pre n j) as Hl.
  destruct (exists_last (l := Random.swap pre n j)) as (pre1 & w & Hr).
  { intros E. rewrite E in Hl. simpl in Hl. lia. }
  rewrite Hr in Hl, Hz. rewrite length_app in Hl. simpl in Hl.
  assert (Hl1 : length pre1 = n) by lia.
  rewrite nth_error_app2 in Hz by lia.
  rewrite Hl1, Nat.sub_diag in Hz. simpl in Hz. injection Hz as ->.
  exists pre1. split; [exact Hr|exact Hl1].
Qed.

(** The shuffle loop reaches every rearrangement of the places it works
    on, for suitable draws, and leaves the places behind them alone. *)
Lemma shuffle_from_onto {A : Type} (n : nat) (pre q post : list A) :
  length pre = S n -> Permutation q pre ->
  exists draws, forall floats,
    fst (Random.shuffle_from n (pre ++ post) (Random.mk floats draws)) = q ++ post.
Proof.
  revert pre q post. induction n as [|n IH]; intros pre q post Hlen Hperm.
  - exists (fun _ => 0%nat). intros floats. cbn [Random.shuffle_from fst].
    destruct pre as [|a [|b pre]]; simpl in Hlen; try lia.
    apply Permutation_sym, Permutation_length_1_inv in Hperm. now subst.
  - assert (Hq : length q = S (S n)) by (rewrite (Permutation_length Hperm); exact Hlen).
    destruct (exists_last (l := q)) as (q' & z & ->).
    { intros ->. discriminate. }
    assert (Hin : In z pre).
    { apply (Permutation_in z Hperm). apply in_or_app. right. now left. }
    apply In_nth_error in Hin. destruct Hin as [j Hj].
    assert (Hjn : (j < S (S n))%nat)
      by (rewrite <- Hlen; apply nth_error_Some; congruence).
    destruct (@swap_last A pre (S n) j z Hlen Hj) as (pre1 & Hsw & Hl1).
    assert (Hperm1 : Permutation q' pre1).
    { pose proof (swap_perm pre (S n) j) as Hp. rewrite Hsw in Hp.
      apply Permutation_app_inv_r with (l := [z]).
      eapply perm_trans; [exact Hperm|]. symmetry. exact Hp. }
    destruct (IH pre1 q' (z :: post) Hl1 Hperm1) as [draws Hdraws].
    exists (fun k => match k with O => j | S k' => draws k' end).
    intros floats. cbn [Random.shuffle_from].
    unfold Random.randbelow. cbn [Random.ints Random.floats].
    rewrite Nat.mod_small by lia.
    rewrite swap_app_l by lia. rewrite Hsw.
    rewrite <- !app_assoc. cbn [app].
    exact (Hdraws floats).
Qed.

(** [random.shuffle] can return every rearrangement of its list. *)
Lemma shuffle_onto {A : Type} (l q : list A) :
  Permutation q l ->
  exists draws, forall floats, fst (Random.shuffle l (Random.mk floats draws)) = q.
Proof.
  intros Hperm. unfold Random.shuffle.
  destruct l as [|a l].
  - apply Permutation_sym, Permutation_nil in Hperm. subst.
    exists (fun _ => 0%nat). reflexivity.
  - destruct (@shuffle_from_onto A (length l) (a :: l) q [] eq_refl Hperm)
      as [draws Hdraws].
    exists draws. intros floats. specialize (Hdraws floats).
    rewrite !app_nil_r in Hdraws.
    cbn [length]. rewrite Nat.sub_succ, Nat.sub_0_r. exact Hdraws.
Qed.

(** The order [handle_input] judges: the current order after the left
    or right move of the same call. *)
Lemma move_selected_explicit (keys_pressed : Keys) (puzzle : t) :
  cursor_ok puzzle ->
  exists order sel,
    move_selected keys_pressed puzzle = Ok (order, sel) /\
    order =
      (if K_a keys_pressed || K_LEFT keys_pressed then
         if (0 <? selected_symbol puzzle)%Z
         then Random.swap (current_order puzzle)
                          (Z.to_nat (selected_symbol puzzle))
                          (Z.to_nat (selected_symbol puzzle - 1))
         else current_order puzzle
       else if K_d keys_pressed || K_RIGHT keys_pressed then
         if (selected_symbol puzzle
             <? Z.of_nat (length (current_order puzzle)) - 1)%Z
         then Random.swap (current_order puzzle)
                          (Z.to_nat (selected_symbol puzzle))
                          (Z.to_nat (selected_symbol puzzle + 1))
         else current_order puzzle
       else current_order puzzle).
Proof.
  intros Hc. unfold cursor_ok in Hc. unfold move_selected. cbv zeta.
  destruct (K_a keys_pressed || K_LEFT keys_pressed).
  - destruct (Z.ltb_spec 0 (selected_symbol puzzle)).
    + rewrite swap_items_ok by lia. cbn [bind]. do 2 eexists. split; reflexivity.
    + do 2 eexists. split; reflexivity.
  - destruct (K_d keys_pressed || K_RIGHT keys_pressed).
    + destruct (Z.ltb_spec (selected_symbol puzzle)
                           (Z.of_nat (length (current_order puzzle)) - 1)).
      * rewrite swap_items_ok by lia. cbn [bind]. do 2 eexists. split; reflexivity.
      * do 2 eexists. split; reflexivity.
    + do 2 eexists. split; reflexivity.
Qed.

(** C9, as the code has it.  An active, not yet completed puzzle
    (cursor on a symbol) that receives a submit: [handle_input] first
    applies the left or right move of the same call -- the selected
    symbol changes place with its neighbour, unless it is at that end
    -- and judges the order this leaves, which is the current order
    itself only when no such key is down.  If that order equals the
    target, the call returns [True], the puzzle is completed and no
    longer active, and no later [interact] or [handle_input] call makes
    it incomplete again.  If it differs, the call returns [False]
    without particles, the puzzle stays active and incomplete, and the
    order becomes what [random.shuffle] makes of it: a rearrangement,
    and any rearrangement for suitable draws of the generator. *)
Theorem puzzle_submit (keys_pressed : Keys) (g : Random.t) (puzzle : t) :
  active puzzle = true -> completed puzzle = false -> cursor_ok puzzle ->
  exists order sel,
    move_selected keys_pressed puzzle = Ok (order, sel) /\
    order =
      (if K_a keys_pressed || K_LEFT keys_pressed then
         if (0 <? selected_symbol puzzle)%Z
         then Random.swap (current_order puzzle)
                          (Z.to_nat (selected_symbol puzzle))
                          (Z.to_nat (selected_symbol puzzle - 1))
         else current_order puzzle
       else if K_d keys_pressed || K_RIGHT keys_pressed then
         if (selected_symbol puzzle
             <? Z.of_nat (length (current_order puzzle)) - 1)%Z
         then Random.swap (current_order puzzle)
                          (Z.to_nat (selected_symbol puzzle))
                          (Z.to_nat (selected_symbol puzzle + 1))
         else current_order puzzle
       else current_order puzzle) /\
    (order = target_order puzzle ->
     exists puzzle' particles g',
       handle_input keys_pressed true g puzzle = Ok (puzzle', (true, particles), g') /\
       completed puzzle' = true /\ active puzzle' = false /\
       forall ops, exists st',
         run_puzzle_ops ops (puzzle', g') = Ok st' /\ completed (fst st') = true) /\
    (order <> target_order puzzle ->
     (exists puzzle' g',
        handle_input keys_pressed true g puzzle = Ok (puzzle', (false, []), g') /\
        completed puzzle' = false /\ active puzzle' = true /\
        current_order puzzle' = fst (Random.shuffle order g) /\
        Permutation (current_order puzzle') order) /\
     (forall q : list string,
        Permutation q order ->
        exists g0 puzzle0 g0',
          handle_input keys_pressed true g0 puzzle = Ok (puzzle0, (false, []), g0') /\
          current_order puzzle0 = q)).
Proof.
  intros Ha Hc Hcur.
  destruct (move_selected_explicit keys_pressed Hcur) as (order & sel & Hm & Horder).
  exists order, sel. split; [exact Hm|]. split; [exact Horder|].
  unfold handle_input. rewrite Ha, Hc, Hm. cbn [negb orb bind].
  split.
  - intros Heq. apply order_eqb_true in Heq. rewrite Heq.
    destruct (celebration_particles 20 (x puzzle) (y puzzle) [] g) as [ps g'].
    do 3 eexists. split; [reflexivity|].
    split; [reflexivity|]. split; [reflexivity|].
    intros ops. now apply completed_stays.
  - intros Hneq.
    destruct (order_eqb order (target_order puzzle)) eqn:E;
      [apply order_eqb_true in E; contradiction|].
    split.
    + pose proof (shuffle_perm order g) as Hperm.
      destruct (Random.shuffle order g) as [order' g'].
      do 2 eexists. split; [reflexivity|]. simpl. auto.
    + intros q Hq. destruct (shuffle_onto Hq) as [draws Hdraws].
      exists (Random.mk (fun _ => 0%R) draws).
      specialize (Hdraws (fun _ => 0%R)).
      destruct (Random.shuffle order (Random.mk (fun _ => 0%R) draws)) as [order' g'].
      do 2 eexists. split; [reflexivity|]. exact Hdraws.
Qed.

Lemma puzzle_submit_witness :
  (exists puzzle' particles g',
     handle_input no_keys true zero_draws aligned_puzzle
     = Ok (puzzle', (true, particles), g') /\
     completed puzzle' = true /\ active puzzle' = false) /\
  (exists puzzle' g',
     handle_input no_keys true zero_draws unsorted_puzzle
     = Ok (puzzle', (false, []), g') /\
     completed puzzle' = false /\ active puzzle' = true /\
     current_order puzzle' = ["candle"; "bible"; "angel"; "cross"]%string).
Proof.
  split.
  - destruct (@puzzle_submit no_keys zero_draws aligned_puzzle)
      as (order & sel & Hm & Horder & Hmatch & _).
    + reflexivity.
    + reflexivity.
    + unfold cursor_ok. simpl. lia.
    + cbn in Horder. destruct (Hmatch Horder)
        as (puzzle' & particles & g' & Hh & Hc & Ha & _).
      exists puzzle', particles, g'. auto.
  - destruct (@puzzle_submit no_keys zero_draws unsorted_puzzle)
      as (order & sel & Hm & Horder & _ & Hmiss).
    + reflexivity.
    + reflexivity.
    + unfold cursor_ok. simpl. lia.
    + cbn in Horder. subst order.
      destruct Hmiss as [(puzzle' & g' & Hh & Hc & Ha & Hnew & _) _];
        [discriminate|].
      exists puzzle', g'. split; [exact Hh|]. split; [exact Hc|].
      split; [exact Ha|]. rewrite Hnew. reflexivity.
Defined.

(** C9, refuted as stated, both ways.  A submit with the A key down on
    a puzzle whose current order is the target first moves the selected
    symbol, so the order judged is no longer the target: the call
    returns [False] and the puzzle stays incomplete.  The same submit
    on a puzzle whose first two symbols are exchanged, an order that is
    not the target, moves them into place and completes the puzzle. *)
Lemma submit_judges_moved_order :
  (active aligned_puzzle = true /\ completed aligned_puzzle = false /\
   current_order aligned_puzzle = target_order aligned_puzzle /\
   exists puzzle' g',
     handle_input left_key true zero_draws aligned_puzzle
     = Ok (puzzle', (false, []), g') /\
     completed puzzle' = false /\ active puzzle' = true) /\
  (active one_off_puzzle = true /\ completed one_off_puzzle = false /\
   current_order one_off_puzzle <> target_order one_off_puzzle /\
   exists puzzle' particles g',
     handle_input left_key true zero_draws one_off_puzzle
     = Ok (puzzle', (true, particles), g') /\
     completed puzzle' = true /\ active puzzle' = false /\
     current_order puzzle' = target_order puzzle').
Proof.
  split.
  - do 3 (split; [reflexivity|]).
    assert (Hm : move_selected left_key aligned_puzzle
                 = Ok (["bible"; "angel"; "candle"; "cross"]%string, 0%Z))
      by reflexivity.
    unfold handle_input. rewrite Hm.
    cbn [aligned_puzzle active completed target_order negb orb bind].
    assert (He : order_eqb ["bible"; "angel"; "candle"; "cross"]%string
                           ["angel"; "bible"; "candle"; "cross"]%string = false)
      by reflexivity.
    rewrite He.
    destruct (Random.shuffle ["bible"; "angel"; "candle"; "cross"]%string zero_draws)
      as [order' g'].
    do 2 eexists. split; [reflexivity|]. split; reflexivity.
  - do 2 (split; [reflexivity|]). split; [discriminate|].
    assert (Hm : move_selected left_key one_off_puzzle
                 = Ok (["angel"; "bible"; "candle"; "cross"]%string, 0%Z))
      by reflexivity.
    unfold handle_input. rewrite Hm.
    cbn [one_off_puzzle active completed target_order x y negb orb bind].
    assert (He : order_eqb ["angel"; "bible"; "candle"; "cross"]%string
                           ["angel"; "bible"; "candle"; "cross"]%string = true)
      by reflexivity.
    rewrite He.
    destruct (celebration_particles 20 0 0 [] zero_draws) as [ps g'].
    do 3 eexists. split; [reflexivity|]. repeat split; reflexivity.
Qed.

(** With the first two symbols exchanged, one move to the left puts
    the order right and the next submit completes the puzzle. *)
Example swap_then_submit :
  match
    run_puzzle_ops
      [OpHandleInput (mkKeys true false false false false false false false) false;
       OpHandleInput no_keys true]
      (mk 0 0 true false ["cross"; "candle"; "bible"; "angel"]%string
          ["bible"; "angel"; "candle"; "cross"]%string
          ["angel"; "bible"; "candle"; "cross"]%string 1,
       Random.mk (fun _ => 0%R) (fun _ => 0%nat))
  with
  | Ok (puzzle', _) =>
      current_order puzzle' = target_order puzzle' /\
      completed puzzle' = true /\ active puzzle' = false
  | Raise _ => False
  end.
Proof. lazy. repeat split. Qed.

End PuzzleFacts.

(** * Further properties of the code *)

(** ** Reading back what was written to the map *)
Section TileMapRoundTrip.

Import TileMap.

Lemma py_get_nth {A : Type} (l : list A) (i : Z) :
  (0 <= i < Z.of_nat (length l))%Z ->
  py_get l i = match nth_error l (Z.to_nat i) with
               | Some a => Ok a
               | None => Raise IndexError
               end.
Proof.
  intros H. unfold py_get. now rewrite (py_index_in_range l H).
Qed.

(** What a lookup sees after a write on a well-shaped map. *)
Lemma get_after_set (tm : t) (x y : Z) (kind : TileType) :
  wf tm ->
  exists tm',
    set_tile tm x y kind = Ok tm' /\ wf tm' /\
    width tm' = width tm /\ height tm' = height tm /\
    forall x' y',
      get_tile tm' x' y' =
      if in_bounds tm x y && ((x' =? x)%Z && (y' =? y)%Z)
      then Ok kind else get_tile tm x' y'.
Proof.
  intros Hwf. unfold set_tile.
  destruct (in_bounds tm x y) eqn:Hb.
  - destruct (wf_row x y Hwf Hb) as [row [Hget [Hx Hy]]].
    rewrite Hget. cbn [bind].
    rewrite (py_set_in_range row kind Hx). cbn [bind].
    rewrite (py_set_in_range (tiles tm) _ Hy). cbn [bind].
    destruct (set_tile_total x y kind Hwf) as [tm2 [Hset Hwf2]].
    unfold set_tile in Hset. rewrite Hb, Hget in Hset. cbn [bind] in Hset.
    rewrite (py_set_in_range row kind Hx) in Hset. cbn [bind] in Hset.
    rewrite (py_set_in_range (tiles tm) _ Hy) in Hset. cbn [bind] in Hset.
    injection Hset as <-.
    eexists. split; [reflexivity|]. split; [exact Hwf2|].
    split; [reflexivity|]. split; [reflexivity|].
    intros x' y'. unfold get_tile, in_bounds. cbn [width height tiles andb].
    fold (in_bounds tm x' y').
    rewrite (py_get_nth (tiles tm) Hy) in Hget.
    destruct (nth_error (tiles tm) (Z.to_nat y)) as [r|] eqn:Er; [|discriminate].
    injection Hget as ->.
    destruct (in_bounds tm x' y') eqn:Hb'.
    + apply in_bounds_true in Hb'. destruct Hb' as [Hx' Hy'].
      destruct Hwf as [Hh Hw].
      assert (Hy'' : (0 <= y' < Z.of_nat (length (tiles tm)))%Z) by lia.
      rewrite py_get_nth by (rewrite list_set_length; exact Hy'').
      rewrite (py_get_nth (tiles tm) Hy'').
      destruct (Z.eqb_spec y' y) as [->|Hny].
      * rewrite nth_error_list_set_same by lia. rewrite Er. cbn [bind].
        assert (Hx'' : (0 <= x' < Z.of_nat (length row))%Z).
        { apply nth_error_In in Er. rewrite Forall_forall in Hw.
          rewrite (Hw row Er). lia. }
        rewrite py_get_nth by (rewrite list_set_length; exact Hx'').
        rewrite (py_get_nth row Hx'').
        destruct (Z.eqb_spec x' x) as [->|Hnx]; cbn [andb].
        -- now rewrite nth_error_list_set_same by lia.
        -- rewrite nth_error_list_set_other by lia. reflexivity.
      * rewrite andb_false_r.
        rewrite nth_error_list_set_other by lia. reflexivity.
    + destruct ((x' =? x)%Z && (y' =? y)%Z) eqn:E; [|reflexivity].
      apply andb_true_iff in E. destruct E as [Ex Ey].
      apply Z.eqb_eq in Ex, Ey. subst. congruence.
  - exists tm. cbn [andb]. auto.
Qed.

(** X1.  On a well-shaped map, a tile written inside the grid is read
    back, every other cell reads as before, and the map keeps its
    shape and size. *)
Theorem set_tile_get_tile (tm : t) (x y : Z) (kind : TileType) :
  wf tm -> (0 <= x < width tm)%Z -> (0 <= y < height tm)%Z ->
  exists tm',
    set_tile tm x y kind = Ok tm' /\ wf tm' /\
    width tm' = width tm /\ height tm' = height tm /\
    get_tile tm' x y = Ok kind /\
    forall x' y', (x', y') <> (x, y) -> get_tile tm' x' y' = get_tile tm x' y'.
Proof.
  intros Hwf Hx Hy.
  destruct (get_after_set x y kind Hwf) as (tm' & Hset & Hwf' & Hw & Hh & Hget).
  assert (Hb : in_bounds tm x y = true) by (apply in_bounds_true; auto).
  exists tm'. repeat (split; [assumption|]). split.
  - rewrite Hget, Hb, !Z.eqb_refl. reflexivity.
  - intros x' y' Hne. rewrite Hget, Hb. cbn [andb].
    destruct (Z.eqb_spec x' x) as [->|]; [|reflexivity].
    destruct (Z.eqb_spec y' y) as [->|]; [|reflexivity].
    contradiction.
Qed.

Lemma set_tile_get_tile_witness :
  exists tm',
    set_tile (init 30 20) 4 17 DOOR = Ok tm' /\
    get_tile tm' 4 17 = Ok DOOR /\
    get_tile tm' 5 17 = get_tile (init 30 20) 5 17.
Proof.
  destruct (@set_tile_get_tile (init 30 20) 4 17 DOOR (init_wf 30 20))
    as (tm' & Hset & _ & _ & _ & Hget & Hframe).
  - simpl. lia.
  - simpl. lia.
  - exists tm'. split; [exact Hset|]. split; [exact Hget|].
    apply Hframe. intros H. discriminate.
Defined.

(** No cell is both a door and solid, and beyond the edge of the
    map there is never a door. *)
Theorem door_not_solid (tm : t) (x y : Z) :
  ~ (is_solid_tile tm x y = Ok true /\ is_door_tile tm x y = Ok true) /\
  (in_bounds tm x y = false -> is_door_tile tm x y = Ok false).
Proof.
  unfold is_solid_tile, is_door_tile. split.
  - destruct (get_tile tm x y) as [tile|e]; simpl.
    + intros [Hs Hd]. destruct tile; simpl in *; discriminate.
    + intros [Hs _]. discriminate.
  - intros Hb. unfold get_tile. rewrite Hb. reflexivity.
Qed.

Lemma door_not_solid_witness :
  is_door_tile (init 30 20) (-1) 3 = Ok false.
Proof.
  apply (door_not_solid (init 30 20) (-1) 3). reflexivity.
Defined.

End TileMapRoundTrip.

(** ** Houses and churches on the map *)
Section LevelStructures.

Import TileMap.













End LevelStructures.

(** ** The player, tick after tick *)
Section PlayerTicks.

Import Player.

Local Open Scope R_scope.

Lemma magnitude_scale (a b c : R) :
  0 <= c -> magnitude (a * c) (b * c) = c * magnitude a b.
Proof.
  intros Hc. unfold magnitude.
  replace ((a * c) ^ 2 + (b * c) ^ 2) with (c ^ 2 * (a ^ 2 + b ^ 2)) by ring.
  rewrite sqrt_mult; [|nra|apply sum_squares_nonneg].
  now rewrite sqrt_pow2.
Qed.

(** The speed limit never lengthens the velocity. *)
Lemma limit_speed_shrinks (m a b : R) :
  0 <= m ->
  exists a' b',
    limit_speed m a b = Ok (a', b') /\ magnitude a' b' <= magnitude a b.
Proof.
  intros Hm. unfold limit_speed. fold (magnitude a b).
  destruct (Rlt_dec m (magnitude a b)) as [Hlt|Hge].
  - rewrite !py_div_ok by lra. simpl.
    do 2 eexists. split; [reflexivity|].
    rewrite magnitude_rescaled; lra.
  - exists a, b. split; [reflexivity|lra].
Qed.

Lemma _check_wall_collision_radius (p p' : t) (a b : R) (tm : TileMap.t) :
  radius p' = radius p ->
  _check_wall_collision p' a b tm = _check_wall_collision p a b tm.
Proof. intros Hr. unfold _check_wall_collision. now rewrite Hr. Qed.

(** One tick, step by step: the candidate position of each axis is
    taken unless the player's box would touch a solid tile there; the
    four flags are read off the power-up list the call was entered
    with. *)
Lemma update_explicit (keys_pressed : Keys) (tm : TileMap.t) (p : t) :
  TileMap.wf tm ->
  exists p' nx ny hx hy,
    update keys_pressed tm p = Ok p' /\
    radius p' = radius p /\
    _check_wall_collision p nx (y p) tm = Ok hx /\
    x p' = (if hx then x p else nx) /\
    _check_wall_collision p (x p') ny tm = Ok hy /\
    y p' = (if hy then y p else ny) /\
    shield_active p' = has_powerup SHIELD (active_powerups p) /\
    invisibility_active p' = has_powerup INVISIBILITY (active_powerups p) /\
    time_slow_active p' = has_powerup TIME_SLOW (active_powerups p) /\
    double_points_active p' = has_powerup DOUBLE_POINTS (active_powerups p).
Proof.
  intros Hwf. unfold update. cbv zeta.
  assert (Hpos : 0 < speed_multiplier (poll_powerups (active_powerups p))).
  { apply poll_fold_speed_pos. simpl. lra. }
  match goal with
  | |- context [limit_speed ?m ?a ?b] =>
      destruct (@limit_speed_ok m a b) as (a' & b' & Hl & _);
      [unfold PLAYER_MAX_SPEED; nra | rewrite Hl]
  end.
  cbn [bind].
  destruct (any_corner_solid_total
              [(x p + a' - radius p, y p - radius p);
               (x p + a' + radius p, y p - radius p);
               (x p + a' - radius p, y p + radius p);
               (x p + a' + radius p, y p + radius p)] Hwf) as [hx Hx].
  unfold _check_wall_collision at 1. rewrite Hx. cbn [bind].
  destruct (any_corner_solid_total
              [((if hx then x p else x p + a') - radius p, y p + b' - radius p);
               ((if hx then x p else x p + a') + radius p, y p + b' - radius p);
               ((if hx then x p else x p + a') - radius p, y p + b' + radius p);
               ((if hx then x p else x p + a') + radius p, y p + b' + radius p)] Hwf)
    as [hy Hy].
  unfold _check_wall_collision at 1. rewrite Hy. cbn [bind].
  eexists. exists (x p + a'), (y p + b'), hx, hy.
  split; [reflexivity|].
  cbn [radius x y shield_active invisibility_active time_slow_active
       double_points_active].
  split; [reflexivity|]. split; [exact Hx|]. split; [reflexivity|].
  split; [exact Hy|]. split; [reflexivity|].
  unfold poll_powerups.
  assert (Hflags : forall l acc,
    polled_time_slow (fold_left poll_one l acc)
    = polled_time_slow acc || has_powerup TIME_SLOW l /\
    polled_double_points (fold_left poll_one l acc)
    = polled_double_points acc || has_powerup DOUBLE_POINTS l).
  { induction l as [|q l IH]; intros acc.
    - simpl. now rewrite !orb_false_r.
    - rewrite !has_powerup_cons. cbn [fold_left].
      destruct (IH (poll_one acc q)) as [H1 H2]. rewrite H1, H2.
      unfold poll_one. destruct (type q); simpl; split; try reflexivity;
        now rewrite orb_true_r. }
  rewrite poll_fold_shield, poll_fold_invisibility.
  destruct (Hflags (active_powerups p) (mkPolled 1 false false false false))
    as [H1 H2].
  rewrite H1, H2. simpl. auto.
Qed.

(** X4.  A player whose box touches no solid tile does not touch one
    after [update] either: walking never ends inside a wall. *)
Theorem player_stays_out_of_walls (keys_pressed : Keys) (tm : TileMap.t) (p : t) :
  TileMap.wf tm ->
  _check_wall_collision p (x p) (y p) tm = Ok false ->
  exists p',
    update keys_pressed tm p = Ok p' /\
    _check_wall_collision p' (x p') (y p') tm = Ok false.
Proof.
  intros Hwf Hfree.
  destruct (update_explicit keys_pressed p Hwf)
    as (p' & nx & ny & hx & hy & Hu & Hr & Hx & Hx' & Hy & Hy' & _).
  exists p'. split; [exact Hu|].
  rewrite (@_check_wall_collision_radius p p' _ _ tm Hr), Hy'.
  destruct hy; [|exact Hy].
  rewrite Hx'. destruct hx; [exact Hfree|exact Hx].
Qed.

End PlayerTicks.

Section PlayerWindows.

Import Player.

Local Open Scope R_scope.

Lemma free_spot :
  _check_wall_collision (init 100 100) (x (init 100 100)) (y (init 100 100))
                        (TileMap.init 30 20) = Ok false.
Proof.
  unfold _check_wall_collision. cbn [init x y radius any_corner_solid].
  unfold py_floordiv, TILE_SIZE.
  assert (H2 : Zfloor ((100 - 12) / 32) = 2%Z) by (apply Zfloor_eq; lra).
  assert (H3 : Zfloor ((100 + 12) / 32) = 3%Z) by (apply Zfloor_eq; lra).
  rewrite H2, H3. reflexivity.
Qed.

Lemma player_stays_out_of_walls_witness :
  exists p',
    update no_keys (TileMap.init 30 20) (init 100 100) = Ok p' /\
    _check_wall_collision p' (x p') (y p') (TileMap.init 30 20) = Ok false.
Proof.
  apply (@player_stays_out_of_walls no_keys (TileMap.init 30 20) (init 100 100)).
  - apply init_wf.
  - exact free_spot.
Defined.

(** With no movement key down, one tick leaves at most 85% of the
    speed. *)
Lemma idle_tick_slows (tm : TileMap.t) (p : t) :
  TileMap.wf tm ->
  exists p',
    update no_keys tm p = Ok p' /\
    magnitude (vx p') (vy p') <= 17 / 20 * magnitude (vx p) (vy p).
Proof.
  intros Hwf. unfold update. cbv zeta. cbn [no_keys K_a K_LEFT K_d K_RIGHT K_w K_UP
    K_s K_DOWN orb].
  destruct (Req_dec_T 0 0) as [_|Hne]; [|contradiction].
  assert (Hpos : 0 < speed_multiplier (poll_powerups (active_powerups p))).
  { apply poll_fold_speed_pos. simpl. lra. }
  match goal with
  | |- context [limit_speed ?m ?a ?b] =>
      destruct (@limit_speed_shrinks m a b) as (a' & b' & Hl & Hm);
      [unfold PLAYER_MAX_SPEED; nra | rewrite Hl]
  end.
  cbn [bind]. unfold _check_wall_collision.
  match goal with
  | |- context [any_corner_solid tm ?c] =>
      destruct (any_corner_solid_total c Hwf) as [hx Hx]; rewrite Hx
  end.
  cbn [bind].
  match goal with
  | |- context [any_corner_solid tm ?c] =>
      destruct (any_corner_solid_total c Hwf) as [hy Hy]; rewrite Hy
  end.
  cbn [bind]. eexists. split; [reflexivity|]. cbn [vx vy].
  rewrite magnitude_scale in Hm by (unfold PLAYER_DECELERATION; lra).
  unfold PLAYER_DECELERATION in Hm.
  replace (vx p + 0) with (vx p) in Hm by ring.
  replace (vy p + 0) with (vy p) in Hm by ring.
  assert (Hdrop : magnitude (if hx then 0 else a') (if hy then 0 else b')
                  <= magnitude a' b').
  { destruct hx, hy.
    - eapply Rle_trans; [apply magnitude_drop_x | apply magnitude_drop_y].
    - apply magnitude_drop_x.
    - apply magnitude_drop_y.
    - apply Rle_refl. }
  lra.
Qed.

(** X5.  A player left alone comes to rest geometrically: after [n]
    ticks without a movement key the speed is at most 0.85 to the
    [n] times what it was, on any well-shaped map and whatever the
    power-ups. *)
Theorem idle_player_slows (tm : TileMap.t) (n : nat) (p : t) :
  TileMap.wf tm ->
  exists p',
    run_ops tm (repeat (OpUpdate no_keys) n) p = Ok p' /\
    magnitude (vx p') (vy p') <= (17 / 20) ^ n * magnitude (vx p) (vy p).
Proof.
  intros Hwf. revert p. induction n as [|n IH]; intros p.
  - exists p. split; [reflexivity|]. simpl. lra.
  - destruct (idle_tick_slows p Hwf) as (p1 & Hu & Hm).
    destruct (IH p1) as (p' & Hrun & Hm').
    exists p'. cbn [repeat run_ops run_op]. rewrite Hu. cbn [bind].
    split; [exact Hrun|].
    assert (Hpow : 0 <= (17 / 20) ^ n) by (apply pow_le; lra).
    simpl pow. nra.
Qed.

Lemma idle_player_slows_witness :
  exists p',
    run_ops (TileMap.init 30 20) (repeat (OpUpdate no_keys) 10) (init 100 100) = Ok p' /\
    magnitude (vx p') (vy p')
    <= (17 / 20) ^ 10 * magnitude (vx (init 100 100)) (vy (init 100 100)).
Proof.
  apply (@idle_player_slows (TileMap.init 30 20) 10 (init 100 100)).
  apply init_wf.
Defined.

Local Close Scope R_scope.

Lemma _update_powerups_aged (m : Z) (l : list PowerUp) :
  _update_powerups (map (aged m) (filter (fun q => (m <=? duration q)%Z) l)) =
  map (aged (m + 1)) (filter (fun q => (m + 1 <=? duration q)%Z) l).
Proof.
  unfold _update_powerups.
  induction l as [|q l IHl]; [reflexivity|].
  cbn [filter].
  destruct (Z.leb_spec m (duration q)) as [Hge|Hlt];
    destruct (Z.leb_spec (m + 1) (duration q)) as [Hq|Hq]; try lia.
  - cbn [map filter aged duration].
    destruct (Z.ltb_spec 0 (duration q - m)) as [Hp|Hp]; [|lia].
    cbn [map]. rewrite IHl. f_equal. unfold aged. cbn [type duration strength].
    f_equal. lia.
  - cbn [map filter aged duration].
    destruct (Z.ltb_spec 0 (duration q - m)) as [Hp|Hp]; [lia|].
    exact IHl.
  - exact IHl.
Qed.

(** The list pruned and counted down [n] times over. *)
Lemma _update_powerups_iter (n : nat) (l : list PowerUp) :
  Nat.iter (S n) _update_powerups l =
  map (aged (Z.of_nat (S n)))
      (filter (fun q => (Z.of_nat (S n) <=? duration q)%Z) l).
Proof.
  induction n as [|n IH].
  - simpl. unfold _update_powerups.
    induction l as [|q l IHl]; simpl; [reflexivity|].
    replace (1 <=? duration q)%Z with (0 <? duration q)%Z
      by (destruct (Z.ltb_spec 0 (duration q)), (Z.leb_spec 1 (duration q)); lia).
    destruct (0 <? duration q)%Z; simpl; now rewrite IHl.
  - change (Nat.iter (S (S n)) _update_powerups l)
      with (_update_powerups (Nat.iter (S n) _update_powerups l)).
    rewrite IH, _update_powerups_aged.
    replace (Z.of_nat (S n) + 1)%Z with (Z.of_nat (S (S n))) by lia.
    reflexivity.
Qed.

Lemma has_powerup_filter_false (kind : PowerUpType) (f : PowerUp -> bool)
  (l : list PowerUp) :
  has_powerup kind l = false -> has_powerup kind (filter f l) = false.
Proof.
  unfold has_powerup. induction l as [|q l IH]; simpl; [reflexivity|].
  intros H. apply orb_false_iff in H. destruct H as [Hq Hl].
  destruct (f q); simpl; [rewrite Hq|]; now apply IH.
Qed.

Lemma has_powerup_aged (kind : PowerUpType) (n : Z) (l : list PowerUp) :
  has_powerup kind (map (aged n) l) = has_powerup kind l.
Proof.
  unfold has_powerup. induction l as [|q l IH]; simpl; [reflexivity|].
  now rewrite IH.
Qed.

Lemma updates_age_powerups (tm : TileMap.t) (ks : list Keys) (p : t) :
  TileMap.wf tm ->
  exists p',
    run_ops tm (map OpUpdate ks) p = Ok p' /\
    active_powerups p' = Nat.iter (length ks) _update_powerups (active_powerups p) /\
    health p' = health p /\
    invincible_timer p' =
      (if (0 <? invincible_timer p)%Z
       then Z.max 0 (invincible_timer p - Z.of_nat (length ks))
       else invincible_timer p) /\
    (ks <> [] ->
     shield_active p' =
     has_powerup SHIELD
       (Nat.iter (length ks - 1) _update_powerups (active_powerups p))).
Proof.
  intros Hwf. revert p. induction ks as [|k ks IH]; intros p.
  - exists p. simpl. repeat split; auto.
    + destruct (0 <? invincible_timer p)%Z eqn:E; [|reflexivity].
      apply Z.ltb_lt in E. lia.
    + congruence.
  - destruct (update_ok k p Hwf) as (p1 & Hu & Hh & _ & _ & Ht & Hl & Hs & _).
    destruct (IH p1) as (p' & Hrun & Hl' & Hh' & Ht' & Hs').
    exists p'. cbn [map run_ops run_op]. rewrite Hu. cbn [bind].
    split; [exact Hrun|]. split; [|split; [congruence|split]].
    + rewrite Hl', Hl. cbn [length]. now rewrite Nat.iter_succ_r.
    + rewrite Ht', Ht. cbn [length].
      destruct (Z.ltb_spec 0 (invincible_timer p)) as [Hp|Hp].
      * destruct (Z.ltb_spec 0 (invincible_timer p - 1)); lia.
      * destruct (Z.ltb_spec 0 (invincible_timer p)); lia.
    + intros _. destruct ks as [|k' ks'].
      * simpl in Hrun. injection Hrun as <-. exact Hs.
      * rewrite Hs' by discriminate. rewrite Hl. cbn [length].
        replace (S (S (length ks')) - 1)%nat with (S (length ks')) by lia.
        replace (S (length ks') - 1)%nat with (length ks') by lia.
        now rewrite Nat.iter_succ_r.
Qed.

(** X6.  After [n >= 1] ticks the power-up list holds exactly the
    entries whose duration was at least [n] on entry, each counted down
    by [n]; and on the tick after those, each of the four polled flags
    is up exactly when an entry of its kind had such a duration.  So a
    power-up added with duration [d] is in effect for the [d + 1] ticks
    that follow. *)
Theorem powerup_effect_window (tm : TileMap.t) (ks : list Keys) (k : Keys) (p : t) :
  TileMap.wf tm -> ks <> [] ->
  exists p' p'',
    run_ops tm (map OpUpdate ks) p = Ok p' /\
    update k tm p' = Ok p'' /\
    active_powerups p' =
      map (aged (Z.of_nat (length ks)))
          (filter (fun q => (Z.of_nat (length ks) <=? duration q)%Z)
                  (active_powerups p)) /\
    forall kind,
      (match kind with
       | SHIELD => shield_active p''
       | INVISIBILITY => invisibility_active p''
       | TIME_SLOW => time_slow_active p''
       | DOUBLE_POINTS => double_points_active p''
       | _ => has_powerup kind (active_powerups p')
       end)
      = has_powerup kind
          (filter (fun q => (Z.of_nat (length ks) <=? duration q)%Z)
                  (active_powerups p)).
Proof.
  intros Hwf Hne.
  destruct (updates_age_powerups ks p Hwf) as (p' & Hrun & Hl & _).
  destruct (update_explicit k p' Hwf)
    as (p'' & _ & _ & _ & _ & Hu & _ & _ & _ & _ & _ & Hs & Hi & Ht & Hd).
  destruct ks as [|k0 ks0]; [contradiction|].
  cbn [length] in Hl. rewrite _update_powerups_iter in Hl.
  exists p', p''. split; [exact Hrun|]. split; [exact Hu|].
  split; [exact Hl|].
  intros kind. cbn [length].
  rewrite <- (has_powerup_aged kind (Z.of_nat (S (length ks0)))
                (filter (fun q => (Z.of_nat (S (length ks0)) <=? duration q)%Z)
                        (active_powerups p))).
  rewrite <- Hl.
  destruct kind; auto.
Qed.

Lemma powerup_effect_window_witness :
  exists p' p'',
    run_ops (TileMap.init 30 20) (map OpUpdate [no_keys; no_keys])
            (add_powerup SHIELD 2 (add_powerup TIME_SLOW 1 (init 100 100))) = Ok p' /\
    update no_keys (TileMap.init 30 20) p' = Ok p'' /\
    shield_active p'' = true /\ time_slow_active p'' = false.
Proof.
  destruct (@powerup_effect_window (TileMap.init 30 20) [no_keys; no_keys] no_keys
              (add_powerup SHIELD 2 (add_powerup TIME_SLOW 1 (init 100 100)))
              (init_wf 30 20))
    as (p' & p'' & Hrun & Hu & _ & Hflags).
  - discriminate.
  - exists p', p''. split; [exact Hrun|]. split; [exact Hu|]. split.
    + exact (Hflags SHIELD).
    + exact (Hflags TIME_SLOW).
Defined.

(** X7.  A hit opens a window of exactly 120 ticks: fewer ticks later
    [take_damage] still does nothing, whatever the keys and the
    power-ups; 120 ticks or more later a player without a Shield entry
    is hit again. *)
Theorem invincibility_window (tm : TileMap.t) (ks : list Keys) (p : t) :
  TileMap.wf tm -> snd (take_damage p) = true ->
  exists p',
    run_ops tm (OpTakeDamage :: map OpUpdate ks) p = Ok p' /\
    health p' = (health p - 1)%Z /\
    ((length ks < 120)%nat -> take_damage p' = (p', false)) /\
    ((120 <= length ks)%nat ->
     has_powerup SHIELD (active_powerups p) = false ->
     snd (take_damage p') = true).
Proof.
  intros Hwf Hhit. cbn [run_ops run_op bind].
  assert (Hfst : health (fst (take_damage p)) = (health p - 1)%Z /\
                 invincible_timer (fst (take_damage p)) = 120%Z /\
                 active_powerups (fst (take_damage p)) = active_powerups p).
  { unfold take_damage in *.
    destruct ((invincible_timer p <=? 0)%Z && negb (shield_active p));
      [simpl; auto|discriminate]. }
  destruct Hfst as (Hh0 & Ht0 & Hl0).
  destruct (updates_age_powerups ks (fst (take_damage p)) Hwf)
    as (p' & Hrun & Hl & Hh & Ht & Hs).
  exists p'. split; [exact Hrun|]. split; [congruence|].
  rewrite Ht0 in Ht. cbn [Z.ltb Z.compare] in Ht. split.
  - intros Hlt. unfold take_damage.
    replace (invincible_timer p' <=? 0)%Z with false; [reflexivity|].
    symmetry. apply Z.leb_gt. lia.
  - intros Hge Hno. unfold take_damage.
    assert (Hne : ks <> []) by (destruct ks; [simpl in Hge; lia|discriminate]).
    rewrite (Hs Hne), Hl0.
    assert (Hnone : forall m,
               has_powerup SHIELD (Nat.iter m _update_powerups (active_powerups p))
               = false).
    { intros [|m]; [exact Hno|].
      rewrite _update_powerups_iter, has_powerup_aged.
      now apply has_powerup_filter_false. }
    rewrite Hnone.
    replace (invincible_timer p' <=? 0)%Z with true; [reflexivity|].
    symmetry. apply Z.leb_le. lia.
Qed.

End PlayerWindows.

Section PlayerCounters.

Import Player.

Lemma invincibility_window_witness :
  exists p',
    run_ops (TileMap.init 30 20)
            (OpTakeDamage :: map OpUpdate [no_keys; no_keys; no_keys]) (init 100 100)
    = Ok p' /\
    health p' = 2%Z /\ take_damage p' = (p', false).
Proof.
  destruct (@invincibility_window (TileMap.init 30 20) [no_keys; no_keys; no_keys]
              (init 100 100) (init_wf 30 20) eq_refl)
    as (p' & Hrun & Hh & Hin & _).
  exists p'. split; [exact Hrun|]. split; [exact Hh|].
  apply Hin. simpl. lia.
Defined.

(** Healing adds up and stops at five hearts: healing by [b] and
    then by a non-negative [a] is healing by [b + a] at once, and the
    result never exceeds 5. *)
Theorem heal_adds_up (a b : Z) (p : t) :
  (0 <= a)%Z ->
  heal a (heal b p) = heal (b + a) p /\ (health (heal a (heal b p)) <= 5)%Z.
Proof.
  intros Ha. unfold heal, set_health. cbn [health x y vx vy candies_collected score
    invincible_timer radius facing_direction active_powerups invisibility_active
    time_slow_active double_points_active shield_active rect_centerx rect_centery].
  split; [|lia]. f_equal. lia.
Qed.

Lemma heal_adds_up_witness :
  heal 1 (heal 3 (init 0 0)) = heal 4 (init 0 0) /\
  (health (heal 1 (heal 3 (init 0 0))) <= 5)%Z.
Proof. apply (@heal_adds_up 1 3 (init 0 0)). lia. Defined.

Lemma collect_candy_fields (points : Z) (p : t) :
  double_points_active (collect_candy points p) = double_points_active p /\
  health (collect_candy points p) = health p /\
  active_powerups (collect_candy points p) = active_powerups p.
Proof. simpl. auto. Qed.

(** X8.  Collecting candies one after the other raises the candy
    counter by their number and the score by the sum of their points,
    doubled when the double-points flag is up; health and power-ups are
    not touched. *)
Theorem collect_candy_totals (pts : list Z) (p : t) :
  let p' := fold_left (fun q points => collect_candy points q) pts p in
  candies_collected p' = (candies_collected p + Z.of_nat (length pts))%Z /\
  score p' =
    (score p + (if double_points_active p then 2 else 1)
               * fold_right Z.add 0%Z pts)%Z /\
  health p' = health p /\ active_powerups p' = active_powerups p.
Proof.
  revert p. induction pts as [|a pts IH]; intros p; cbn zeta.
  - simpl. repeat split; lia.
  - cbn [fold_left]. specialize (IH (collect_candy a p)). cbn zeta in IH.
    destruct IH as (Hc & Hs & Hh & Hl).
    rewrite Hc, Hs, Hh, Hl.
    cbn [collect_candy candies_collected score double_points_active health
         active_powerups length fold_right].
    repeat split; try lia; destruct (double_points_active p); lia.
Qed.

End PlayerCounters.

(** ** The ghost, tick after tick *)
Section GhostTicks.

Import Ghost.

Local Open Scope R_scope.

(** The movement block changes the velocity or the waypoint index and
    nothing else. *)
Lemma move_keeps (player : Player.t) (g : t) :
  route_ok g -> _player_ref g = Some player ->
  exists g1,
    move player g = Ok g1 /\
    x g1 = x g /\ y g1 = y g /\
    start_x g1 = start_x g /\ start_y g1 = start_y g /\
    state g1 = state g /\ chase_timer g1 = chase_timer g /\
    patrol_points g1 = patrol_points g /\ radius g1 = radius g /\
    route_ok g1.
Proof.
  intros Hroute Href. unfold move. destruct (state g) eqn:Es.
  - destruct (_patrol_ok Hroute Href) as (tx & ty & _ & Hp). rewrite Hp.
    eexists. split; [reflexivity|].
    destruct (Rlt_dec (magnitude (tx - x g) (ty - y g)) 10); simpl;
      do 8 (split; [auto|]); unfold route_ok; simpl.
    + apply Z.mod_pos_bound. unfold route_ok in Hroute. lia.
    + exact Hroute.
  - destruct (_chase_player_ok player g) as (a & b & H). rewrite H.
    eexists. split; [reflexivity|]. simpl. do 8 (split; [auto|]). exact Hroute.
  - destruct (_return_to_start_ok g Href) as (a & b & H). rewrite H.
    eexists. split; [reflexivity|]. simpl. do 8 (split; [auto|]). exact Hroute.
Qed.

(** One tick of a ghost, step by step. *)
Lemma ghost_update_explicit (player : Player.t) (tm : TileMap.t) (g : t) :
  TileMap.wf tm -> route_ok g ->
  exists g1 g' hx hy,
    move player (enter_state player g) = Ok g1 /\
    update player tm g = Ok (g', snd (next_state player g)) /\
    state g' = fst (fst (next_state player g)) /\
    chase_timer g' = snd (fst (next_state player g)) /\
    start_x g' = start_x g /\ start_y g' = start_y g /\
    patrol_points g' = patrol_points g /\ radius g' = radius g /\
    route_ok g' /\
    vx g' = vx g1 /\ vy g' = vy g1 /\
    _check_wall_collision (x g + vx g') (y g) tm = Ok hx /\
    x g' = (if hx then x g else x g + vx g') /\
    _check_wall_collision (x g') (y g + vy g') tm = Ok hy /\
    y g' = (if hy then y g else y g + vy g').
Proof.
  intros Hwf Hroute.
  destruct (enter_state_fields player g)
    as (Hs & Ht & Href & Hpts & Hcur & Hx & Hy & _ & _).
  assert (Hfix : start_x (enter_state player g) = start_x g /\
                 start_y (enter_state player g) = start_y g /\
                 radius (enter_state player g) = radius g).
  { unfold enter_state. destruct (next_state player g) as [[s t0] b]. simpl. auto. }
  destruct Hfix as (Hsx & Hsy & Hrad).
  destruct (move_keeps (route_ok_enter_state player Hroute) Href)
    as (g1 & Hm & Hx1 & Hy1 & Hsx1 & Hsy1 & Hs1 & Ht1 & Hp1 & Hr1 & Hroute1).
  unfold update. rewrite Hm. cbn [bind].
  unfold apply_movement. cbv zeta.
  destruct (is_solid_tile_total (py_floordiv (x g1 + vx g1) TILE_SIZE)
              (py_floordiv (y g1) TILE_SIZE) Hwf) as [hx Hhx].
  unfold _check_wall_collision at 1. rewrite Hhx. cbn [bind].
  destruct (is_solid_tile_total
              (py_floordiv (if hx then x g1 else x g1 + vx g1) TILE_SIZE)
              (py_floordiv (y g1 + vy g1) TILE_SIZE) Hwf) as [hy Hhy].
  unfold _check_wall_collision at 1. rewrite Hhy. cbn [bind].
  exists g1. eexists. exists hx, hy.
  split; [reflexivity|]. split; [reflexivity|].
  cbn [state chase_timer start_x start_y patrol_points radius vx vy x y].
  rewrite Hx1, Hy1 in *.
  rewrite Hx, Hy in *.
  split; [congruence|]. split; [congruence|]. split; [congruence|].
  split; [congruence|]. split; [congruence|]. split; [congruence|].
  split.
  { unfold route_ok in *. cbn [current_patrol_target patrol_points]. exact Hroute1. }
  split; [reflexivity|]. split; [reflexivity|].
  unfold _check_wall_collision.
  split; [exact Hhx|]. split; [reflexivity|]. split; [exact Hhy|reflexivity].
Qed.

(** X9.  A ghost on a non-solid tile is on a non-solid tile after
    [update] as well: on each axis it only moves where the map lets it.*)
Theorem ghost_stays_out_of_walls (player : Player.t) (tm : TileMap.t) (g : t) :
  TileMap.wf tm -> route_ok g ->
  _check_wall_collision (x g) (y g) tm = Ok false ->
  exists g' started,
    update player tm g = Ok (g', started) /\
    _check_wall_collision (x g') (y g') tm = Ok false.
Proof.
  intros Hwf Hroute Hfree.
  destruct (ghost_update_explicit player Hwf Hroute)
    as (g1 & g' & hx & hy & _ & Hu & _ & _ & _ & _ & _ & _ & _ & _ & _
        & Hhx & Hx' & Hhy & Hy').
  exists g', (snd (next_state player g)). split; [exact Hu|].
  rewrite Hy'. destruct hy; [|exact Hhy].
  rewrite Hx'. destruct hx; [exact Hfree|exact Hhx].
Qed.

Lemma ghost_free_spot :
  _check_wall_collision (x (init 200 200 None)) (y (init 200 200 None))
                        (TileMap.init 30 20) = Ok false.
Proof.
  unfold _check_wall_collision. cbn [init x y].
  unfold py_floordiv, TILE_SIZE.
  assert (H6 : Zfloor (200 / 32) = 6%Z) by (apply Zfloor_eq; lra).
  rewrite H6. reflexivity.
Qed.

Lemma ghost_stays_out_of_walls_witness :
  exists g' started,
    update (Player.init 100 100) (TileMap.init 30 20) (init 200 200 None)
    = Ok (g', started) /\
    _check_wall_collision (x g') (y g') (TileMap.init 30 20) = Ok false.
Proof.
  apply (@ghost_stays_out_of_walls (Player.init 100 100) (TileMap.init 30 20)
           (init 200 200 None)).
  - apply init_wf.
  - unfold route_ok. simpl. lia.
  - exact ghost_free_spot.
Defined.

(** The state block on a chasing ghost. *)
Lemma next_state_chase (player : Player.t) (g : t) :
  state g = Chase ->
  next_state player g =
  (if (chase_timer g - 1 <=? 0)%Z then Return
   else if Rlt_dec (GHOST_DETECTION_RADIUS * (3 / 2))
                   (sqrt ((x g - Player.x player) ^ 2 + (y g - Player.y player) ^ 2))
        then Return else Chase,
   (chase_timer g - 1)%Z, false).
Proof.
  intros Hs. unfold next_state. rewrite Hs. cbv zeta.
  destruct (chase_timer g - 1 <=? 0)%Z; [reflexivity|].
  match goal with |- context [Rlt_dec ?a ?b] => destruct (Rlt_dec a b) end;
    reflexivity.
Qed.

(** X10.  A chasing ghost counts its timer down by one on every tick
    and gives up -- turns to Return -- exactly when the timer has run
    out or the player is more than 1.5 detection radii away; otherwise
    it keeps chasing.  It never goes straight back to Patrol, and it
    does not report a new chase. *)
Theorem chase_exit (player : Player.t) (tm : TileMap.t) (g : t) :
  TileMap.wf tm -> route_ok g -> state g = Chase ->
  exists g' started,
    update player tm g = Ok (g', started) /\
    started = false /\
    chase_timer g' = (chase_timer g - 1)%Z /\
    (state g' = Return <->
     (chase_timer g - 1 <= 0)%Z \/
     GHOST_DETECTION_RADIUS * (3 / 2)
     < sqrt ((x g - Player.x player) ^ 2 + (y g - Player.y player) ^ 2)) /\
    (state g' = Chase \/ state g' = Return).
Proof.
  intros Hwf Hroute Hs.
  destruct (ghost_update_explicit player Hwf Hroute)
    as (g1 & g' & hx & hy & _ & Hu & Hs' & Ht' & _).
  rewrite (@next_state_chase player g Hs) in Hu, Hs', Ht'.
  cbn [fst snd] in Hu, Hs', Ht'.
  exists g', false. split; [exact Hu|]. split; [reflexivity|].
  split; [exact Ht'|]. rewrite Hs'.
  destruct (Z.leb_spec (chase_timer g - 1) 0) as [Hle|Hgt].
  - split; [|now right]. split; [now left|reflexivity].
  - match goal with |- context [Rlt_dec ?a ?b] => destruct (Rlt_dec a b) as [Hfar|Hnear] end.
    + split; [|now right]. split; [now right|reflexivity].
    + split; [|now left]. split; [discriminate|].
      intros [H|H]; [lia|contradiction].
Qed.

Lemma chasing_ghost_route :
  route_ok (mk 200 200 200 200 0 0 Chase [(200, 200)] 0 1 10 180 None 200 200).
Proof. unfold route_ok. simpl. lia. Qed.

Lemma chase_exit_witness :
  exists g' started,
    update (Player.init 100 100) (TileMap.init 30 20)
           (mk 200 200 200 200 0 0 Chase [(200, 200)] 0 1 10 180 None 200 200)
    = Ok (g', started) /\
    started = false /\ state g' = Return.
Proof.
  destruct (@chase_exit (Player.init 100 100) (TileMap.init 30 20)
              (mk 200 200 200 200 0 0 Chase [(200, 200)] 0 1 10 180 None 200 200)
              (init_wf 30 20) chasing_ghost_route eq_refl)
    as (g' & started & Hu & Hst & _ & Hret & _).
  exists g', started. split; [exact Hu|]. split; [exact Hst|].
  apply Hret. left. simpl. lia.
Defined.

End GhostTicks.

(** ** The ghost: chase, return, and runs of ticks *)
Section GhostMoves.

Import Ghost.

Local Open Scope R_scope.

Lemma sqrt_upper_bound (c s : R) : 0 <= c -> 0 <= s -> s < c * c -> sqrt s < c.
Proof.
  intros Hc Hs Hlt. rewrite <- (sqrt_square c Hc). apply sqrt_lt_1_alt. lra.
Qed.

Lemma magnitude_flip (a b c d : R) :
  sqrt ((a - b) ^ 2 + (c - d) ^ 2) = magnitude (b - a) (d - c).
Proof. unfold magnitude. f_equal. ring. Qed.

Lemma _chase_player_explicit (player : Player.t) (g : t) :
  0 < magnitude (Player.x player - x g) (Player.y player - y g) ->
  _chase_player player g =
  Ok (set_velocity
        ((Player.x player - x g)
         / magnitude (Player.x player - x g) (Player.y player - y g)
         * (GHOST_CHASE_SPEED * time_slow_factor player))
        ((Player.y player - y g)
         / magnitude (Player.x player - x g) (Player.y player - y g)
         * (GHOST_CHASE_SPEED * time_slow_factor player)) g).
Proof.
  intros Hd. unfold _chase_player. cbv zeta.
  fold (magnitude (Player.x player - x g) (Player.y player - y g)).
  destruct (Rlt_dec 0 (magnitude (Player.x player - x g) (Player.y player - y g)));
    [|contradiction].
  rewrite !py_div_ok by lra. cbn [bind]. unfold time_slow_factor.
  destruct (Player.time_slow_active player); [reflexivity|].
  now rewrite Rmult_1_r.
Qed.

Lemma _return_to_start_explicit (player : Player.t) (g : t) :
  _player_ref g = Some player ->
  0 < magnitude (start_x g - x g) (start_y g - y g) ->
  _return_to_start g =
  Ok (set_velocity
        ((start_x g - x g) / magnitude (start_x g - x g) (start_y g - y g)
         * (GHOST_SPEED * time_slow_factor player))
        ((start_y g - y g) / magnitude (start_x g - x g) (start_y g - y g)
         * (GHOST_SPEED * time_slow_factor player)) g).
Proof.
  intros Href Hd. unfold _return_to_start. cbv zeta.
  fold (magnitude (start_x g - x g) (start_y g - y g)).
  destruct (Rlt_dec 0 (magnitude (start_x g - x g) (start_y g - y g)));
    [|contradiction].
  rewrite Href. rewrite !py_div_ok by lra. cbn [bind]. unfold time_slow_factor.
  destruct (Player.time_slow_active player); [reflexivity|].
  now rewrite Rmult_1_r.
Qed.

(** X11.  Whenever a ghost is in Chase after [update] -- on the tick it
    notices the player as on every later tick of the chase -- and the
    player is not exactly where the ghost stood, its velocity points at
    the player and has magnitude [GHOST_CHASE_SPEED], times 0.4 when
    the player's time-slow flag is up. *)
Theorem chase_velocity (player : Player.t) (tm : TileMap.t) (g : t) :
  TileMap.wf tm -> route_ok g ->
  exists g' started,
    update player tm g = Ok (g', started) /\
    (state g' = Chase ->
     0 < magnitude (Player.x player - x g) (Player.y player - y g) ->
     vx g' = (Player.x player - x g)
             * (GHOST_CHASE_SPEED * time_slow_factor player
                / magnitude (Player.x player - x g) (Player.y player - y g)) /\
     vy g' = (Player.y player - y g)
             * (GHOST_CHASE_SPEED * time_slow_factor player
                / magnitude (Player.x player - x g) (Player.y player - y g)) /\
     magnitude (vx g') (vy g') = GHOST_CHASE_SPEED * time_slow_factor player).
Proof.
  intros Hwf Hroute.
  destruct (ghost_update_explicit player Hwf Hroute)
    as (g1 & g' & hx & hy & Hm & Hu & Hs & _ & _ & _ & _ & _ & _ & Hvx & Hvy & _).
  exists g', (snd (next_state player g)). split; [exact Hu|].
  intros Hc Hd.
  destruct (enter_state_fields player g) as (Hes & _ & _ & _ & _ & Hx & Hy & _).
  unfold move in Hm. rewrite Hes, <- Hs, Hc in Hm.
  rewrite _chase_player_explicit in Hm by (rewrite Hx, Hy; exact Hd).
  injection Hm as <-. rewrite Hx, Hy in Hvx, Hvy. cbn [set_velocity vx vy] in Hvx, Hvy.
  pose proof (time_slow_factor_nonneg player) as Hf.
  assert (Hspeed : 0 <= GHOST_CHASE_SPEED * time_slow_factor player)
    by (unfold GHOST_CHASE_SPEED; nra).
  split; [rewrite Hvx; field; lra|].
  split; [rewrite Hvy; field; lra|].
  rewrite Hvx, Hvy. apply magnitude_rescaled; assumption.
Qed.

(** A ghost thirty pixels from a visible player, with a fresh chase
    timer, keeps chasing. *)
Lemma near_chaser_state :
  next_state (Player.init 230 200)
    (mk 200 200 200 200 0 0 Chase [(200, 200)] 0 300 10 180 None 200 200)
  = (Chase, 299%Z, false).
Proof.
  rewrite (@next_state_chase (Player.init 230 200)
             (mk 200 200 200 200 0 0 Chase [(200, 200)] 0 300 10 180 None 200 200)
             eq_refl).
  cbn [chase_timer x y Player.x Player.y Player.init].
  change (300 - 1 <=? 0)%Z with false. cbv iota.
  match goal with |- context [Rlt_dec ?a ?b] => destruct (Rlt_dec a b) as [Hfar|Hnear] end;
    [|reflexivity].
  exfalso. unfold GHOST_DETECTION_RADIUS in Hfar.
  assert (H : sqrt ((200 - 230) ^ 2 + (200 - 200) ^ 2) < 40)
    by (apply sqrt_upper_bound; nra).
  lra.
Qed.

Lemma near_chaser_route :
  route_ok (mk 200 200 200 200 0 0 Chase [(200, 200)] 0 300 10 180 None 200 200).
Proof. unfold route_ok. simpl. lia. Qed.

Lemma chase_velocity_witness :
  exists g' started,
    update (Player.init 230 200) (TileMap.init 30 20)
           (mk 200 200 200 200 0 0 Chase [(200, 200)] 0 300 10 180 None 200 200)
    = Ok (g', started) /\
    magnitude (vx g') (vy g') = GHOST_CHASE_SPEED.
Proof.
  destruct (@chase_velocity (Player.init 230 200) (TileMap.init 30 20)
              (mk 200 200 200 200 0 0 Chase [(200, 200)] 0 300 10 180 None 200 200)
              (init_wf 30 20) near_chaser_route)
    as (g' & started & Hu & Hvel).
  exists g', started. split; [exact Hu|].
  destruct (@ghost_update_explicit (Player.init 230 200) (TileMap.init 30 20) _
              (init_wf 30 20) near_chaser_route)
    as (g1 & g2 & hx & hy & _ & Hu2 & Hs2 & _).
  rewrite Hu in Hu2. injection Hu2 as <- _.
  assert (Hstate : state g' = Chase) by (rewrite Hs2, near_chaser_state; reflexivity).
  assert (Hpos : 0 < magnitude (Player.x (Player.init 230 200) - 200)
                               (Player.y (Player.init 230 200) - 200)).
  { unfold magnitude. cbn [Player.x Player.y Player.init].
    assert (H : 10 <= sqrt ((230 - 200) ^ 2 + (200 - 200) ^ 2))
      by (apply sqrt_lower_bound; lra).
    lra. }
  destruct (Hvel Hstate Hpos) as (_ & _ & Hmag).
  rewrite Hmag. unfold time_slow_factor. simpl. lra.
Defined.

(** The state block on a returning ghost. *)
Lemma next_state_return (player : Player.t) (g : t) :
  state g = Return ->
  next_state player g =
  (if Rlt_dec (magnitude (start_x g - x g) (start_y g - y g)) 20
   then Patrol else Return, chase_timer g, false).
Proof.
  intros Hs. unfold next_state. rewrite Hs. cbv zeta.
  rewrite magnitude_flip.
  destruct (Rlt_dec (magnitude (start_x g - x g) (start_y g - y g)) 20); reflexivity.
Qed.

(** X12.  A returning ghost goes back on patrol as soon as it is less
    than 20 from its start point; until then it stays in Return and
    heads for the start point at [GHOST_SPEED], times 0.4 when the
    player's time-slow flag is up.  It reports no chase and leaves the
    chase timer alone. *)
Theorem return_home (player : Player.t) (tm : TileMap.t) (g : t) :
  TileMap.wf tm -> route_ok g -> state g = Return ->
  exists g' started,
    update player tm g = Ok (g', started) /\
    started = false /\ chase_timer g' = chase_timer g /\
    (magnitude (start_x g - x g) (start_y g - y g) < 20 -> state g' = Patrol) /\
    (20 <= magnitude (start_x g - x g) (start_y g - y g) ->
     state g' = Return /\
     vx g' = (start_x g - x g)
             * (GHOST_SPEED * time_slow_factor player
                / magnitude (start_x g - x g) (start_y g - y g)) /\
     vy g' = (start_y g - y g)
             * (GHOST_SPEED * time_slow_factor player
                / magnitude (start_x g - x g) (start_y g - y g)) /\
     magnitude (vx g') (vy g') = GHOST_SPEED * time_slow_factor player).
Proof.
  intros Hwf Hroute Hr.
  destruct (ghost_update_explicit player Hwf Hroute)
    as (g1 & g' & hx & hy & Hm & Hu & Hs & Ht & _ & _ & _ & _ & _ & Hvx & Hvy & _).
  rewrite (@next_state_return player g Hr) in Hu, Hs, Ht. cbn [fst snd] in Hu, Hs, Ht.
  exists g', false. split; [exact Hu|]. split; [reflexivity|]. split; [exact Ht|].
  destruct (Rlt_dec (magnitude (start_x g - x g) (start_y g - y g)) 20) as [Hnear|Hfar].
  - split; [intros _; exact Hs|intros; lra].
  - split; [intros; lra|]. intros Hd.
    destruct (enter_state_fields player g) as (Hes & _ & Href & _ & _ & Hx & Hy & _).
    assert (Hsx : start_x (enter_state player g) = start_x g /\
                  start_y (enter_state player g) = start_y g).
    { unfold enter_state. destruct (next_state player g) as [[s t0] b]. simpl. auto. }
    destruct Hsx as [Hsx Hsy].
    unfold move in Hm. rewrite Hes, (@next_state_return player g Hr) in Hm.
    cbn [fst] in Hm.
    destruct (Rlt_dec (magnitude (start_x g - x g) (start_y g - y g)) 20);
      [contradiction|].
    rewrite (_return_to_start_explicit _ Href) in Hm
      by (rewrite Hsx, Hsy, Hx, Hy; lra).
    injection Hm as <-. rewrite Hsx, Hsy, Hx, Hy in Hvx, Hvy.
    cbn [set_velocity vx vy] in Hvx, Hvy.
    pose proof (time_slow_factor_nonneg player) as Hf.
    assert (Hspeed : 0 <= GHOST_SPEED * time_slow_factor player)
      by (unfold GHOST_SPEED; nra).
    split; [exact Hs|].
    split; [rewrite Hvx; field; lra|].
    split; [rewrite Hvy; field; lra|].
    rewrite Hvx, Hvy. apply magnitude_rescaled; [lra|exact Hspeed].
Qed.

Lemma return_home_witness :
  exists g' started,
    update (Player.init 100 100) (TileMap.init 30 20)
           (mk 205 200 200 200 0 0 Return [(200, 200)] 0 0 10 180 None 205 200)
    = Ok (g', started) /\
    started = false /\ state g' = Patrol.
Proof.
  assert (Hroute : route_ok
            (mk 205 200 200 200 0 0 Return [(200, 200)] 0 0 10 180 None 205 200))
    by (unfold route_ok; simpl; lia).
  destruct (@return_home (Player.init 100 100) (TileMap.init 30 20)
              (mk 205 200 200 200 0 0 Return [(200, 200)] 0 0 10 180 None 205 200)
              (init_wf 30 20) Hroute eq_refl)
    as (g' & started & Hu & Hst & _ & Hnear & _).
  exists g', started. split; [exact Hu|]. split; [exact Hst|].
  apply Hnear. unfold magnitude. cbn [start_x start_y x y].
  apply sqrt_upper_bound; nra.
Defined.

Local Close Scope R_scope.

(** X13.  Over any run of ticks, against any players, a ghost keeps
    its start point, its patrol route and its radius, and its waypoint
    index keeps pointing into the route; every tick returns. *)
Theorem ghost_keeps_home_and_route (players : list Player.t) (tm : TileMap.t) (g : t) :
  TileMap.wf tm -> route_ok g ->
  exists g' states,
    ghost_ticks players tm g = Ok (g', states) /\
    length states = length players /\
    start_x g' = start_x g /\ start_y g' = start_y g /\
    patrol_points g' = patrol_points g /\ radius g' = radius g /\
    route_ok g'.
Proof.
  intros Hwf. revert g. induction players as [|player players IH]; intros g Hroute.
  - exists g, []. simpl. repeat (split; [reflexivity|]). exact Hroute.
  - destruct (ghost_update_explicit player Hwf Hroute)
      as (g1 & g2 & hx & hy & _ & Hu & _ & _ & Hsx & Hsy & Hp & Hr & Hroute2 & _).
    destruct (IH g2 Hroute2) as (g' & states & Hrun & Hlen & Hsx' & Hsy' & Hp' & Hr' & Hroute').
    exists g', (state g2 :: states). cbn [ghost_ticks]. rewrite Hu.
    cbn [bind]. cbv beta iota.
    rewrite Hrun. cbn [bind]. split; [reflexivity|].
    split; [simpl; now rewrite Hlen|].
    do 4 (split; [congruence|]). exact Hroute'.
Qed.

Lemma ghost_keeps_home_and_route_witness :
  exists g' states,
    ghost_ticks [Player.init 100 100; Player.init 110 100] (TileMap.init 30 20)
                (init 200 200 None) = Ok (g', states) /\
    length states = 2%nat /\ patrol_points g' = [(200%R, 200%R)].
Proof.
  destruct (@ghost_keeps_home_and_route [Player.init 100 100; Player.init 110 100]
              (TileMap.init 30 20) (init 200 200 None) (init_wf 30 20))
    as (g' & states & Hrun & Hlen & _ & _ & Hp & _).
  - unfold route_ok. simpl. lia.
  - exists g', states. auto.
Defined.

(** X14.  A chase cannot outlast its timer: if a ghost in Chase is
    still in Chase after each of the next [n >= 1] ticks, then [n] is
    less than the value its chase timer had. *)
Theorem chase_is_bounded (players : list Player.t) (tm : TileMap.t) (g g' : t)
  (states : list GhostState) :
  TileMap.wf tm -> route_ok g -> state g = Chase ->
  ghost_ticks players tm g = Ok (g', states) ->
  Forall (fun s => s = Chase) states ->
  states = [] \/ (Z.of_nat (length states) < chase_timer g)%Z.
Proof.
  intros Hwf. revert g states.
  induction players as [|player players IH]; intros g states Hroute Hc Hrun Hall.
  - simpl in Hrun. injection Hrun as _ <-. now left.
  - right. cbn [ghost_ticks] in Hrun.
    destruct (ghost_update_explicit player Hwf Hroute)
      as (g1 & g2 & hx & hy & _ & Hu & Hs & Ht & _ & _ & _ & _ & Hroute2 & _).
    rewrite Hu in Hrun. cbn [bind] in Hrun. cbv beta iota in Hrun.
    destruct (ghost_ticks players tm g2) as [[g3 rest]|e] eqn:Erest; [|discriminate].
    cbn [bind] in Hrun. injection Hrun as <- <-.
    inversion Hall as [|s l Hhead Htail]. subst.
    rewrite (@next_state_chase player g Hc) in Hs, Ht. cbn [fst snd] in Hs, Ht.
    assert (Hpos : (0 < chase_timer g - 1)%Z).
    { destruct (Z.leb_spec (chase_timer g - 1) 0) as [Hle|Hgt]; [|exact Hgt].
      rewrite Hs in Hhead. discriminate. }
    destruct (IH g2 rest Hroute2 Hhead Erest Htail) as [->|Hlt].
    + simpl. lia.
    + cbn [length]. lia.
Qed.

Lemma chase_is_bounded_witness :
  exists g' states,
    ghost_ticks [Player.init 230 200] (TileMap.init 30 20)
      (mk 200 200 200 200 0 0 Chase [(200%R, 200%R)] 0 300 10 180 None 200 200)
    = Ok (g', states) /\
    states = [Chase] /\ (Z.of_nat (length states) < 300)%Z.
Proof.
  destruct (@ghost_update_explicit (Player.init 230 200) (TileMap.init 30 20) _
              (init_wf 30 20) near_chaser_route)
    as (g1 & g2 & hx & hy & _ & Hu & Hs & _).
  rewrite near_chaser_state in Hu, Hs. cbn [fst snd] in Hu, Hs.
  exists g2, [state g2].
  assert (Hrun : ghost_ticks [Player.init 230 200] (TileMap.init 30 20)
                   (mk 200 200 200 200 0 0 Chase [(200%R, 200%R)] 0 300 10 180 None 200 200)
                 = Ok (g2, [state g2])).
  { cbn [ghost_ticks]. rewrite Hu. reflexivity. }
  split; [exact Hrun|]. split; [now rewrite Hs|].
  destruct (@chase_is_bounded [Player.init 230 200] (TileMap.init 30 20)
              (mk 200 200 200 200 0 0 Chase [(200%R, 200%R)] 0 300 10 180 None 200 200)
              g2 [state g2] (init_wf 30 20) near_chaser_route eq_refl Hrun)
    as [Hnil|Hlt].
  - rewrite Hs. constructor; [reflexivity|constructor].
  - discriminate.
  - exact Hlt.
Defined.

End GhostMoves.

(** ** What a candy gives *)
Section CandyFirstCollect.

Lemma pickup_particles_shape (P : Particle -> Prop) (n : nat) (px py : R)
  (acc : list Particle) (g : Random.t) :
  (forall a b, P (mkParticle px py a b YELLOW 30)) ->
  Forall P acc ->
  Forall P (fst (Candy.pickup_particles n px py acc g)) /\
  length (fst (Candy.pickup_particles n px py acc g)) = (length acc + n)%nat.
Proof.
  intros HP. revert acc g. induction n as [|n IH]; intros acc g Hacc.
  - simpl. split; [exact Hacc|lia].
  - cbn [Candy.pickup_particles Random.uniform]. cbv zeta.
    match goal with
    | |- context [Candy.pickup_particles n px py (acc ++ [?q]) ?g'] =>
        destruct (IH (acc ++ [q]) g') as [HF HL]
    end.
    + apply Forall_app. split; [exact Hacc|]. constructor; [apply HP|constructor].
    + split; [exact HF|]. rewrite HL, length_app. simpl. lia.
Qed.

(** X15.  The first [collect] of a candy marks it collected, counts
    one candy, and returns eight yellow particles at the candy's
    place.  The score grows by the candy's points, doubled under the
    double-points flag, and by the plain points once more for a bonus
    candy, which also heals one heart up to five; a cursed candy
    installs a 300-tick SpeedBoost. *)
Theorem first_collect (player : Player.t) (g : Random.t) (c : Candy.t) :
  Candy.collected c = false ->
  let c' := fst (fst (fst (Candy.collect player g c))) in
  let player' := snd (fst (fst (Candy.collect player g c))) in
  let particles := snd (fst (Candy.collect player g c)) in
  Candy.collected c' = true /\
  Player.candies_collected player' = (Player.candies_collected player + 1)%Z /\
  length particles = 8%nat /\
  Forall (fun q => particle_x q = Candy.x c /\ particle_y q = Candy.y c /\
                   particle_color q = YELLOW /\ particle_lifetime q = 30%Z)
         particles /\
  Player.score player' =
    (Player.score player
     + Candy.points c * (if Player.double_points_active player then 2 else 1)
     + (if String.eqb (Candy.type c) "bonus" then Candy.points c else 0))%Z /\
  Player.health player' =
    (if String.eqb (Candy.type c) "bonus"
     then Z.min 5 (Player.health player + 1) else Player.health player) /\
  Player.active_powerups player' =
    (if String.eqb (Candy.type c) "cursed"
     then filter (fun q => negb (PowerUpType_eqb (type q) SPEED_BOOST))
                 (Player.active_powerups player)
          ++ [PowerUp_new SPEED_BOOST 300]
     else Player.active_powerups player).
Proof.
  intros Hc. cbv zeta. unfold Candy.collect. rewrite Hc. cbn [negb].
  destruct (@pickup_particles_shape
              (fun q => particle_x q = Candy.x c /\ particle_y q = Candy.y c /\
                        particle_color q = YELLOW /\ particle_lifetime q = 30%Z)
              8 (Candy.x c) (Candy.y c) [] g) as [HF HL].
  { intros a b. simpl. auto. }
  { constructor. }
  destruct (Candy.pickup_particles 8 (Candy.x c) (Candy.y c) [] g) as [ps g'].
  cbn [fst snd] in *. cbn [Candy.collected].
  split; [reflexivity|].
  destruct (String.eqb_spec (Candy.type c) "cursed") as [Ecursed|Ecursed].
  - rewrite Ecursed. cbn [String.eqb Ascii.eqb Bool.eqb].
    simpl. repeat split; auto; lia.
  - destruct (String.eqb (Candy.type c) "bonus"); simpl; repeat split; auto; lia.
Qed.

Lemma first_collect_witness :
  Player.score
    (snd (fst (fst (Candy.collect (Player.init 0 0)
                            (Random.mk (fun _ => 0%R) (fun _ => 0%nat))
                            (Candy.init 10 10 "bonus" 25)))))
  = 50%Z.
Proof.
  destruct (@first_collect (Player.init 0 0)
              (Random.mk (fun _ => 0%R) (fun _ => 0%nat))
              (Candy.init 10 10 "bonus" 25) eq_refl)
    as (_ & _ & _ & _ & Hs & _).
  exact Hs.
Defined.

End CandyFirstCollect.

(** ** The puzzle over whole runs *)
Section PuzzleRuns.

Import ChurchPuzzle.

Lemma interact_keeps (player : Player.t) (puzzle : t) :
  current_order (fst (interact player puzzle)) = current_order puzzle /\
  selected_symbol (fst (interact player puzzle)) = selected_symbol puzzle /\
  target_order (fst (interact player puzzle)) = target_order puzzle /\
  completed (fst (interact player puzzle)) = completed puzzle /\
  (active (fst (interact player puzzle)) = active puzzle \/
   ~ (50 < sqrt ((Player.x player - x puzzle) ^ 2
                 + (Player.y player - y puzzle) ^ 2))%R) /\
  x (fst (interact player puzzle)) = x puzzle /\
  y (fst (interact player puzzle)) = y puzzle.
Proof.
  unfold interact. cbv zeta.
  match goal with |- context [Rlt_dec ?a ?b] => destruct (Rlt_dec a b) as [Hfar|Hnear] end.
  - cbn [fst]. tauto.
  - destruct (completed puzzle) eqn:Ec; [cbn [fst]; tauto|].
    destruct (active puzzle) eqn:Ea;
      cbn [fst negb current_order selected_symbol target_order completed active x y];
      tauto.
Qed.

(** [handle_input] with the cursor on a symbol: it returns, the order
    is rearranged at most, the cursor stays on a symbol. *)
Lemma handle_input_keeps (keys_pressed : Keys) (space_pressed : bool)
  (g : Random.t) (puzzle : t) :
  cursor_ok puzzle ->
  exists puzzle' r g',
    handle_input keys_pressed space_pressed g puzzle = Ok (puzzle', r, g') /\
    Permutation (current_order puzzle') (current_order puzzle) /\
    cursor_ok puzzle' /\
    target_order puzzle' = target_order puzzle /\
    x puzzle' = x puzzle /\ y puzzle' = y puzzle /\
    (active puzzle = false -> puzzle' = puzzle /\ r = (false, [])).
Proof.
  intros Hcur. unfold handle_input.
  destruct (negb (active puzzle) || completed puzzle) eqn:Eskip.
  - exists puzzle, (false, []), g. repeat split; auto; apply Hcur.
  - apply orb_false_iff in Eskip. destruct Eskip as [Ha Hc].
    apply negb_false_iff in Ha.
    destruct (move_selected_ok keys_pressed Hcur)
      as (order & sel & Hm & Hperm & Hsel & _).
    rewrite Hm. cbn [bind].
    destruct space_pressed.
    + destruct (order_eqb order (target_order puzzle)).
      * destruct (celebration_particles 20 (x puzzle) (y puzzle) [] g) as [ps g'].
        do 3 eexists. split; [reflexivity|]. unfold cursor_ok. simpl.
        repeat split; auto; try lia; congruence.
      * pose proof (shuffle_perm order g) as Hsh.
        destruct (Random.shuffle order g) as [order' g'].
        do 3 eexists. split; [reflexivity|]. unfold cursor_ok. simpl in *.
        split; [eapply perm_trans; eassumption|].
        rewrite (Permutation_length Hsh).
        repeat split; auto; try lia; congruence.
    + do 3 eexists. split; [reflexivity|]. unfold cursor_ok. simpl.
      repeat split; auto; try lia; congruence.
Qed.

Lemma run_puzzle_ops_keeps (ops : list PuzzleOp) (puzzle : t) (g : Random.t) :
  cursor_ok puzzle ->
  exists st',
    run_puzzle_ops ops (puzzle, g) = Ok st' /\
    Permutation (current_order (fst st')) (current_order puzzle) /\
    cursor_ok (fst st') /\
    target_order (fst st') = target_order puzzle.
Proof.
  revert puzzle g. induction ops as [|op ops IH]; intros puzzle g Hcur.
  - exists (puzzle, g). simpl. auto.
  - cbn [run_puzzle_ops run_puzzle_op].
    destruct op as [player|keys_pressed space_pressed].
    + cbn [bind].
      destruct (interact_keeps player puzzle) as (Ho & Hs & Ht & _).
      destruct (IH (fst (interact player puzzle)) g) as (st' & Hrun & Hp & Hc & Htg).
      { unfold cursor_ok. now rewrite Ho, Hs. }
      exists st'. split; [exact Hrun|]. rewrite Ho in Hp.
      split; [exact Hp|]. split; [exact Hc|]. congruence.
    + destruct (handle_input_keeps keys_pressed space_pressed g Hcur)
        as (puzzle' & r & g' & Hh & Hp & Hc & Ht & _).
      rewrite Hh. cbn [bind]. cbv beta iota.
      destruct (IH puzzle' g' Hc) as (st' & Hrun & Hp' & Hc' & Ht').
      exists st'. split; [exact Hrun|].
      split; [eapply perm_trans; eassumption|]. split; [exact Hc'|]. congruence.
Qed.

(** X16.  From a freshly built puzzle, no sequence of [interact] and
    [handle_input] calls raises, and after it the current order is
    still a rearrangement of the four symbols, the cursor is on one of
    them, and the target is the one the constructor set. *)
Theorem puzzle_runs_safely (x0 y0 : R) (g : Random.t) (ops : list PuzzleOp) :
  exists st',
    run_puzzle_ops ops (init x0 y0 g) = Ok st' /\
    Permutation (current_order (fst st'))
                ["cross"; "candle"; "bible"; "angel"]%string /\
    cursor_ok (fst st') /\
    target_order (fst st') = ["angel"; "bible"; "candle"; "cross"]%string.
Proof.
  unfold init. cbv zeta.
  pose proof (shuffle_perm ["cross"; "candle"; "bible"; "angel"]%string g) as Hsh.
  destruct (Random.shuffle ["cross"; "candle"; "bible"; "angel"]%string g)
    as [order g'].
  cbn [fst] in Hsh.
  match goal with
  | |- context [run_puzzle_ops ops (?pz, g')] =>
      destruct (@run_puzzle_ops_keeps ops pz g') as (st' & Hrun & Hp & Hc & Ht)
  end.
  - unfold cursor_ok. simpl. rewrite (Permutation_length Hsh). simpl. lia.
  - exists st'. split; [exact Hrun|]. simpl in Hp, Ht.
    split; [eapply perm_trans; eassumption|]. auto.
Qed.

Lemma far_run (ops : list PuzzleOp) (puzzle : t) (g : Random.t) :
  cursor_ok puzzle -> active puzzle = false -> completed puzzle = false ->
  Forall (fun op =>
            match op with
            | OpInteract player =>
                (50 < sqrt ((Player.x player - x puzzle) ^ 2
                            + (Player.y player - y puzzle) ^ 2))%R
            | OpHandleInput _ _ => True
            end) ops ->
  exists st',
    run_puzzle_ops ops (puzzle, g) = Ok st' /\
    active (fst st') = false /\ completed (fst st') = false.
Proof.
  revert puzzle g. induction ops as [|op ops IH]; intros puzzle g Hcur Ha Hc Hall.
  - exists (puzzle, g). simpl. auto.
  - inversion Hall as [|o l Hop Hrest]. subst.
    cbn [run_puzzle_ops run_puzzle_op].
    destruct op as [player|keys_pressed space_pressed].
    + cbn [bind].
      destruct (interact_keeps player puzzle) as (Ho & Hs & _ & Hcomp & Hact & Hx & Hy).
      apply (IH (fst (interact player puzzle)) g).
      * unfold cursor_ok. now rewrite Ho, Hs.
      * destruct Hact as [Hact|Hact]; [congruence|contradiction].
      * congruence.
      * rewrite Hx, Hy. exact Hrest.
    + destruct (handle_input_keeps keys_pressed space_pressed g Hcur)
        as (puzzle' & r & g' & Hh & _ & _ & _ & _ & _ & Hidle).
      destruct (Hidle Ha) as [-> _].
      rewrite Hh. cbn [bind]. cbv beta iota. now apply IH.
Qed.

(** X17.  A puzzle nobody has stood within 50 of stays inactive and
    unsolved, whatever keys and submits it is sent: from a fresh
    puzzle, a run whose every [interact] comes from farther away than
    50 ends with [active] and [completed] both false. *)
Theorem far_puzzle_stays_unsolved (x0 y0 : R) (g : Random.t) (ops : list PuzzleOp) :
  Forall (fun op =>
            match op with
            | OpInteract player =>
                (50 < sqrt ((Player.x player - x0) ^ 2
                            + (Player.y player - y0) ^ 2))%R
            | OpHandleInput _ _ => True
            end) ops ->
  exists st',
    run_puzzle_ops ops (init x0 y0 g) = Ok st' /\
    active (fst st') = false /\ completed (fst st') = false.
Proof.
  intros Hall. unfold init. cbv zeta.
  pose proof (shuffle_perm ["cross"; "candle"; "bible"; "angel"]%string g) as Hsh.
  destruct (Random.shuffle ["cross"; "candle"; "bible"; "angel"]%string g)
    as [order g'].
  cbn [fst] in Hsh.
  apply far_run; try reflexivity.
  - unfold cursor_ok. simpl. rewrite (Permutation_length Hsh). simpl. lia.
  - exact Hall.
Qed.

Lemma far_puzzle_stays_unsolved_witness :
  exists st',
    run_puzzle_ops [OpHandleInput no_keys true; OpHandleInput no_keys true]
                   (init 0 0 (Random.mk (fun _ => 0%R) (fun _ => 0%nat))) = Ok st' /\
    active (fst st') = false /\ completed (fst st') = false.
Proof.
  apply (@far_puzzle_stays_unsolved 0 0 (Random.mk (fun _ => 0%R) (fun _ => 0%nat))
           [OpHandleInput no_keys true; OpHandleInput no_keys true]).
  repeat constructor.
Defined.

End PuzzleRuns.

(** ** The digging site *)
Section DiggingFacts.

Import CemeteryDigging.

(** What every reachable site satisfies. *)
Lemma dig_op_keeps (op : DigOp) (site : t) (g : Random.t) :
  required_digs site = 5%Z -> dig_cooldown site = 30%Z ->
  (0 <= dig_progress site <= 5)%Z ->
  (completed site = true <-> dig_progress site = 5%Z) ->
  (completed site = true -> active site = false) ->
  (0 <= dig_timer site <= 30)%Z ->
  let site' := fst (run_dig_op op (site, g)) in
  required_digs site' = 5%Z /\ dig_cooldown site' = 30%Z /\
  (0 <= dig_progress site' <= 5)%Z /\
  (completed site' = true <-> dig_progress site' = 5%Z) /\
  (completed site' = true -> active site' = false) /\
  (0 <= dig_timer site' <= 30)%Z /\
  (30 * dig_progress site' - dig_timer site'
   <= 30 * dig_progress site - dig_timer site
      + (if is_dig_update op then 1 else 0))%Z.
Proof.
  intros Hreq Hcool Hprog Hiff Hact Htimer. cbv zeta.
  destruct op as [player| |]; cbn [run_dig_op is_dig_update].
  - unfold interact. cbv zeta.
    match goal with |- context [Rlt_dec ?a ?b] => destruct (Rlt_dec a b) end;
      [cbn [fst]; repeat split; auto; try lia; apply Hiff|].
    destruct (completed site) eqn:Ec;
      [cbn [fst]; repeat split; auto; try lia; try apply Hiff; congruence|].
    destruct (active site) eqn:Ea; cbn [fst negb required_digs dig_cooldown
      dig_progress completed active dig_timer];
      repeat split; auto; try lia; try apply Hiff; congruence.
  - unfold dig.
    destruct (negb (active site) || completed site || (0 <? dig_timer site)%Z) eqn:Eskip.
    + cbn [fst]. repeat split; auto; try lia; apply Hiff.
    + apply orb_false_iff in Eskip. destruct Eskip as [Eskip Et].
      apply orb_false_iff in Eskip. destruct Eskip as [Ea Ec].
      apply Z.ltb_ge in Et.
      assert (Hlt : (dig_progress site < 5)%Z).
      { destruct (Z.eq_dec (dig_progress site) 5) as [E|E]; [|lia].
        apply Hiff in E. congruence. }
      cbv zeta.
      destruct (dirt_spray 5 (x site) (y site) [] g) as [ps g1].
      rewrite Hreq, Hcool.
      destruct (Z.leb_spec 5 (dig_progress site + 1)) as [Hdone|Hmore].
      * destruct (treasure_particles 15 (x site) (y site) ps g1) as [ps' g2].
        cbn [fst required_digs dig_cooldown dig_progress completed active dig_timer].
        repeat split; auto; lia.
      * cbn [fst required_digs dig_cooldown dig_progress completed active dig_timer].
        repeat split; intros; auto; try lia; congruence.
  - unfold update. cbn [fst required_digs dig_cooldown dig_progress completed active
      dig_timer].
    destruct (Z.ltb_spec 0 (dig_timer site)); repeat split; auto; try lia; apply Hiff.
Qed.

Lemma run_dig_ops_keeps (ops : list DigOp) (site : t) (g : Random.t) :
  required_digs site = 5%Z -> dig_cooldown site = 30%Z ->
  (0 <= dig_progress site <= 5)%Z ->
  (completed site = true <-> dig_progress site = 5%Z) ->
  (completed site = true -> active site = false) ->
  (0 <= dig_timer site <= 30)%Z ->
  let site' := fst (run_dig_ops ops (site, g)) in
  (0 <= dig_progress site' <= 5)%Z /\
  (completed site' = true <-> dig_progress site' = 5%Z) /\
  (completed site' = true -> active site' = false) /\
  (0 <= dig_timer site' <= 30)%Z /\
  (30 * dig_progress site' - dig_timer site'
   <= 30 * dig_progress site - dig_timer site
      + Z.of_nat (length (filter is_dig_update ops)))%Z.
Proof.
  revert site g. induction ops as [|op ops IH];
    intros site g Hreq Hcool Hprog Hiff Hact Htimer; cbv zeta.
  - simpl. repeat split; auto; try lia; apply Hiff.
  - unfold run_dig_ops. cbn [fold_left].
    pose proof (@dig_op_keeps op site g Hreq Hcool Hprog Hiff Hact Htimer) as Hstep.
    cbv zeta in Hstep.
    destruct (run_dig_op op (site, g)) as [site1 g1]. cbn [fst] in Hstep.
    destruct Hstep as (Hreq1 & Hcool1 & Hprog1 & Hiff1 & Hact1 & Htimer1 & Hpot1).
    pose proof (IH site1 g1 Hreq1 Hcool1 Hprog1 Hiff1 Hact1 Htimer1) as Hrest.
    cbv zeta in Hrest. unfold run_dig_ops in Hrest.
    destruct Hrest as (Hp & Hi & Ha & Ht & Hpot).
    split; [exact Hp|]. split; [exact Hi|]. split; [exact Ha|]. split; [exact Ht|].
    cbn [filter]. destruct (is_dig_update op); cbn [length]; lia.
Qed.

(** X18.  On a freshly built digging site, whatever is called in
    whatever order: the progress stays between 0 and the five digs
    required, the site is completed exactly when the progress is five,
    a completed site is never active, and the cooldown timer stays
    between 0 and 30. *)
Theorem dig_site_invariant (x0 y0 : R) (g : Random.t) (ops : list DigOp) :
  let site := fst (run_dig_ops ops (init x0 y0, g)) in
  (0 <= dig_progress site <= 5)%Z /\
  (completed site = true <-> dig_progress site = 5%Z) /\
  (completed site = true -> active site = false) /\
  (0 <= dig_timer site <= 30)%Z.
Proof.
  cbv zeta.
  assert (H1 : (0 <= dig_progress (init x0 y0) <= 5)%Z) by (simpl; lia).
  assert (H2 : completed (init x0 y0) = true <-> dig_progress (init x0 y0) = 5%Z)
    by (simpl; split; [discriminate|lia]).
  assert (H3 : completed (init x0 y0) = true -> active (init x0 y0) = false)
    by (simpl; discriminate).
  assert (H4 : (0 <= dig_timer (init x0 y0) <= 30)%Z) by (simpl; lia).
  pose proof (@run_dig_ops_keeps ops (init x0 y0) g eq_refl eq_refl H1 H2 H3 H4) as H.
  cbv zeta in H. tauto.
Qed.

(** X19.  Digging cannot be rushed: on a fresh site, thirty times the
    progress made never exceeds the number of [update] ticks so far
    plus the cooldown still running, so a site is completed only after
    at least 120 ticks. *)
Theorem digging_takes_time (x0 y0 : R) (g : Random.t) (ops : list DigOp) :
  let site := fst (run_dig_ops ops (init x0 y0, g)) in
  (30 * dig_progress site
   <= Z.of_nat (length (filter is_dig_update ops)) + dig_timer site)%Z /\
  (completed site = true -> (120 <= Z.of_nat (length (filter is_dig_update ops)))%Z).
Proof.
  cbv zeta.
  assert (H1 : (0 <= dig_progress (init x0 y0) <= 5)%Z) by (simpl; lia).
  assert (H2 : completed (init x0 y0) = true <-> dig_progress (init x0 y0) = 5%Z)
    by (simpl; split; [discriminate|lia]).
  assert (H3 : completed (init x0 y0) = true -> active (init x0 y0) = false)
    by (simpl; discriminate).
  assert (H4 : (0 <= dig_timer (init x0 y0) <= 30)%Z) by (simpl; lia).
  pose proof (@run_dig_ops_keeps ops (init x0 y0) g eq_refl eq_refl H1 H2 H3 H4) as H.
  cbv zeta in H. destruct H as (Hp & Hi & Ha & Ht & Hpot).
  cbn [init dig_progress dig_timer] in Hpot. split; [lia|].
  intros Hc. apply Hi in Hc. lia.
Qed.

End DiggingFacts.

(** ** Traps *)
Section TrapFacts.

Import JackOLanternTrap.

Lemma trap_update_triggered (player : Player.t) (g : Random.t) (trap : t) :
  triggered trap = true ->
  let r := update player g trap in
  let trap' := fst (fst (fst r)) in
  let player' := snd (fst (fst r)) in
  let exploded := fst (snd (fst r)) in
  triggered trap' = true /\
  explosion_timer trap' = (explosion_timer trap + 1)%Z /\
  explosion_duration trap' = explosion_duration trap /\
  damage_radius trap' = damage_radius trap /\
  x trap' = x trap /\ y trap' = y trap /\
  exploded = (explosion_duration trap <=? explosion_timer trap + 1)%Z /\
  (exploded = false -> player' = player) /\
  (exploded = true ->
   player' =
   if Rle_dec (sqrt ((Player.x player - x trap) ^ 2 + (Player.y player - y trap) ^ 2))
              (damage_radius trap)
   then fst (Player.take_damage player) else player).
Proof.
  intros Ht. cbv zeta. unfold update. rewrite Ht. cbv zeta.
  destruct (explosion_duration trap <=? explosion_timer trap + 1)%Z.
  - destruct (blast_particles 25 (x trap) (y trap) [] g) as [ps g'].
    cbn [fst snd triggered explosion_timer explosion_duration damage_radius x y].
    repeat split; auto. discriminate.
  - cbn [fst snd triggered explosion_timer explosion_duration damage_radius x y].
    repeat split; auto. discriminate.
Qed.

(** X20.  A triggered trap is a fuse: over any run of ticks, whoever
    the players are and wherever they stand, the tick number [i + 1]
    reports an explosion exactly when the timer has then reached the
    explosion duration; on a tick without explosion the player is left
    as it was, and on a tick with one it takes a single [take_damage]
    if within the damage radius and nothing otherwise. *)
Theorem trap_fuse (players : list Player.t) (g : Random.t) (trap : t) :
  triggered trap = true ->
  let log := snd (fst (trap_ticks players g trap)) in
  length log = length players /\
  forall i player out exploded,
    nth_error players i = Some player ->
    nth_error log i = Some (out, exploded) ->
    exploded = (explosion_duration trap <=? explosion_timer trap + Z.of_nat i + 1)%Z /\
    (exploded = false -> out = player) /\
    (exploded = true ->
     out =
     if Rle_dec (sqrt ((Player.x player - x trap) ^ 2 + (Player.y player - y trap) ^ 2))
                (damage_radius trap)
     then fst (Player.take_damage player) else player).
Proof.
  revert g trap. induction players as [|p players IH]; intros g trap Ht; cbv zeta.
  - simpl. split; [reflexivity|]. intros [|i]; discriminate.
  - cbn [trap_ticks].
    pose proof (@trap_update_triggered p g trap Ht) as Hstep. cbv zeta in Hstep.
    destruct (update p g trap) as [[[trap1 p1] [ex1 ps1]] g1].
    cbn [fst snd] in Hstep.
    destruct Hstep as (Ht1 & Htimer & Hdur & Hrad & Hx & Hy & Hex & Hsafe & Hhit).
    pose proof (IH g1 trap1 Ht1) as Hrest. cbv zeta in Hrest.
    destruct (trap_ticks players g1 trap1) as [[trap2 log] g2].
    cbn [fst snd] in *. destruct Hrest as [Hlen Hlog].
    split; [simpl; now rewrite Hlen|].
    intros [|i] player out exploded Hp Hl; simpl in Hp, Hl.
    + injection Hp as <-. injection Hl as <- <-.
      replace (explosion_timer trap + Z.of_nat 0 + 1)%Z
        with (explosion_timer trap + 1)%Z by lia.
      auto.
    + destruct (Hlog i player out exploded Hp Hl) as (He & Hs & Hh).
      rewrite Hdur, Htimer, Hrad, Hx, Hy in *.
      replace (explosion_timer trap + Z.of_nat (S i) + 1)%Z
        with (explosion_timer trap + 1 + Z.of_nat i + 1)%Z by lia.
      auto.
Qed.

Lemma trap_fuse_witness :
  length (snd (fst (trap_ticks [Player.init 0 0; Player.init 0 0]
                               (Random.mk (fun _ => 0%R) (fun _ => 0%nat))
                               (mk 0 0 true 0 30 40 60 0 []))))
  = 2%nat.
Proof.
  apply (@trap_fuse [Player.init 0 0; Player.init 0 0]
           (Random.mk (fun _ => 0%R) (fun _ => 0%nat)) (mk 0 0 true 0 30 40 60 0 [])).
  reflexivity.
Defined.

Lemma take_damage_cost (p : Player.t) :
  (Player.health p - 1 <= Player.health (fst (Player.take_damage p))
   <= Player.health p)%Z /\
  ((0 < Player.invincible_timer p)%Z -> fst (Player.take_damage p) = p) /\
  (Player.health (fst (Player.take_damage p)) < Player.health p ->
   0 < Player.invincible_timer (fst (Player.take_damage p)))%Z /\
  (0 < Player.invincible_timer p ->
   0 < Player.invincible_timer (fst (Player.take_damage p)))%Z.
Proof.
  unfold Player.take_damage.
  destruct (Z.leb_spec (Player.invincible_timer p) 0) as [Hle|Hgt];
    destruct (Player.shield_active p); cbn [andb negb fst Player.health
      Player.invincible_timer]; unfold INVINCIBILITY_DURATION;
    repeat split; auto; lia.
Qed.

Lemma trap_update_cost (player : Player.t) (g : Random.t) (trap : t) :
  let player' := snd (fst (fst (update player g trap))) in
  (Player.health player - 1 <= Player.health player' <= Player.health player)%Z /\
  ((0 < Player.invincible_timer player)%Z -> player' = player) /\
  (Player.health player' < Player.health player ->
   0 < Player.invincible_timer player')%Z.
Proof.
  cbv zeta. unfold update. cbv zeta.
  destruct (take_damage_cost player) as (Hc & Hn & Hl & _).
  destruct (triggered trap).
  - destruct (explosion_duration trap <=? explosion_timer trap + 1)%Z.
    + destruct (blast_particles 25 (x trap) (y trap) [] g) as [ps g'].
      cbn [fst snd].
      match goal with |- context [Rle_dec ?a ?b] => destruct (Rle_dec a b) end;
        repeat split; auto; lia.
    + cbn [fst snd]. repeat split; auto; lia.
  - cbn [fst snd]. repeat split; auto; lia.
Qed.

Lemma update_traps_immune (traps : list t) (player : Player.t)
  (ps : list Particle) (g : Random.t) :
  (0 < Player.invincible_timer player)%Z ->
  snd (fst (fst (update_traps traps player ps g))) = player.
Proof.
  revert player ps g. induction traps as [|trap traps IH]; intros player ps g Hinv.
  - reflexivity.
  - cbn [update_traps].
    pose proof (trap_update_cost player g trap) as Hstep. cbv zeta in Hstep.
    destruct (update player g trap) as [[[trap1 p1] [ex1 ps1]] g1].
    cbn [fst snd] in Hstep. destruct Hstep as (_ & Hsame & _).
    rewrite (Hsame Hinv) in *.
    specialize (IH player (ps ++ ps1) g1 Hinv).
    destruct (update_traps traps player (ps ++ ps1) g1) as [[[rest p2] ps2] g2].
    cbn [fst snd] in *. exact IH.
Qed.

(** X21.  One pass of the game's trap loop costs the player at most
    one heart, however many traps go off at once, and it never adds a
    trap to the list. *)
Theorem traps_cost_one_heart (traps : list t) (player : Player.t)
  (ps : list Particle) (g : Random.t) :
  let r := update_traps traps player ps g in
  let traps' := fst (fst (fst r)) in
  let player' := snd (fst (fst r)) in
  (Player.health player - 1 <= Player.health player' <= Player.health player)%Z /\
  (length traps' <= length traps)%nat.
Proof.
  cbv zeta. revert player ps g.
  induction traps as [|trap traps IH]; intros player ps g.
  - simpl. split; lia.
  - cbn [update_traps].
    pose proof (trap_update_cost player g trap) as Hstep. cbv zeta in Hstep.
    destruct (update player g trap) as [[[trap1 p1] [ex1 ps1]] g1].
    cbn [fst snd] in Hstep. destruct Hstep as (Hcost & _ & Hinv).
    pose proof (IH p1 (ps ++ ps1) g1) as Hrest.
    pose proof (@update_traps_immune traps p1 (ps ++ ps1) g1) as Himm.
    destruct (update_traps traps p1 (ps ++ ps1) g1) as [[[rest p2] ps2] g2].
    cbn [fst snd] in *. destruct Hrest as [Hh Hl].
    split.
    + destruct (Z.eq_dec (Player.health p1) (Player.health player)) as [He|Hne].
      * lia.
      * rewrite Himm by (apply Hinv; lia). lia.
    + destruct ex1; simpl; lia.
Qed.

(** X22.  The trap loop keeps the fuses of the listed traps running: if
    no trap of the list has its timer at the explosion duration before
    the pass, none has afterwards, since a trap whose timer gets there
    explodes and leaves the list in the same pass. *)
Theorem traps_fuses_running (traps : list t) (player : Player.t)
  (ps : list Particle) (g : Random.t) :
  Forall (fun trap => (explosion_timer trap < explosion_duration trap)%Z) traps ->
  Forall (fun trap => (explosion_timer trap < explosion_duration trap)%Z)
         (fst (fst (fst (update_traps traps player ps g)))).
Proof.
  revert player ps g.
  induction traps as [|trap traps IH]; intros player ps g Hall.
  - constructor.
  - inversion Hall as [|? ? Hhead Htail]; subst.
    cbn [update_traps].
    assert (Hfuse :
              fst (snd (fst (update player g trap))) = false ->
              (explosion_timer (fst (fst (fst (update player g trap))))
               < explosion_duration (fst (fst (fst (update player g trap)))))%Z).
    { unfold update. cbv zeta.
      destruct (triggered trap).
      - destruct (Z.leb_spec (explosion_duration trap) (explosion_timer trap + 1)).
        + destruct (blast_particles 25 (x trap) (y trap) [] g) as [qs g'].
          cbn [fst snd]. discriminate.
        + cbn [fst snd explosion_timer explosion_duration]. intros; lia.
      - cbn [fst snd explosion_timer explosion_duration]. intros; lia. }
    destruct (update player g trap) as [[[trap1 p1] [ex1 ps1]] g1].
    cbn [fst snd] in Hfuse.
    pose proof (IH p1 (ps ++ ps1) g1 Htail) as Hrest.
    destruct (update_traps traps p1 (ps ++ ps1) g1) as [[[rest p2] ps2] g2].
    cbn [fst snd] in *.
    destruct ex1; [exact Hrest|].
    constructor; auto.
Qed.

Lemma traps_fuses_running_witness :
  Forall (fun trap => (explosion_timer trap < explosion_duration trap)%Z)
         (fst (fst (fst (update_traps [init 0 0; mk 0 0 true 29 30 40 60 0 []]
                                      (Player.init 0 0) []
                                      (Random.mk (fun _ => 0%R) (fun _ => 0%nat)))))).
Proof.
  apply traps_fuses_running.
  repeat constructor; cbn [init explosion_timer explosion_duration]; lia.
Defined.

End TrapFacts.

(** ** Special candies *)
Section SpecialCandyFacts.

Import SpecialCandy.

Lemma special_candy_op_keeps (op : SpecialCandyOp) (c : t) (p : Player.t) (g : Random.t) :
  let c' := fst (fst (run_special_candy_op op (c, p, g))) in
  let p' := snd (fst (run_special_candy_op op (c, p, g))) in
  points c' = points c /\
  (lifetime c' <= lifetime c)%Z /\
  (collected c = true -> collected c' = true /\ p' = p) /\
  (collected c = false ->
   p' = if collected c' then Player.collect_candy (points c) p else p) /\
  (collected c = false -> (lifetime c <= 0)%Z -> collected c' = false).
Proof.
  cbv zeta. destruct op; cbn [run_special_candy_op].
  - cbn [fst snd update points lifetime collected].
    repeat split; auto; try lia.
    intros ->. reflexivity.
  - unfold collect.
    destruct (collected c) eqn:Ec; cbn [negb andb].
    + cbn [fst snd]. repeat split; auto; try lia; discriminate.
    + destruct (Z.ltb_spec 0 (lifetime c)) as [Hl|Hl].
      * destruct (sparkle_particles 12 (x c) (y c) [] g) as [qs g'].
        cbn [fst snd points lifetime collected].
        repeat split; auto; try lia; discriminate.
      * cbn [fst snd]. rewrite Ec. repeat split; auto; try lia; discriminate.
Qed.

Lemma special_candy_ops_keep (ops : list SpecialCandyOp) (c : t) (p : Player.t)
  (g : Random.t) :
  let c' := fst (fst (run_special_candy_ops ops (c, p, g))) in
  let p' := snd (fst (run_special_candy_ops ops (c, p, g))) in
  points c' = points c /\
  (lifetime c' <= lifetime c)%Z /\
  (collected c = true -> collected c' = true /\ p' = p) /\
  (collected c = false ->
   p' = if collected c' then Player.collect_candy (points c) p else p) /\
  (collected c = false -> (lifetime c <= 0)%Z -> collected c' = false).
Proof.
  cbv zeta. unfold run_special_candy_ops.
  revert c p g. induction ops as [|op ops IH]; intros c p g.
  - cbn [fold_left fst snd]. repeat split; auto; try lia.
    + intros ->. reflexivity.
  - cbn [fold_left].
    pose proof (special_candy_op_keeps op c p g) as Hop. cbv zeta in Hop.
    destruct (run_special_candy_op op (c, p, g)) as [[c1 p1] g1].
    cbn [fst snd] in Hop.
    destruct Hop as (Hpts & Hlife & Hdone & Hpay & Hexp).
    destruct (IH c1 p1 g1) as (Hpts' & Hlife' & Hdone' & Hpay' & Hexp').
    split; [congruence|]. split; [lia|].
    split; [|split].
    + intros Hc. destruct (Hdone Hc) as [Hc1 ->].
      destruct (Hdone' Hc1) as [Hc2 ->]. auto.
    + intros Hc. specialize (Hpay Hc).
      destruct (collected c1) eqn:Ec1.
      * destruct (Hdone' eq_refl) as [-> ->]. exact Hpay.
      * rewrite (Hpay' eq_refl), Hpts, Hpay. reflexivity.
    + intros Hc Hl. specialize (Hexp Hc Hl).
      apply Hexp'; [exact Hexp | lia].
Qed.

(** X23.  A special candy pays once at most: after any run of updates
    and collects on a candy not yet collected, the player is either the
    one from before, or that one after a single [collect_candy] of the
    candy's points, and the latter exactly when the candy is now marked
    collected.  A candy that had expired when the run began is never
    collected in it. *)
Theorem special_candy_pays_once (ops : list SpecialCandyOp) (c : t) (p : Player.t)
  (g : Random.t) :
  collected c = false ->
  let c' := fst (fst (run_special_candy_ops ops (c, p, g))) in
  let p' := snd (fst (run_special_candy_ops ops (c, p, g))) in
  p' = (if collected c' then Player.collect_candy (points c) p else p) /\
  (is_expired c = true -> collected c' = false /\ p' = p).
Proof.
  intros Hc. cbv zeta.
  destruct (special_candy_ops_keep ops c p g) as (_ & _ & _ & Hpay & Hexp).
  split; [auto|].
  unfold is_expired. intros Hl. apply Z.leb_le in Hl.
  rewrite (Hpay Hc), (Hexp Hc Hl). auto.
Qed.

Lemma special_candy_pays_once_witness :
  Player.score
    (snd (fst (run_special_candy_ops [ScCollect; ScUpdate; ScCollect]
                 (init 0 0 "rain" 15 600, Player.init 0 0,
                  Random.mk (fun _ => 0%R) (fun _ => 0%nat)))))
  = 15%Z /\
  (is_expired (init 0 0 "rain" 15 0) = true ->
   snd (fst (run_special_candy_ops [ScCollect; ScUpdate; ScCollect]
               (init 0 0 "rain" 15 0, Player.init 0 0,
                Random.mk (fun _ => 0%R) (fun _ => 0%nat))))
   = Player.init 0 0).
Proof.
  split.
  - rewrite (proj1 (@special_candy_pays_once [ScCollect; ScUpdate; ScCollect]
                      (init 0 0 "rain" 15 600) (Player.init 0 0)
                      (Random.mk (fun _ => 0%R) (fun _ => 0%nat)) eq_refl)).
    reflexivity.
  - intros He.
    exact (proj2 (proj2 (@special_candy_pays_once [ScCollect; ScUpdate; ScCollect]
                           (init 0 0 "rain" 15 0) (Player.init 0 0)
                           (Random.mk (fun _ => 0%R) (fun _ => 0%nat)) eq_refl) He)).
Defined.

End SpecialCandyFacts.

(** ** Easter eggs *)
Section EasterEggFacts.

Local Open Scope R_scope.

Lemma egg_interact_cases (player : Player.t) (g : Random.t) (egg : EasterEgg.t) :
  let r := EasterEgg.interact player g egg in
  let egg' := fst (fst (fst r)) in
  let player' := snd (fst (fst r)) in
  let success := fst (fst (snd (fst r))) in
  (EasterEgg.activated egg = true -> EasterEgg.activated egg' = true) /\
  (success = false -> player' = player /\ egg' = egg) /\
  (success = true ->
   EasterEgg.activated egg = false /\
   EasterEgg.activated egg' = true /\ EasterEgg.visible egg' = true /\
   sqrt ((EasterEgg.x egg - Player.x player) ^ 2
         + (EasterEgg.y egg - Player.y player) ^ 2)
   <= EasterEgg.interaction_radius egg /\
   player' = EasterEgg.apply_reward (EasterEgg.reward egg) player).
Proof.
  cbv zeta. unfold EasterEgg.interact.
  destruct (EasterEgg.activated egg) eqn:Ea.
  - cbn [fst snd]. repeat split; auto; discriminate.
  - cbv zeta.
    match goal with |- context [Rlt_dec ?a ?b] => destruct (Rlt_dec a b) as [Hfar|Hnear] end.
    + cbn [fst snd]. repeat split; auto; discriminate.
    + destruct (EasterEgg.celebration_particles 15 (EasterEgg.x egg) (EasterEgg.y egg) [] g)
        as [qs g'].
      cbn [fst snd EasterEgg.activated EasterEgg.visible].
      repeat split; auto; try discriminate. lra.
Qed.

Lemma egg_calls_found (players : list Player.t) (g : Random.t) (egg : EasterEgg.t) :
  EasterEgg.activated egg = true ->
  snd (fst (egg_calls players g egg)) = map (fun player => (player, false)) players.
Proof.
  revert g egg. induction players as [|p players IH]; intros g egg Ha.
  - reflexivity.
  - cbn [egg_calls map].
    unfold EasterEgg.interact. rewrite Ha.
    specialize (IH g egg Ha).
    destruct (egg_calls players g egg) as [[egg2 log] g2].
    cbn [fst snd] in *. now rewrite IH.
Qed.

(** X24.  An Easter egg is found once: in any series of interactions
    with one egg, whoever tries, at most one call succeeds; a call that
    fails leaves its player as it was; the call that succeeds was made
    within the egg's interaction radius and hands its player the egg's
    reward; and every call after it fails. *)
Theorem egg_found_once (players : list Player.t) (g : Random.t) (egg : EasterEgg.t) :
  let log := snd (fst (egg_calls players g egg)) in
  (length (filter (fun e => snd e) log) <= 1)%nat /\
  length log = length players /\
  forall i player out success,
    nth_error players i = Some player ->
    nth_error log i = Some (out, success) ->
    (success = false -> out = player) /\
    (success = true ->
     sqrt ((EasterEgg.x egg - Player.x player) ^ 2
           + (EasterEgg.y egg - Player.y player) ^ 2)
     <= EasterEgg.interaction_radius egg /\
     out = EasterEgg.apply_reward (EasterEgg.reward egg) player /\
     forall j out2 success2,
       (i < j)%nat ->
       nth_error log j = Some (out2, success2) -> success2 = false).
Proof.
  cbv zeta. revert g egg.
  induction players as [|p players IH]; intros g egg.
  - cbn [egg_calls fst snd filter length]. split; [lia|]. split; [reflexivity|].
    intros [|i]; discriminate.
  - cbn [egg_calls].
    pose proof (egg_interact_cases p g egg) as Hstep. cbv zeta in Hstep.
    pose proof (fun g1 => @egg_calls_found players g1
                            (fst (fst (fst (EasterEgg.interact p g egg))))) as Hdone.
    destruct (EasterEgg.interact p g egg) as [[[egg1 p1] [[ok1 msg1] qs1]] g1].
    cbn [fst snd] in Hstep, Hdone. destruct Hstep as (Hact & Hfail & Hok).
    specialize (Hdone g1).
    pose proof (IH g1 egg1) as Hrest.
    destruct (egg_calls players g1 egg1) as [[egg2 log] g2].
    cbn [fst snd] in *. destruct Hrest as (Hcount & Hlen & Hlog).
    assert (Hall : ok1 = true -> forall j out2 success2,
                     nth_error log j = Some (out2, success2) -> success2 = false).
    { intros Hs j out2 success2 Hj.
      destruct (Hok Hs) as (_ & Ha1 & _).
      rewrite (Hdone Ha1) in Hj.
      rewrite nth_error_map in Hj.
      destruct (nth_error players j); simpl in Hj; [|discriminate].
      now injection Hj as _ <-. }
    split; [|split].
    + cbn [filter snd]. destruct ok1; [|exact Hcount].
      destruct (Hok eq_refl) as (_ & Ha1 & _).
      rewrite (Hdone Ha1).
      replace (filter (fun e : Player.t * bool => snd e)
                      (map (fun player => (player, false)) players))
        with (@nil (Player.t * bool)); [simpl; lia|].
      clear. induction players as [|q players IH]; simpl; auto.
    + simpl. now rewrite Hlen.
    + intros [|i] player out success Hp Hl; simpl in Hp, Hl.
      * injection Hp as <-. injection Hl as <- <-.
        split; [intros Hs; apply (Hfail Hs)|].
        intros Hs. destruct (Hok Hs) as (_ & _ & _ & Hd & Hr).
        split; [exact Hd|]. split; [exact Hr|].
        intros [|j] out2 success2 Hij Hj; [lia|].
        simpl in Hj. eapply Hall; eauto.
      * destruct (Hlog i player out success Hp Hl) as [Hf Hs].
        split; [exact Hf|].
        intros Hsucc.
        assert (Hsame : egg1 = egg).
        { destruct ok1.
          - specialize (Hall eq_refl i out success Hl). congruence.
          - apply (Hfail eq_refl). }
        subst egg1.
        destruct (Hs Hsucc) as (Hd & Hr & Hlater).
        split; [exact Hd|]. split; [exact Hr|].
        intros [|j] out2 success2 Hij Hj; [lia|].
        simpl in Hj. apply (Hlater j out2 success2); [lia|exact Hj].
Qed.

(** The relic eggs of the cemetery announce a hundred points and zombie
    power; the reward chain finds the word "points" in the text and
    adds twenty-five. *)
Example relic_reward (p : Player.t) :
  EasterEgg.apply_reward "Ancient cemetery relic (+100 points, zombie power)" p
  = Player.add_score 25 p.
Proof. reflexivity. Qed.

End EasterEggFacts.

(** ** Ghost collisions in the game loop *)
Section CollisionFacts.

Lemma take_damage_cases (p : Player.t) :
  (snd (Player.take_damage p) = false /\ fst (Player.take_damage p) = p) \/
  (snd (Player.take_damage p) = true /\
   (Player.invincible_timer p <= 0)%Z /\ Player.shield_active p = false /\
   Player.health (fst (Player.take_damage p)) = (Player.health p - 1)%Z /\
   (0 < Player.invincible_timer (fst (Player.take_damage p)))%Z /\
   Player.active_powerups (fst (Player.take_damage p)) = Player.active_powerups p).
Proof.
  unfold Player.take_damage.
  destruct (Z.leb_spec (Player.invincible_timer p) 0) as [Hle|Hgt];
    destruct (Player.shield_active p); cbn [andb negb fst snd]; auto.
  right. cbn [Player.health Player.invincible_timer Player.active_powerups].
  unfold INVINCIBILITY_DURATION. repeat split; auto; lia.
Qed.

Lemma _check_collisions_safe (ghosts : list Ghost.t) (p : Player.t) (st : GameState) :
  (0 < Player.invincible_timer p)%Z \/ Player.shield_active p = true \/
  has_powerup GHOST_REPEL (Player.active_powerups p) = true ->
  _check_collisions ghosts p st = (p, st).
Proof.
  intros Hsafe. induction ghosts as [|ghost ghosts IH]; [reflexivity|].
  cbn [_check_collisions].
  destruct (colliderect p ghost); [|exact IH].
  destruct (has_powerup GHOST_REPEL (Player.active_powerups p)) eqn:Er;
    cbn [negb]; [exact IH|].
  destruct (take_damage_cases p) as [[Hs Hp]|(Hs & Hinv & Hsh & _)].
  - destruct (Player.take_damage p) as [p1 hit]. cbn [fst snd] in *.
    subst. exact IH.
  - destruct Hsafe as [H|[H|H]]; [lia|congruence|discriminate].
Qed.

(** X25.  One pass of the ghost collision check costs at most one heart,
    however many ghosts overlap the player; the game state is left as it
    was unless a heart was lost and none remains, and then it is
    [GAME_OVER].  A player who is still invincible, shielded, or carries
    ghost repel goes through the pass untouched; any other player who
    overlaps a ghost loses exactly one heart, whatever other power-ups
    are on the list. *)
Theorem collisions_cost_one_heart (ghosts : list Ghost.t) (p : Player.t)
  (st : GameState) :
  let p' := fst (_check_collisions ghosts p st) in
  let st' := snd (_check_collisions ghosts p st) in
  ((p' = p /\ st' = st) \/
   (Player.health p' = (Player.health p - 1)%Z /\
    (0 < Player.invincible_timer p')%Z /\
    (Player.invincible_timer p <= 0)%Z /\
    Player.shield_active p = false /\
    has_powerup GHOST_REPEL (Player.active_powerups p) = false /\
    (exists ghost, In ghost ghosts /\ colliderect p ghost = true) /\
    st' = if (Player.health p' <=? 0)%Z then GAME_OVER else st)) /\
  ((0 < Player.invincible_timer p)%Z \/ Player.shield_active p = true \/
   has_powerup GHOST_REPEL (Player.active_powerups p) = true ->
   p' = p /\ st' = st) /\
  ((Player.invincible_timer p <= 0)%Z -> Player.shield_active p = false ->
   has_powerup GHOST_REPEL (Player.active_powerups p) = false ->
   (exists ghost, In ghost ghosts /\ colliderect p ghost = true) ->
   Player.health p' = (Player.health p - 1)%Z).
Proof.
  cbv zeta. split; [|split].
  - induction ghosts as [|ghost ghosts IH]; [left; auto|].
    cbn [_check_collisions].
    destruct (colliderect p ghost) eqn:Ec.
    + destruct (has_powerup GHOST_REPEL (Player.active_powerups p)) eqn:Er; cbn [negb].
      * rewrite _check_collisions_safe by auto. left; auto.
      * destruct (take_damage_cases p) as [[Hs Hp]|(Hs & Hinv & Hsh & Hh & Hi & Hl)].
        -- destruct (Player.take_damage p) as [p1 hit]. cbn [fst snd] in *. subst.
           destruct IH as [IH|(H1 & H2 & H3 & H4 & H5 & (gh & Hin & Hc) & H7)];
             [left; exact IH|].
           right. repeat split; auto. exists gh. split; [now right|exact Hc].
        -- destruct (Player.take_damage p) as [p1 hit]. cbn [fst snd] in *. subst hit.
           right.
           assert (Hrest : forall s, _check_collisions ghosts p1 s = (p1, s))
             by (intros s; apply _check_collisions_safe; auto).
           destruct (Player.health p1 <=? 0)%Z eqn:Eh; rewrite Hrest;
             cbn [fst snd]; rewrite ?Eh; repeat split; auto;
             exists ghost; split; auto; now left.
    + destruct IH as [IH|(H1 & H2 & H3 & H4 & H5 & (gh & Hin & Hc) & H7)];
        [left; exact IH|].
      right. repeat split; auto. exists gh. split; [now right|exact Hc].
  - intros Hsafe. rewrite _check_collisions_safe by exact Hsafe. auto.
  - intros Hinv Hsh Hrep [gh [Hin Hc]].
    induction ghosts as [|ghost ghosts IH]; [destruct Hin|].
    cbn [_check_collisions].
    assert (Hhit : Player.take_damage p
                   = (fst (Player.take_damage p), true) /\
                   Player.health (fst (Player.take_damage p)) = (Player.health p - 1)%Z /\
                   (0 < Player.invincible_timer (fst (Player.take_damage p)))%Z).
    { unfold Player.take_damage. rewrite Hsh.
      destruct (Z.leb_spec (Player.invincible_timer p) 0); [|lia].
      cbn [andb negb fst Player.health Player.invincible_timer].
      unfold INVINCIBILITY_DURATION. repeat split; lia. }
    destruct Hhit as (Htd & Hh & Hi).
    destruct (colliderect p ghost) eqn:Ec.
    + rewrite Hrep. cbn [negb]. rewrite Htd.
      assert (Hrest : forall s, _check_collisions ghosts (fst (Player.take_damage p)) s
                                = (fst (Player.take_damage p), s))
        by (intros s; apply _check_collisions_safe; auto).
      destruct (Player.health (fst (Player.take_damage p)) <=? 0)%Z;
        rewrite Hrest; exact Hh.
    + destruct Hin as [->|Hin]; [congruence|]. apply IH; exact Hin.
Qed.

Lemma init_overlap :
  colliderect (Player.init 100 100) (Ghost.init 100 100 None) = true.
Proof.
  assert (Hp : py_int (100 - 12) = 88%Z).
  { unfold py_int. destruct (Rle_dec 0 (100 - 12)); [|lra].
    apply Zfloor_eq. lra. }
  assert (Hg : py_int (100 - 10) = 90%Z).
  { unfold py_int. destruct (Rle_dec 0 (100 - 10)); [|lra].
    apply Zfloor_eq. lra. }
  unfold colliderect.
  cbn [Player.init Ghost.init Player.rect_centerx Player.rect_centery
       Ghost.rect_centerx Ghost.rect_centery].
  rewrite Hp, Hg. reflexivity.
Qed.

Lemma collisions_cost_one_heart_witness :
  Player.health
    (fst (_check_collisions [Ghost.init 100 100 None; Ghost.init 105 100 None]
                            (Player.init 100 100) PLAYING))
  = (Player.health (Player.init 100 100) - 1)%Z.
Proof.
  apply (proj2 (proj2 (@collisions_cost_one_heart
                         [Ghost.init 100 100 None; Ghost.init 105 100 None]
                         (Player.init 100 100) PLAYING))).
  - cbn [Player.init Player.invincible_timer]. lia.
  - reflexivity.
  - reflexivity.
  - exists (Ghost.init 100 100 None). split; [now left|exact init_overlap].
Defined.

End CollisionFacts.

(** ** The level tick *)
Section LevelTick.

Lemma next_state_started (player : Player.t) (g : Ghost.t) :
  snd (Ghost.next_state player g) = true ->
  Ghost.state g = Patrol /\
  fst (fst (Ghost.next_state player g)) = Chase /\
  snd (fst (Ghost.next_state player g)) = 300%Z.
Proof.
  unfold Ghost.next_state. cbv zeta.
  destruct (Ghost.state g).
  - match goal with |- context [Rle_dec ?a ?b] => destruct (Rle_dec a b) end;
      [destruct (negb (Player.invisibility_active player))|];
      cbn [fst snd]; auto; discriminate.
  - destruct (Ghost.chase_timer g - 1 <=? 0)%Z; [cbn [fst snd]; discriminate|].
    match goal with |- context [Rlt_dec ?a ?b] => destruct (Rlt_dec a b) end;
      cbn [fst snd]; discriminate.
  - match goal with |- context [Rlt_dec ?a ?b] => destruct (Rlt_dec a b) end;
      cbn [fst snd]; discriminate.
Qed.

Lemma update_ghosts_ok (player : Player.t) (tm : TileMap.t) (l : list Ghost.t) :
  TileMap.wf tm -> Forall route_ok l ->
  exists l' events,
    Level.update_ghosts player tm l = Ok (l', events) /\
    Forall2 (fun g g' =>
               Ghost.start_x g' = Ghost.start_x g /\
               Ghost.start_y g' = Ghost.start_y g /\
               Ghost.patrol_points g' = Ghost.patrol_points g) l l' /\
    Forall route_ok l' /\
    incl events l' /\
    (length events <= length l)%nat /\
    Forall (fun g' => Ghost.state g' = Chase /\ Ghost.chase_timer g' = 300%Z) events.
Proof.
  intros Hwf Hall. induction Hall as [|g l Hroute Hall IH].
  - exists [], []. cbn [Level.update_ghosts]. repeat split; auto.
    apply incl_refl.
  - destruct IH as (l' & events & Hrun & Hsame & Hroutes & Hincl & Hlen & Hchase).
    destruct (@ghost_update_explicit player tm g Hwf Hroute)
      as (g1 & g' & hx & hy & _ & Hu & Hs & Ht & Hsx & Hsy & Hp & _ & Hroute' & _).
    cbn [Level.update_ghosts]. rewrite Hu. cbn [bind]. cbv beta iota.
    rewrite Hrun. cbn [bind]. cbv beta iota.
    exists (g' :: l').
    exists (if snd (Ghost.next_state player g) then g' :: events else events).
    split; [reflexivity|].
    split; [constructor; auto|].
    split; [constructor; auto|].
    destruct (snd (Ghost.next_state player g)) eqn:Eb.
    + destruct (next_state_started player g Eb) as (_ & Hc & Htimer).
      split; [|split].
      * intros a [<-|Ha]; [now left|right; auto].
      * simpl. lia.
      * constructor; [split; congruence|exact Hchase].
    + split; [|split].
      * intros a Ha. right. auto.
      * simpl. lia.
      * exact Hchase.
Qed.

(** X26.  The level tick is safe and keeps what it rests on: on a
    well-shaped map, with every ghost's waypoint index inside its
    route, [Level.update] returns without an exception, for any player;
    afterwards the map is the same, every ghost has kept its start
    point and route with its index still inside, no candy was
    collected and no egg activated by it, and the chase events are
    ghosts of the level that are now in Chase with a timer of 300. *)
Theorem level_update_safe (player : Player.t) (level : Level.t) :
  TileMap.wf (Level.tile_map level) -> Forall route_ok (Level.ghosts level) ->
  exists level' events,
    Level.update player level = Ok (level', events) /\
    Level.tile_map level' = Level.tile_map level /\
    Forall2 (fun g g' =>
               Ghost.start_x g' = Ghost.start_x g /\
               Ghost.start_y g' = Ghost.start_y g /\
               Ghost.patrol_points g' = Ghost.patrol_points g)
            (Level.ghosts level) (Level.ghosts level') /\
    Forall route_ok (Level.ghosts level') /\
    map Candy.collected (Level.candies level')
    = map Candy.collected (Level.candies level) /\
    map EasterEgg.activated (Level.easter_eggs level')
    = map EasterEgg.activated (Level.easter_eggs level) /\
    incl events (Level.ghosts level') /\
    Forall (fun g' => Ghost.state g' = Chase /\ Ghost.chase_timer g' = 300%Z) events.
Proof.
  intros Hwf Hall.
  destruct (@update_ghosts_ok player (Level.tile_map level) (Level.ghosts level) Hwf Hall)
    as (l' & events & Hrun & Hsame & Hroutes & Hincl & _ & Hchase).
  unfold Level.update. rewrite Hrun. cbn [bind]. cbv beta iota.
  eexists; exists events. split; [reflexivity|].
  cbn [Level.tile_map Level.ghosts Level.candies Level.easter_eggs].
  repeat (split; auto).
  - rewrite map_map. apply map_ext. reflexivity.
  - rewrite map_map. apply map_ext. reflexivity.
Qed.

Lemma level_update_safe_witness :
  exists level' events,
    Level.update (Player.init 100 100)
      (Level.mk (TileMap.init 30 20) [Candy.init 50 50 "normal" 10]
                [Ghost.init 200 200 None] [EasterEgg.init 80 80 "secret" "Health boost"])
    = Ok (level', events) /\
    Level.tile_map level' = TileMap.init 30 20.
Proof.
  destruct (@level_update_safe (Player.init 100 100)
              (Level.mk (TileMap.init 30 20) [Candy.init 50 50 "normal" 10]
                 [Ghost.init 200 200 None] [EasterEgg.init 80 80 "secret" "Health boost"])
              (init_wf 30 20))
    as (level' & events & Hrun & Hmap & _).
  - repeat constructor; simpl; lia.
  - exists level', events. auto.
Defined.

End LevelTick.

(** ** The camera *)
Section CameraFacts.

Import Camera.

Local Open Scope R_scope.

Lemma camera_target_x (tx ty : R) (c : t) :
  target_x (update tx ty c) = Rmax 0 (Rmin 160 (tx - 400)) /\
  target_y (update tx ty c) = Rmax 0 (Rmin 40 (ty - 300)).
Proof.
  unfold update. cbn [target_x target_y].
  unfold MAP_WIDTH, MAP_HEIGHT, TILE_SIZE, SCREEN_WIDTH, SCREEN_HEIGHT.
  change (IZR (800 / 2)) with 400. change (IZR (600 / 2)) with 300.
  replace (30 * 32 - 800) with 160 by lra.
  replace (20 * 32 - 600) with 40 by lra.
  auto.
Qed.

Lemma clamp_bounds (hi v : R) : 0 <= hi -> 0 <= Rmax 0 (Rmin hi v) <= hi.
Proof.
  intros Hhi. unfold Rmax, Rmin.
  destruct (Rle_dec hi v); destruct (Rle_dec 0 _); lra.
Qed.

Lemma camera_update_on_map (tx ty : R) (c : t) :
  camera_on_map c -> camera_on_map (update tx ty c).
Proof.
  intros (Hx & Hy & Hs).
  destruct (camera_target_x tx ty c) as [Htx Hty].
  assert (Hcx : 0 <= Rmax 0 (Rmin 160 (tx - 400)) <= 160) by (apply clamp_bounds; lra).
  assert (Hcy : 0 <= Rmax 0 (Rmin 40 (ty - 300)) <= 40) by (apply clamp_bounds; lra).
  rewrite <- Htx in Hcx. rewrite <- Hty in Hcy.
  unfold camera_on_map.
  assert (Ex : x (update tx ty c)
               = x c + (target_x (update tx ty c) - x c) * smoothing c) by reflexivity.
  assert (Ey : y (update tx ty c)
               = y c + (target_y (update tx ty c) - y c) * smoothing c) by reflexivity.
  assert (Es : smoothing (update tx ty c) = smoothing c) by reflexivity.
  rewrite Ex, Ey, Es, Hs. repeat split; lra.
Qed.

Lemma camera_run_on_map (targets : list (R * R)) (c : t) :
  camera_on_map c ->
  camera_on_map (fold_left (fun c t => update (fst t) (snd t) c) targets c).
Proof.
  revert c. induction targets as [|t targets IH]; intros c Hc; [exact Hc|].
  cbn [fold_left]. apply IH. now apply camera_update_on_map.
Qed.

Lemma camera_hold (tx ty : R) (n : nat) (c : t) :
  smoothing (Nat.iter n (update tx ty) c) = smoothing c /\
  x (Nat.iter n (update tx ty) c) - target_x (update tx ty c)
  = (1 - smoothing c) ^ n * (x c - target_x (update tx ty c)) /\
  y (Nat.iter n (update tx ty) c) - target_y (update tx ty c)
  = (1 - smoothing c) ^ n * (y c - target_y (update tx ty c)) /\
  ((1 <= n)%nat ->
   target_x (Nat.iter n (update tx ty) c) = target_x (update tx ty c) /\
   target_y (Nat.iter n (update tx ty) c) = target_y (update tx ty c)).
Proof.
  induction n as [|n (Hs & Hx & Hy & _)].
  - cbn [Nat.iter nat_rect pow]. repeat split; try lra; lia.
  - change (Nat.iter (S n) (update tx ty) c)
      with (update tx ty (Nat.iter n (update tx ty) c)).
    cbn [pow].
    set (c' := Nat.iter n (update tx ty) c) in *.
    assert (Htx : target_x (update tx ty c') = target_x (update tx ty c)) by reflexivity.
    assert (Hty : target_y (update tx ty c') = target_y (update tx ty c)) by reflexivity.
    assert (Ex : x (update tx ty c')
                 = x c' + (target_x (update tx ty c') - x c') * smoothing c')
      by reflexivity.
    assert (Ey : y (update tx ty c')
                 = y c' + (target_y (update tx ty c') - y c') * smoothing c')
      by reflexivity.
    assert (Es : smoothing (update tx ty c') = smoothing c') by reflexivity.
    rewrite Ex, Ey, Es, Htx, Hty, Hs.
    split; [reflexivity|].
    split; [|split; [|auto]].
    + replace (x c' + (target_x (update tx ty c) - x c') * smoothing c
               - target_x (update tx ty c))
        with ((1 - smoothing c) * (x c' - target_x (update tx ty c))) by ring.
      rewrite Hx. ring.
    + replace (y c' + (target_y (update tx ty c) - y c') * smoothing c
               - target_y (update tx ty c))
        with ((1 - smoothing c) * (y c' - target_y (update tx ty c))) by ring.
      rewrite Hy. ring.
Qed.

(** X27.  The camera never leaves the map and closes in on its target
    geometrically: after any series of updates from a fresh camera, and
    [n] more towards one point, the camera lies within [0, 160] by
    [0, 40]; its target is the point moved by half a screen and clamped
    to that rectangle; and the distance to that target on each axis is
    0.9 to the [n] times what it was before those [n] updates. *)
Theorem camera_follows (targets : list (R * R)) (tx ty : R) (n : nat) :
  let c := fold_left (fun c t => update (fst t) (snd t) c) targets init in
  let c' := Nat.iter n (update tx ty) c in
  0 <= x c' <= 160 /\ 0 <= y c' <= 40 /\
  x c' - Rmax 0 (Rmin 160 (tx - 400))
  = (9 / 10) ^ n * (x c - Rmax 0 (Rmin 160 (tx - 400))) /\
  y c' - Rmax 0 (Rmin 40 (ty - 300))
  = (9 / 10) ^ n * (y c - Rmax 0 (Rmin 40 (ty - 300))) /\
  ((1 <= n)%nat ->
   target_x c' = Rmax 0 (Rmin 160 (tx - 400)) /\
   target_y c' = Rmax 0 (Rmin 40 (ty - 300))).
Proof.
  cbv zeta.
  set (c := fold_left (fun c t => update (fst t) (snd t) c) targets init).
  assert (Hc : camera_on_map c).
  { apply camera_run_on_map. unfold camera_on_map, init. cbn [x y smoothing]. lra. }
  assert (Hc' : camera_on_map (Nat.iter n (update tx ty) c)).
  { clear -Hc. induction n as [|n IH]; [exact Hc|].
    change (Nat.iter (S n) (update tx ty) c)
      with (update tx ty (Nat.iter n (update tx ty) c)).
    now apply camera_update_on_map. }
  destruct Hc as (_ & _ & Hs). destruct Hc' as (Hx' & Hy' & _).
  destruct (camera_hold tx ty n c) as (_ & Hx & Hy & Ht).
  destruct (camera_target_x tx ty c) as [Htx Hty].
  rewrite Htx, Hty, Hs in *.
  replace (1 - 1 / 10) with (9 / 10) in * by lra.
  repeat split; try lra; try apply Hx'; try apply Hy'; try apply Ht; auto.
Qed.

End CameraFacts.

(** ** Particles *)
Section ParticleFacts.

Local Open Scope R_scope.

Lemma particle_after_1 (p : Particle) : Particle_update p = particle_after 1 p.
Proof.
  unfold Particle_update, particle_after. cbn [pow Z.of_nat].
  f_equal; try lra; lia.
Qed.

Lemma particle_after_S (n : nat) (p : Particle) :
  Particle_update (particle_after n p) = particle_after (S n) p.
Proof.
  unfold Particle_update, particle_after.
  cbn [particle_x particle_y particle_vx particle_vy particle_color
       particle_lifetime pow].
  f_equal; try field; lia.
Qed.

Lemma filter_map_swap {A B : Type} (f : B -> bool) (g : A -> B) (l : list A) :
  filter f (map g l) = map g (filter (fun a => f (g a)) l).
Proof.
  induction l as [|a l IH]; [reflexivity|].
  cbn [map filter]. destruct (f (g a)); cbn [map]; now rewrite IH.
Qed.

Lemma filter_filter_lifetime (n : nat) (l : list Particle) :
  filter (fun p => (0 <? particle_lifetime (particle_after (S n) p))%Z)
         (filter (fun p => (Z.of_nat (S n) <=? particle_lifetime p)%Z) l)
  = filter (fun p => (Z.of_nat (S (S n)) <=? particle_lifetime p)%Z) l.
Proof.
  induction l as [|a l IH]; [reflexivity|].
  assert (Hlt : particle_lifetime (particle_after (S n) a)
                = (particle_lifetime a - Z.of_nat (S n))%Z) by reflexivity.
  cbn [filter].
  destruct (Z.leb_spec (Z.of_nat (S n)) (particle_lifetime a)) as [H1|H1];
    destruct (Z.leb_spec (Z.of_nat (S (S n))) (particle_lifetime a)) as [H2|H2];
    cbn [filter]; rewrite ?IH, ?Hlt; try lia.
  - destruct (Z.ltb_spec 0 (particle_lifetime a - Z.of_nat (S n))); [reflexivity|lia].
  - destruct (Z.ltb_spec 0 (particle_lifetime a - Z.of_nat (S n))); [lia|reflexivity].
  - reflexivity.
Qed.

(** X28.  Particles fade on schedule: after [n >= 1] passes of the
    particle update the list holds exactly the particles whose lifetime
    was at least [n], in their order, each with its lifetime down by
    [n], its velocity scaled by 0.98 to the [n], and moved by 50 times
    its first velocity times one minus that factor -- so no particle
    ever gets farther than 50 times its first velocity. *)
Theorem particles_fade (n : nat) (particles : list Particle) :
  (1 <= n)%nat ->
  Nat.iter n _update_particles particles
  = map (particle_after n)
        (filter (fun p => (Z.of_nat n <=? particle_lifetime p)%Z) particles).
Proof.
  intros Hn. destruct n as [|n]; [lia|]. clear Hn.
  induction n as [|n IH].
  - cbn [Nat.iter nat_rect]. unfold _update_particles.
    rewrite (map_ext _ _ particle_after_1).
    f_equal. apply filter_ext. intros p.
    destruct (Z.ltb_spec 0 (particle_lifetime p));
      destruct (Z.leb_spec (Z.of_nat 1) (particle_lifetime p)); auto; lia.
  - change (Nat.iter (S (S n)) _update_particles particles)
      with (_update_particles (Nat.iter (S n) _update_particles particles)).
    rewrite IH. unfold _update_particles.
    rewrite filter_map_swap, map_map, filter_filter_lifetime.
    apply map_ext. intros p. apply particle_after_S.
Qed.

Lemma particles_fade_witness :
  Nat.iter 2 _update_particles
           [mkParticle 0 0 1 0 YELLOW 1; mkParticle 0 0 0 1 YELLOW 5]
  = [particle_after 2 (mkParticle 0 0 0 1 YELLOW 5)].
Proof.
  rewrite (@particles_fade 2 [mkParticle 0 0 1 0 YELLOW 1; mkParticle 0 0 0 1 YELLOW 5]);
    [reflexivity | lia].
Defined.

End ParticleFacts.

(** ** The high-score table *)
Section HighScores.

Import SaveManager.

Lemma insert_desc_perm (e : Entry) (l : list Entry) :
  Permutation (insert_desc e l) (e :: l).
Proof.
  induction l as [|a l IH]; [reflexivity|].
  cbn [insert_desc]. destruct (snd a <=? snd e)%Z; [reflexivity|].
  rewrite IH. apply perm_swap.
Qed.

Lemma sort_desc_perm (l : list Entry) : Permutation (sort_desc l) l.
Proof.
  induction l as [|a l IH]; [reflexivity|].
  cbn [sort_desc fold_right]. rewrite insert_desc_perm.
  constructor. exact IH.
Qed.

Lemma insert_desc_sorted (e : Entry) (l : list Entry) :
  StronglySorted by_score_down l -> StronglySorted by_score_down (insert_desc e l).
Proof.
  induction 1 as [|a l Hl IH Ha]; cbn [insert_desc].
  - repeat constructor.
  - destruct (Z.leb_spec (snd a) (snd e)) as [Hle|Hgt].
    + constructor; [constructor; auto|].
      constructor; [exact Hle|].
      eapply Forall_impl; [|exact Ha]. unfold by_score_down. intros; lia.
    + constructor; [exact IH|].
      rewrite insert_desc_perm. constructor; [unfold by_score_down; lia|exact Ha].
Qed.

Lemma sort_desc_sorted (l : list Entry) : StronglySorted by_score_down (sort_desc l).
Proof.
  induction l as [|a l IH]; [constructor|].
  cbn [sort_desc fold_right]. now apply insert_desc_sorted.
Qed.

Lemma sorted_firstn (n : nat) (l : list Entry) :
  StronglySorted by_score_down l ->
  StronglySorted by_score_down (firstn n l) /\
  Forall (fun d => Forall (fun k => (snd d <= snd k)%Z) (firstn n l)) (skipn n l).
Proof.
  intros Hl. revert n. induction Hl as [|a l Hl IH Ha]; intros n.
  - rewrite firstn_nil, skipn_nil. split; constructor.
  - destruct n as [|n].
    + cbn [firstn skipn]. split; [constructor|].
      apply Forall_forall. intros; constructor.
    + cbn [firstn skipn]. destruct (IH n) as [Hs Hd]. split.
      * constructor; [exact Hs|].
        apply Forall_forall. intros b Hb.
        rewrite Forall_forall in Ha. apply Ha.
        rewrite <- (firstn_skipn n l). apply in_or_app. now left.
      * rewrite Forall_forall in *. intros d Hin. constructor; [|now apply Hd].
        apply Ha. rewrite <- (firstn_skipn n l). apply in_or_app. now right.
Qed.

Lemma save_high_score_top (name : string) (score : Z) (file : list Entry) :
  StronglySorted by_score_down (save_high_score name score file) /\
  length (save_high_score name score file) = Nat.min 5 (length file + 1) /\
  Permutation (save_high_score name score file
               ++ skipn 5 (sort_desc (file ++ [(name, score)])))
              (file ++ [(name, score)]) /\
  Forall (fun d => Forall (fun k => (snd d <= snd k)%Z)
                          (save_high_score name score file))
         (skipn 5 (sort_desc (file ++ [(name, score)]))).
Proof.
  unfold save_high_score. cbv zeta.
  destruct (@sorted_firstn 5 _ (sort_desc_sorted (file ++ [(name, score)]))) as [Hs Hd].
  split; [exact Hs|]. split; [|split; [|exact Hd]].
  - rewrite length_firstn, (Permutation_length (sort_desc_perm _)), length_app.
    reflexivity.
  - rewrite firstn_skipn. apply sort_desc_perm.
Qed.

(** X29.  [save_high_score] keeps the table in order and to the best
    five: whatever list was on file, the list written is sorted from the
    best score down, holds five entries or all of them if there are
    fewer, and together with the entries it dropped is a rearrangement
    of the old list and the new entry, no dropped entry having a better
    score than a kept one. *)
Theorem high_score_table (name : string) (score : Z) (file : list Entry) :
  let table := save_high_score name score file in
  StronglySorted by_score_down table /\
  length table = Nat.min 5 (length file + 1) /\
  exists dropped,
    Permutation (table ++ dropped) (file ++ [(name, score)]) /\
    Forall (fun d => Forall (fun k => (snd d <= snd k)%Z) table) dropped.
Proof.
  cbv zeta.
  destruct (save_high_score_top name score file) as (Hs & Hl & Hp & Hd).
  split; [exact Hs|]. split; [exact Hl|].
  exists (skipn 5 (sort_desc (file ++ [(name, score)]))). auto.
Qed.

Lemma sort_desc_snoc (e : Entry) (l : list Entry) :
  StronglySorted by_score_down l ->
  Forall (fun a => (snd e <= snd a)%Z) l ->
  sort_desc (l ++ [e]) = l ++ [e].
Proof.
  unfold sort_desc. rewrite fold_right_app. cbn [fold_right insert_desc].
  induction 1 as [|a l Hl IH Ha]; intros He; [reflexivity|].
  cbn [fold_right]. inversion He as [|? ? Hea Hel]; subst.
  rewrite (IH Hel).
  destruct l as [|b l]; cbn [app insert_desc].
  - destruct (Z.leb_spec (snd e) (snd a)); [reflexivity|lia].
  - inversion Ha as [|? ? Hba _]; subst. unfold by_score_down in Hba.
    destruct (Z.leb_spec (snd b) (snd a)); [reflexivity|lia].
Qed.

Lemma py_get_last {A : Type} (l : list A) (z : A) :
  py_get (l ++ [z]) (-1) = Ok z.
Proof.
  unfold py_get, py_index. cbv zeta.
  rewrite length_app. cbn [length].
  replace (0 <=? -1)%Z with false by reflexivity. cbn [andb].
  replace (- Z.of_nat (length l + 1) <=? -1)%Z with true
    by (symmetry; apply Z.leb_le; lia).
  cbn [andb Z.ltb Z.compare bind].
  replace (Z.to_nat (Z.of_nat (length l + 1) + -1)) with (length l) by lia.
  rewrite nth_error_app2 by lia. rewrite Nat.sub_diag. reflexivity.
Qed.

(** X30.  The high-score test of the game-over screen is exact for a
    table as [save_high_score] leaves it (sorted, five entries at
    most): the test does not raise, and it says no exactly when saving
    the score would leave the table as it is. *)
Theorem is_high_score_exact (name : string) (score : Z) (table : list Entry) :
  StronglySorted by_score_down table -> (length table <= 5)%nat ->
  exists b,
    is_high_score score table = Ok b /\
    (b = false <-> save_high_score name score table = table).
Proof.
  intros Hs Hlen.
  destruct (save_high_score_top name score table) as (_ & Hl & Hp & Hd).
  unfold is_high_score.
  destruct (Z.ltb_spec (Z.of_nat (length table)) 5) as [Hlt|Hge].
  - exists true. split; [reflexivity|]. split; [discriminate|].
    intros He. rewrite He in Hl. lia.
  - assert (Hfive : length table = 5%nat) by lia.
    destruct (exists_last (l := table)) as (l & z & ->);
      [intros ->; discriminate|].
    rewrite py_get_last. cbn [bind snd].
    exists (snd z <? score)%Z. split; [reflexivity|].
    assert (Hmin : Forall (fun a => (snd z <= snd a)%Z) (l ++ [z])).
    { clear -Hs. induction l as [|a l IH]; cbn [app] in *.
      - repeat constructor. lia.
      - inversion Hs as [|? ? Hs' Ha]; subst. constructor; [|now apply IH].
        rewrite Forall_forall in Ha. apply (Ha z).
        apply in_or_app. right. now left. }
    destruct (Z.ltb_spec (snd z) score) as [Hbeat|Hnot].
    + split; [discriminate|]. intros He. exfalso.
      rewrite He in Hp, Hd.
      apply Permutation_app_inv_l in Hp.
      apply Permutation_sym, Permutation_length_1_inv in Hp.
      rewrite Hp in Hd. inversion Hd as [|? ? Hz _]; subst.
      rewrite Forall_forall in Hz.
      assert (Hin : In z (l ++ [z])) by (apply in_or_app; right; now left).
      specialize (Hz z Hin).
      cbn [snd] in Hz. lia.
    + split; [|reflexivity]. intros _.
      unfold save_high_score. cbv zeta.
      rewrite sort_desc_snoc.
      * rewrite firstn_app, Hfive. rewrite <- Hfive at 1.
        rewrite firstn_all. rewrite Nat.sub_diag. cbn [firstn].
        apply app_nil_r.
      * exact Hs.
      * eapply Forall_impl; [|exact Hmin]. cbn [snd]. intros; lia.
Qed.

Lemma is_high_score_exact_witness :
  exists b,
    is_high_score 7 [("a", 50); ("b", 40); ("c", 30); ("d", 20); ("e", 10)]%string%Z
    = Ok b /\
    (b = false <->
     save_high_score "f" 7 [("a", 50); ("b", 40); ("c", 30); ("d", 20); ("e", 10)]%string%Z
     = [("a", 50); ("b", 40); ("c", 30); ("d", 20); ("e", 10)]%string%Z).
Proof.
  apply is_high_score_exact.
  - repeat constructor; unfold by_score_down; cbn [snd]; lia.
  - cbn [length]. lia.
Defined.

End HighScores.
